(** * Slide_Maker: layout resolution, slide composition and the mass-update tool

    A shallow embedding of [backend/app.py] (the layout matcher and the
    add-slide composition) and of [backend_Mass_Update/utils] (the
    configuration loader and the run-preserving text replacement), with the
    properties of the specification stated and settled against it.

    Conventions of the embedding.
    - Python [str] values are [string]s whose characters are the code points
      0..255; [lower], [strip] and the whitespace class follow Python on that
      range.
    - Python [int] is [Z]; lengths are EMU, as in python-pptx.
    - Objects of python-pptx are records holding the attributes the code reads
      or writes; collections are lists in document order. *)

From Stdlib Require Import ZArith Ascii String Bool Lia QArith Qround Lqa.
From Stdlib Require Import PrimFloat FloatOps SpecFloat.
From stdpp Require Import gmap strings list.

#[global] Set Warnings "-inexact-float".

(** ** Python string operations used by the code *)

Module PyStr.

(** Upper-case letters among the code points 0..255: A-Z, and the Latin-1
    capitals 0xC0-0xDE without the multiplication sign 0xD7. *)
Definition is_upper (c : ascii) : bool :=
  let n := nat_of_ascii c in
  ((65 <=? n) && (n <=? 90)) || ((192 <=? n) && (n <=? 222) && negb (n =? 215)).

Definition lower_char (c : ascii) : ascii :=
  if is_upper c then ascii_of_nat (nat_of_ascii c + 32) else c.

(** [s.lower()] *)
Fixpoint lower (s : string) : string :=
  match s with
  | EmptyString => EmptyString
  | String c s' => String (lower_char c) (lower s')
  end.

(** [sub in s] *)
Fixpoint str_in (sub s : string) : bool :=
  String.prefix sub s ||
  match s with
  | EmptyString => false
  | String _ s' => str_in sub s'
  end.

(** [any(p in s for p in patterns)] *)
Definition any_in (patterns : list string) (s : string) : bool :=
  existsb (fun p => str_in p s) patterns.

(** [c.isspace()] on the code points 0..255. *)
Definition is_space (c : ascii) : bool :=
  let n := nat_of_ascii c in
  ((9 <=? n) && (n <=? 13)) || ((28 <=? n) && (n <=? 32)) || (n =? 133) || (n =? 160).

Definition is_empty (s : string) : bool :=
  match s with EmptyString => true | String _ _ => false end.

(** [s.lstrip()], [s.rstrip()] and [s.strip()] *)
Fixpoint lstrip (s : string) : string :=
  match s with
  | EmptyString => EmptyString
  | String c s' => if is_space c then lstrip s' else s
  end.

Fixpoint rstrip (s : string) : string :=
  match s with
  | EmptyString => EmptyString
  | String c s' =>
      let r := rstrip s' in
      if is_space c && is_empty r then EmptyString else String c r
  end.

Definition strip (s : string) : string := lstrip (rstrip s).

Fixpoint rev (s : string) : string :=
  match s with
  | EmptyString => EmptyString
  | String c s' => String.append (rev s') (String c EmptyString)
  end.

(** [s.endswith(suffix)] *)
Definition endswith (s suffix : string) : bool := String.prefix (rev suffix) (rev s).

(** [s.rsplit(sep, 1)] for a one-character [sep]: the parts before and after
    the last [sep], [None] when [sep] does not occur (the list is then [s]
    alone). *)
Fixpoint rsplit1 (sep : ascii) (s : string) : option (string * string) :=
  match s with
  | EmptyString => None
  | String c s' =>
      match rsplit1 sep s' with
      | Some (a, b) => Some (String c a, b)
      | None => if Ascii.eqb c sep then Some (EmptyString, s') else None
      end
  end.

(** [s.split(sep, 1)] for a one-character [sep]. *)
Fixpoint split1 (sep : ascii) (s : string) : option (string * string) :=
  match s with
  | EmptyString => None
  | String c s' =>
      if Ascii.eqb c sep then Some (EmptyString, s')
      else match split1 sep s' with
           | Some (a, b) => Some (String c a, b)
           | None => None
           end
  end.

End PyStr.

(** ** Python dictionaries with string keys, and [None]

    A [dict] keeps its items in insertion order: it is the list of its items,
    each key once. *)

Module PyDict.

(** [d[key]], [None] when [key not in d]. *)
Fixpoint dict_get {V : Type} (d : list (string * V)) (key : string) : option V :=
  match d with
  | [] => None
  | (k, v) :: d' => if String.eqb k key then Some v else dict_get d' key
  end.

(** [d[key] = val]: a key that is present keeps its place. *)
Fixpoint dict_set {V : Type} (key : string) (val : V) (d : list (string * V))
  : list (string * V) :=
  match d with
  | [] => [(key, val)]
  | (k, v) :: d' => if String.eqb k key then (k, val) :: d' else (k, v) :: dict_set key val d'
  end.

(** Truth value of an object reference that may be [None]. *)
Definition truthy {A : Type} (o : option A) : bool :=
  match o with Some _ => true | None => false end.

End PyDict.

(** ** Python floats *)

Module PyFloat.

(** The float operations the code performs, as an interface: the true
    division of two ints, the product of an int and a float, and [int(x)]. *)
Class Arith (F : Type) := {
  truediv : Z -> Z -> F;
  mul_int : Z -> F -> F;
  int_of : F -> Z
}.

(** [float(z)]: the binary64 number nearest to [z]. *)
Definition Z2float (z : Z) : float := SF2Prim (binary_normalize prec emax z 0 false).

(** [int(x)]: truncation towards zero ([0] stands for the error Python raises
    on an infinity or a NaN). *)
Definition float2Z (x : float) : Z :=
  match Prim2SF x with
  | S754_finite s m e =>
      let mag := if (0 <=? e)%Z then (Z.pos m * 2 ^ e)%Z else (Z.pos m / 2 ^ (- e))%Z in
      if s then (- mag)%Z else mag
  | _ => 0%Z
  end.

(** Python's floats: IEEE 754 binary64. The division of two ints is the
    division of their floats for operands below 2^53 in absolute value. *)
#[export] Instance binary64 : Arith float := {
  truediv a b := PrimFloat.div (Z2float a) (Z2float b);
  mul_int n x := PrimFloat.mul (Z2float n) x;
  int_of := float2Z
}.

(** Exact rational arithmetic, the idealisation of the above. *)
#[export] Instance exact : Arith Q := {
  truediv a b := (inject_Z a / inject_Z b)%Q;
  mul_int n x := (inject_Z n * x)%Q;
  int_of x := Z.quot (Qnum x) (Z.pos (Qden x))
}.

(** The standard model of floating-point arithmetic, for an implementation
    [F] of the interface: every float has a rational value; on operands
    within the range where binary64 neither overflows nor underflows, a
    division and a product are off by at most one unit roundoff [u] in
    relative terms; [int] truncates. *)
Definition u : Q := 1 # (2 ^ 53).

Class Accurate (F : Type) `{Arith F} := {
  val : F -> Q;
  truediv_accurate : forall a b : Z,
    (0 < a < 2 ^ 53)%Z -> (0 < b < 2 ^ 53)%Z ->
    (inject_Z a / inject_Z b * (1 - u) <= val (truediv a b) /\
     val (truediv a b) <= inject_Z a / inject_Z b * (1 + u))%Q;
  mul_int_accurate : forall (n : Z) (x : F),
    (0 < n < 2 ^ 53)%Z -> (u <= val x /\ val x <= inject_Z (2 ^ 53))%Q ->
    (inject_Z n * val x * (1 - u) <= val (mul_int n x) /\
     val (mul_int n x) <= inject_Z n * val x * (1 + u))%Q;
  int_of_truncates : forall x : F,
    (0 <= val x)%Q ->
    (inject_Z (int_of x) <= val x /\ val x < inject_Z (int_of x) + 1)%Q
}.

End PyFloat.

(** ** The python-pptx objects the code works on *)

Module Pptx.
Import PyFloat.

(** The placeholder kinds that the code and python-pptx's [add_slide]
    distinguish; every other member of python-pptx's [PP_PLACEHOLDER] is
    [OTHER]. *)
Inductive PP_PLACEHOLDER :=
  TITLE | BODY | OBJECT | PICTURE | DATE | FOOTER | SLIDE_NUMBER | OTHER.

Inductive PP_ALIGN := LEFT.

(** A text frame after [tf.clear()]: its single paragraph's text, alignment
    and level, and the frame's margins and wrapping. *)
Record text_frame := {
  tf_text : string;
  tf_alignment : option PP_ALIGN;
  tf_level : Z;
  tf_margin_left : option Z;
  tf_margin_top : option Z;
  tf_word_wrap : option bool
}.

Definition empty_frame : text_frame :=
  {| tf_text := ""; tf_alignment := None; tf_level := 0;
     tf_margin_left := None; tf_margin_top := None; tf_word_wrap := None |}.

(** A placeholder shape of a layout or of a slide. [ph_type] is [None] when
    reading [shape.placeholder_format] raises; [ph_frame] is [None] when the
    shape has no [text_frame] attribute. *)
Record placeholder := {
  ph_type : option PP_PLACEHOLDER;
  ph_idx : nat;
  ph_left : Z;
  ph_top : Z;
  ph_width : Z;
  ph_height : Z;
  ph_frame : option text_frame
}.

Record layout := {
  name : string;
  placeholders : list placeholder
}.

(** An uploaded image. [image_width_at] is [None] when python-pptx cannot
    read the image, so that [add_picture] raises; else it gives, for a height,
    the width of the picture that [add_picture] makes when it is called with
    that height alone. For an image that can be read, [image_height_at] gives
    the height for a width alone, and [image_native_size] the width and the
    height of the picture when neither is given. *)
Record image_file := {
  image_filename : string;
  image_size : Z;
  image_width_at : option (Z -> Z);
  image_height_at : Z -> Z;
  image_native_size : Z * Z
}.

Inductive shape :=
| Placeholder (p : placeholder)
| TextBox (left top width height : Z) (tf : text_frame)
| Picture (left top width height : Z) (image : string).

Record RGBColor := { red : Z; green : Z; blue : Z }.

Record slide := {
  shapes : list shape;
  background : option RGBColor
}.

(** [slide.placeholders]: the placeholder shapes, in document order. *)
Definition slide_placeholders (sl : slide) : list placeholder :=
  omap (fun sh => match sh with Placeholder p => Some p | _ => None end) (shapes sl).

(** A loaded presentation: the layouts of its first master, its slide parts
    by slide id, and [prs.slides._sldIdLst], the ids in presentation order. *)
Record presentation := {
  slide_layouts : list layout;
  slide_parts : gmap nat slide;
  sldIdLst : list nat
}.

(** [Inches(x)] is [int(x * 914400)], in EMU. *)
Definition Inches (inches : float) : Z := int_of (PrimFloat.mul inches (Z2float 914400)).

End Pptx.

(** ** The layout catalog and the layout matcher ([find_layout_by_type]) *)

Module LayoutMatcher.
Import PyStr PyDict Pptx.

Record layout_config := {
  cfg_name : string;
  keywords : list string;
  has_image : bool;
  content_boxes : nat;
  prefer_simple : bool
}.

Definition PREDEFINED_LAYOUTS : list (string * layout_config) :=
  [ ("title_content",
     {| cfg_name := "Title and Content";
        keywords := ["title"; "content"; "body"; "text"; "only"];
        has_image := false; content_boxes := 1; prefer_simple := false |});
    ("title_two_content",
     {| cfg_name := "Title and Two Content";
        keywords := ["two"; "comparison"; "columns"; "divided"];
        has_image := false; content_boxes := 2; prefer_simple := false |});
    ("title_image_content",
     {| cfg_name := "Title Image and Content";
        keywords := ["picture"; "image"; "content"; "photo"; "text"];
        has_image := true; content_boxes := 1; prefer_simple := false |});
    ("title_image",
     {| cfg_name := "Title and Image";
        keywords := ["picture"; "image"; "photo"; "blank"];
        has_image := true; content_boxes := 0; prefer_simple := true |}) ].

Definition exclude_patterns : list string :=
  ["mango"; "cover"; "branded"; "anvil"; "thank"; "section"; "divider"].

(** The guard that opens the body of the first three loops. *)
Definition excluded (l : layout) : bool :=
  any_in exclude_patterns (lower (name l)).

(** First try: exact name match. *)
Fixpoint exact_name_loop (cfg : layout_config) (layouts : list layout) : option layout :=
  match layouts with
  | [] => None
  | l :: rest =>
      let layout_name_lower := lower (name l) in
      if any_in exclude_patterns layout_name_lower then exact_name_loop cfg rest
      else if String.eqb (lower (cfg_name cfg)) layout_name_lower then Some l
      else exact_name_loop cfg rest
  end.

(** The inner loop of the second try: one point per keyword in the name. *)
Fixpoint keyword_score (kws : list string) (layout_name_lower : string) : Z :=
  match kws with
  | [] => 0
  | keyword :: kws' =>
      (if str_in keyword layout_name_lower then 1 else 0) + keyword_score kws' layout_name_lower
  end%Z.

(** Second try: the loop carries [best_match] and [best_score]. *)
Fixpoint keyword_loop (kws : list string) (layouts : list layout)
  (best_match : option layout) (best_score : Z) : option layout * Z :=
  match layouts with
  | [] => (best_match, best_score)
  | l :: rest =>
      let layout_name_lower := lower (name l) in
      if any_in exclude_patterns layout_name_lower
      then keyword_loop kws rest best_match best_score
      else
        let score := keyword_score kws layout_name_lower in
        if (score >? best_score)%Z
        then keyword_loop kws rest (Some l) score
        else keyword_loop kws rest best_match best_score
  end.

(** What the scan of [layout.placeholders] accumulates in the third try. *)
Record structure := {
  has_title : bool;
  body_count : Z;
  has_picture : bool;
  placeholder_count : Z
}.

Definition scan_step (st : structure) (shape : placeholder) : structure :=
  let st := {| has_title := has_title st; body_count := body_count st;
               has_picture := has_picture st;
               placeholder_count := placeholder_count st + 1 |} in
  match ph_type shape with
  | Some TITLE =>
      {| has_title := true; body_count := body_count st;
         has_picture := has_picture st; placeholder_count := placeholder_count st |}
  | Some BODY | Some OBJECT =>
      {| has_title := has_title st; body_count := body_count st + 1;
         has_picture := has_picture st; placeholder_count := placeholder_count st |}
  | Some PICTURE =>
      {| has_title := has_title st; body_count := body_count st;
         has_picture := true; placeholder_count := placeholder_count st |}
  | _ => st
  end%Z.

Definition scan (l : layout) : structure :=
  fold_left scan_step (placeholders l)
    {| has_title := false; body_count := 0; has_picture := false; placeholder_count := 0 |}.

(** The [if]/[elif] chain on [layout_type] that sets [structure_score]. *)
Definition structure_score (layout_type : string) (st : structure) : Z :=
  (if String.eqb layout_type "title_content" then
     if has_title st && (body_count st >=? 1) && negb (has_picture st)
     then 100 - placeholder_count st else 0
   else if String.eqb layout_type "title_two_content" then
     if has_title st && (body_count st >=? 2)
     then 100 - placeholder_count st else 0
   else if String.eqb layout_type "title_image_content" then
     if has_title st && (body_count st >=? 1) && has_picture st
     then 100 - placeholder_count st else 0
   else if String.eqb layout_type "title_image" then
     if has_title st && has_picture st && (body_count st =? 0)
     then 200 - placeholder_count st
     else if has_title st && has_picture st
     then 50 - placeholder_count st else 0
   else 0)%Z.

(** Third try: structure-based matching. *)
Fixpoint structure_loop (layout_type : string) (layouts : list layout)
  (best_structure_match : option layout) (best_structure_score : Z) : option layout * Z :=
  match layouts with
  | [] => (best_structure_match, best_structure_score)
  | l :: rest =>
      let layout_name_lower := lower (name l) in
      if any_in exclude_patterns layout_name_lower
      then structure_loop layout_type rest best_structure_match best_structure_score
      else
        let score := structure_score layout_type (scan l) in
        if (score >? best_structure_score)%Z
        then structure_loop layout_type rest (Some l) score
        else structure_loop layout_type rest best_structure_match best_structure_score
  end.

(** The scan of the fallback loop: [has_title] and [has_body]. *)
Definition fallback_step (acc : bool * bool) (shape : placeholder) : bool * bool :=
  match ph_type shape with
  | Some TITLE => (true, snd acc)
  | Some BODY | Some OBJECT => (fst acc, true)
  | _ => acc
  end.

(** Fallback: the first layout, of all the layouts, with a title and a body. *)
Fixpoint fallback_loop (layouts : list layout) : option layout :=
  match layouts with
  | [] => None
  | l :: rest =>
      let '(has_title, has_body) := fold_left fallback_step (placeholders l) (false, false) in
      if has_title && has_body then Some l else fallback_loop rest
  end.

(** Ultimate fallback: the second layout, else the first, else [None]. *)
Definition ultimate_fallback (layouts : list layout) : option layout :=
  if (1 <? length layouts)%nat then layouts !! 1%nat
  else if (0 <? length layouts)%nat then layouts !! 0%nat else None.

(** [find_layout_by_type(slide_master, layout_type)], on
    [slide_master.slide_layouts]. *)
Definition find_layout_by_type (slide_layouts : list layout) (layout_type : string)
  : option layout :=
  match dict_get PREDEFINED_LAYOUTS layout_type with
  | None => None
  | Some layout_config =>
      match exact_name_loop layout_config slide_layouts with
      | Some l => Some l
      | None =>
          let '(best_match, best_score) :=
            keyword_loop (keywords layout_config) slide_layouts None 0 in
          if truthy best_match && (best_score >? 0)%Z then best_match
          else
            let '(best_structure_match, best_structure_score) :=
              structure_loop layout_type slide_layouts None 0 in
            if truthy best_structure_match then best_structure_match
            else
              match fallback_loop slide_layouts with
              | Some l => Some l
              | None => ultimate_fallback slide_layouts
              end
      end
  end.

(** *** Predicates used to state the matcher's properties *)

(** The layout's lowercase name equals the type's display name, lowercased. *)
Definition exact_name (cfg : layout_config) (l : layout) : bool :=
  String.eqb (lower (cfg_name cfg)) (lower (name l)).

(** The layout's lowercase name contains at least one keyword of the type. *)
Definition keyword_hit (cfg : layout_config) (l : layout) : bool :=
  (keyword_score (keywords cfg) (lower (name l)) >? 0)%Z.

(** The structural composition a layout type asks for: the condition of the
    type's scoring rule (for [title_image], the one of its first rule: a title,
    a picture and no body slot). *)
Definition structurally_qualifies (layout_type : string) (l : layout) : bool :=
  let st := scan l in
  if String.eqb layout_type "title_content" then
    has_title st && (body_count st >=? 1)%Z && negb (has_picture st)
  else if String.eqb layout_type "title_two_content" then
    has_title st && (body_count st >=? 2)%Z
  else if String.eqb layout_type "title_image_content" then
    has_title st && (body_count st >=? 1)%Z && has_picture st
  else if String.eqb layout_type "title_image" then
    has_title st && has_picture st && (body_count st =? 0)%Z
  else false.

(** Total number of placeholders of a layout. *)
Definition total_placeholders (l : layout) : Z := Z.of_nat (length (placeholders l)).

(** No admissible layout matches the type by exact name or by keyword. *)
Definition no_name_or_keyword_match (cfg : layout_config) (layouts : list layout) : Prop :=
  forall l, l ∈ layouts -> excluded l = false ->
    exact_name cfg l = false /\ keyword_hit cfg l = false.

(** The matcher returns the admissible, structurally qualifying layout with
    the fewest placeholders, the first one of them in iteration order. *)
Definition returns_simplest_qualifier (layout_type : string) (layouts : list layout) : Prop :=
  exists pre l post,
    layouts = pre ++ l :: post /\
    find_layout_by_type layouts layout_type = Some l /\
    excluded l = false /\ structurally_qualifies layout_type l = true /\
    (forall z, z ∈ pre -> excluded z = false -> structurally_qualifies layout_type z = true ->
       (total_placeholders l < total_placeholders z)%Z) /\
    (forall z, z ∈ post -> excluded z = false -> structurally_qualifies layout_type z = true ->
       (total_placeholders l <= total_placeholders z)%Z).

(** The second and the third loop are the same scan: skip the excluded
    layouts and keep the first layout of strictly highest score. *)
Fixpoint best_loop (score : layout -> Z) (layouts : list layout)
  (best : option layout) (best_score : Z) : option layout * Z :=
  match layouts with
  | [] => (best, best_score)
  | l :: rest =>
      if excluded l then best_loop score rest best best_score
      else if (score l >? best_score)%Z then best_loop score rest (Some l) (score l)
      else best_loop score rest best best_score
  end.

(** Scores of the third try, by qualification. *)
Definition top_score (ty : string) : Z :=
  if String.eqb ty "title_image" then 200%Z else 100%Z.
Definition consolation (ty : string) : Z :=
  if String.eqb ty "title_image" then 50%Z else 0%Z.

(** Example layouts. *)
Definition slot (t : PP_PLACEHOLDER) : placeholder :=
  {| ph_type := Some t;
     ph_idx := match t with TITLE => 0 | _ => 1 end;
     ph_left := 0; ph_top := 0; ph_width := 0; ph_height := 0;
     ph_frame := match t with PICTURE => None | _ => Some empty_frame end |}.

Definition mango_cover : layout :=
  {| name := "Mango Cover"; placeholders := [slot TITLE; slot BODY] |}.
Definition title_only : layout :=
  {| name := "Custom"; placeholders := [slot TITLE] |}.
Definition title_and_content : layout :=
  {| name := "Title and Content"; placeholders := [slot TITLE; slot BODY] |}.
Definition with_picture : layout :=
  {| name := "Layout A"; placeholders := [slot TITLE; slot BODY; slot PICTURE] |}.
Definition crowded : layout :=
  {| name := "Layout B"; placeholders := slot TITLE :: slot BODY :: repeat (slot OTHER) 98 |}.
Definition plain : layout :=
  {| name := "Layout C"; placeholders := [slot TITLE; slot BODY; slot OTHER] |}.
Definition plainer : layout :=
  {| name := "Layout D"; placeholders := [slot TITLE; slot OBJECT] |}.

End LayoutMatcher.

(** ** The add-slide request ([add_slide]) *)

Module SlideComposer.
Import PyStr PyDict PyFloat Pptx LayoutMatcher.
Open Scope Z_scope.

Definition MAX_FILE_SIZE : Z := 50 * 1024 * 1024.
Definition MAX_IMAGE_SIZE : Z := 10 * 1024 * 1024.
Definition ALLOWED_IMAGE_EXTENSIONS : list string := ["png"; "jpg"; "jpeg"; "gif"; "bmp"].

(** [validate_file_size]: [false] stands for the [ValueError] it raises. *)
Definition validate_file_size (size max_size : Z) : bool := negb (size >? max_size).

Definition validate_image_format (filename : string) : bool :=
  if negb (str_in "." filename) then false
  else match rsplit1 "." filename with
       | Some (_, ext) => existsb (String.eqb (lower ext)) ALLOWED_IMAGE_EXTENSIONS
       | None => false
       end.

(** The uploaded presentation: [content] is [None] when [Presentation(file)]
    raises. *)
Record pptx_file := {
  filename : string;
  file_size : Z;
  content : option presentation
}.

(** The request. A missing form field is the empty string;
    [form_position] is the value of [int(request.form.get('position', 0))],
    [None] when it raises [ValueError]. *)
Record request := {
  files_file : option pptx_file;
  form_layout : string;
  form_title : string;
  form_text : string;
  form_text2 : string;
  form_position : option Z;
  files_image : option image_file
}.

Inductive error_message :=
| NoPowerPointFileUploaded
| NoFileSelected
| FileMustBePptx
| FileTooLarge
| ValidLayoutTypeRequired
| ContentTextRequired
| SecondContentBoxRequired
| InvalidImageFormat
| ImageTooLarge
| PositionCannotBeNegative
| PositionMustBeNumber
| InvalidOrCorruptedFile
| NoSlideLayouts
| NoSuitableLayout
| ValueErrorMessage.

Inductive response :=
| Error (status : nat) (message : error_message)
| SendFile (output : presentation) (download_name : string).

(** The validation chain returns at the first failed check. *)
Definition checked (A : Type) : Type := response + A.
Definition check (ok : bool) (status : nat) (message : error_message) : checked unit :=
  if ok then inr tt else inl (Error status message).
Definition required {A} (o : option A) (status : nat) (message : error_message) : checked A :=
  match o with Some a => inr a | None => inl (Error status message) end.
Definition and_then {A B} (c : checked A) (k : A -> checked B) : checked B :=
  match c with inl r => inl r | inr a => k a end.

Notation "'let?' x := c 'in' k" := (and_then c (fun x => k))
  (at level 10, x name, c at level 100, k at level 200).
Notation "'do?' c 'in' k" := (and_then c (fun _ => k))
  (at level 10, c at level 100, k at level 200).

(** *** Moving the new slide

    The [try] block works on [prs.slides._sldIdLst], a private attribute,
    through python-pptx and lxml calls; the handlers below it are there for
    the case that one of these raises. The calls are numbered in execution
    order (0: reading [_sldIdLst]; 1: [list(xml_slides)]; 2:
    [xml_slides.clear()]; 3, 4, ...: the calls of [xml_slides.append]); a
    [fault] says which call raises and what. A call that raises has no
    effect. *)

Inductive exn := AttributeError | OtherException.

Record fault := {
  fault_at : nat;
  raised : exn
}.

Inductive reposition_log :=
| SlideInsertedAt (insert_pos : Z)
| NoSlidesToReposition
| PositioningNotSupported
| CouldNotReposition.

Section Reposition.
Variable injected : option fault.

(** Computations of the [try] block: the state is the XML list and the
    number of calls made so far; the outcome is a value or an exception. *)
Definition M (A : Type) : Type := list nat * nat -> (exn + A) * (list nat * nat).

Definition ret {A} (a : A) : M A := fun w => (inr a, w).

Definition bind {A B} (m : M A) (k : A -> M B) : M B :=
  fun w => match m w with
           | (inl e, w') => (inl e, w')
           | (inr a, w') => k a w'
           end.

Definition raises_at (n : nat) : option exn :=
  match injected with
  | Some f => if (fault_at f =? n)%nat then Some (raised f) else None
  | None => None
  end.

(** One call on the XML list. *)
Definition xml_call {A} (f : list nat -> A * list nat) : M A :=
  fun '(l, n) =>
    match raises_at n with
    | Some e => (inl e, (l, S n))
    | None => let '(a, l') := f l in (inr a, (l', S n))
    end.

Fixpoint for_each {A} (xs : list A) (body : A -> M unit) : M unit :=
  match xs with
  | [] => ret tt
  | x :: xs' => bind (body x) (fun _ => for_each xs' body)
  end.

(** [l.pop()] on a Python list: the list without its last element, and that
    element. *)
Definition pop {A} (l : list A) : option (list A * A) :=
  match reverse l with
  | [] => None
  | x :: r => Some (reverse r, x)
  end.

(** [l.insert(i, x)] for [i >= 0]. *)
Definition list_insert {A} (i : Z) (x : A) (l : list A) : list A :=
  take (Z.to_nat i) l ++ x :: drop (Z.to_nat i) l.

(** The body of the [try] block. *)
Definition reposition_body (position : Z) : M reposition_log :=
  bind (xml_call (fun l => (tt, l))) (fun _ =>
  bind (xml_call (fun l => (l, l))) (fun slides =>
  match pop slides with
  | Some (slides, moved_slide) =>
      let insert_pos := Z.min position (Z.of_nat (length slides)) in
      let slides := list_insert insert_pos moved_slide slides in
      bind (xml_call (fun _ => (tt, []))) (fun _ =>
      bind (for_each slides (fun slide => xml_call (fun l => (tt, l ++ [slide])))) (fun _ =>
      ret (SlideInsertedAt insert_pos)))
  | None => ret NoSlidesToReposition
  end)).

(** The step: the guard, the [try] block and its two handlers. It returns the
    list as the step leaves it and what was printed. *)
Definition move_slide (position total_slides : Z) (xml_slides : list nat)
  : list nat * option reposition_log :=
  if position <? total_slides then
    match reposition_body position (xml_slides, 0%nat) with
    | (inr msg, (l, _)) => (l, Some msg)
    | (inl AttributeError, (l, _)) => (l, Some PositioningNotSupported)
    | (inl OtherException, (l, _)) => (l, Some CouldNotReposition)
    end
  else (xml_slides, None).

End Reposition.

(** *** Filling the new slide *)

Definition white : RGBColor := {| red := 255; green := 255; blue := 255 |}.

Definition set_background (sl : slide) : slide :=
  {| shapes := shapes sl; background := Some white |}.

Definition with_frame (p : placeholder) (tf : text_frame) : placeholder :=
  {| ph_type := ph_type p; ph_idx := ph_idx p; ph_left := ph_left p; ph_top := ph_top p;
     ph_width := ph_width p; ph_height := ph_height p; ph_frame := Some tf |}.

(** [shape.text = title] on the title placeholder: python-pptx's
    [shapes.title] is the first placeholder whose idx is 0. A placeholder
    without a text frame raises, and the handler leaves the slide as it is. *)
Fixpoint set_title_shape (title : string) (shs : list shape) : list shape :=
  match shs with
  | [] => []
  | Placeholder p :: rest =>
      if (ph_idx p =? 0)%nat then
        match ph_frame p with
        | Some tf =>
            Placeholder (with_frame p
              {| tf_text := title; tf_alignment := tf_alignment tf; tf_level := tf_level tf;
                 tf_margin_left := tf_margin_left tf; tf_margin_top := tf_margin_top tf;
                 tf_word_wrap := tf_word_wrap tf |}) :: rest
        | None => shs
        end
      else Placeholder p :: set_title_shape title rest
  | sh :: rest => sh :: set_title_shape title rest
  end.

Definition set_title (title : string) (sl : slide) : slide :=
  if is_empty title then sl
  else {| shapes := set_title_shape title (shapes sl); background := background sl |}.

(** [phf.type in [PP_PLACEHOLDER.BODY, PP_PLACEHOLDER.OBJECT]] *)
Definition is_content (p : placeholder) : bool :=
  match ph_type p with
  | Some BODY | Some OBJECT => true
  | _ => false
  end.

(** The placeholder shapes of a shape tree from place [k] on, in document
    order, each with its place in the tree: the place stands for the shape
    object that the loops below hold on to. *)
Fixpoint placeholders_from (k : nat) (shs : list shape) : list (nat * placeholder) :=
  match shs with
  | [] => []
  | Placeholder p :: rest => (k, p) :: placeholders_from (S k) rest
  | _ :: rest => placeholders_from (S k) rest
  end.

(** [sorted(ph_elms, key=lambda e: e.ph_idx)]; Python's sort is stable. *)
Fixpoint insert_by_idx (x : nat * placeholder) (sorted : list (nat * placeholder))
  : list (nat * placeholder) :=
  match sorted with
  | [] => [x]
  | y :: rest =>
      if (ph_idx y.2 <? ph_idx x.2)%nat then y :: insert_by_idx x rest else x :: sorted
  end.

Definition sorted_by_idx (phs : list (nat * placeholder)) : list (nat * placeholder) :=
  foldr insert_by_idx [] phs.

(** [slide.placeholders]: python-pptx iterates over the placeholder shapes
    in the order of their [idx], over a list made when the loop starts. *)
Definition slide_placeholders (sl : slide) : list (nat * placeholder) :=
  sorted_by_idx (placeholders_from 0 (shapes sl)).

Definition content_placeholders (sl : slide) : list (nat * placeholder) :=
  List.filter (fun x => is_content x.2) (slide_placeholders sl).

(** [tf.clear(); p = tf.paragraphs[0]; p.text = text; p.alignment = LEFT] *)
Definition write_text (text : string) (tf : text_frame) : text_frame :=
  {| tf_text := text; tf_alignment := Some LEFT; tf_level := tf_level tf;
     tf_margin_left := tf_margin_left tf; tf_margin_top := tf_margin_top tf;
     tf_word_wrap := tf_word_wrap tf |}.

(** The text frame of a text box that [add_textbox] has just made. *)
Definition new_textbox_frame : text_frame :=
  {| tf_text := ""; tf_alignment := None; tf_level := 0;
     tf_margin_left := None; tf_margin_top := None; tf_word_wrap := Some false |}.

(** The two-content branch. With two content placeholders the first two of
    the iteration are written, in a [try] block that a missing text frame
    leaves early; with fewer, two text boxes are added. *)
Definition set_two_content (text text2 : string) (sl : slide) : slide :=
  match content_placeholders sl with
  | (i1, p1) :: (i2, p2) :: _ =>
      match ph_frame p1 with
      | None => sl
      | Some tf1 =>
          let shs := <[i1 := Placeholder (with_frame p1 (write_text text tf1))]> (shapes sl) in
          match ph_frame p2 with
          | None => {| shapes := shs; background := background sl |}
          | Some tf2 =>
              {| shapes := <[i2 := Placeholder (with_frame p2 (write_text text2 tf2))]> shs;
                 background := background sl |}
          end
      end
  | _ =>
      let txBox1 := TextBox (Inches 0.5) (Inches 1.8) (Inches 4.2) (Inches 5)
                      (write_text text new_textbox_frame) in
      let txBox2 := TextBox (Inches 5.2) (Inches 1.8) (Inches 4.2) (Inches 5)
                      (write_text text2 new_textbox_frame) in
      {| shapes := shapes sl ++ [txBox1; txBox2]; background := background sl |}
  end.

(** The loop of the single-content branch: the first content placeholder of
    the iteration that has a text frame takes the text; the result is its
    place and what it becomes, [None] when [content_added] stays false. *)
Fixpoint fill_first_content (text : string) (phs : list (nat * placeholder))
  : option (nat * placeholder) :=
  match phs with
  | [] => None
  | (i, p) :: rest =>
      if is_content p then
        match ph_frame p with
        | Some tf =>
            Some (i, with_frame p
                       {| tf_text := text; tf_alignment := Some LEFT; tf_level := 0;
                          tf_margin_left := Some (Inches 0.1);
                          tf_margin_top := Some (Inches 0.1);
                          tf_word_wrap := Some true |})
        | None => fill_first_content text rest
        end
      else fill_first_content text rest
  end.

Definition set_single_content (text : string) (sl : slide) : slide :=
  match fill_first_content text (slide_placeholders sl) with
  | Some (i, p) => {| shapes := <[i := Placeholder p]> (shapes sl); background := background sl |}
  | None =>
      let txBox := TextBox (Inches 0.5) (Inches 1.8) (Inches 9) (Inches 5)
                     {| tf_text := text; tf_alignment := Some LEFT; tf_level := 0;
                        tf_margin_left := Some (Inches 0); tf_margin_top := Some (Inches 0);
                        tf_word_wrap := Some true |} in
      {| shapes := shapes sl ++ [txBox]; background := background sl |}
  end.

(** SET CONTENT *)
Definition set_content (layout_type text text2 : string) (sl : slide) : slide :=
  if String.eqb layout_type "title_two_content" && negb (is_empty text) && negb (is_empty text2)
  then set_two_content text text2 sl
  else if negb (is_empty text) then set_single_content text sl
  else sl.

(** The size that [add_picture(image, left, top, width, height)] gives the
    picture (python-pptx's [image_part.scale]): a width or a height that is
    zero is worked out from the other, and both from the image when both are
    zero. [None] when the image cannot be read and [add_picture] raises. *)
Definition scale (img : image_file) (width height : Z) : option (Z * Z) :=
  match image_width_at img with
  | None => None
  | Some width_at =>
      Some (if negb (width =? 0) && negb (height =? 0) then (width, height)
            else if negb (width =? 0) then (width, image_height_at img width)
            else if negb (height =? 0) then (width_at height, height)
            else image_native_size img)
  end.

(** The loop over the placeholders of the image step. A picture placeholder
    is removed from the shape tree and the picture is added with its bounds;
    when python-pptx cannot read the image, [add_picture] raises after the
    removal and the loop goes on. The result is the places of the shapes
    removed and the picture added. *)
Fixpoint picture_loop (img : image_file) (phs : list (nat * placeholder))
  : list nat * option shape :=
  match phs with
  | [] => ([], None)
  | (i, p) :: rest =>
      match ph_type p with
      | Some PICTURE =>
          match scale img (ph_width p) (ph_height p) with
          | Some (width, height) =>
              ([i], Some (Picture (ph_left p) (ph_top p) width height (image_filename img)))
          | None => let '(removed, pic) := picture_loop img rest in (i :: removed, pic)
          end
      | _ => picture_loop img rest
      end
  end.

(** The shape tree from place [k] on without the shapes at the places
    [removed]. *)
Fixpoint remove_from (k : nat) (removed : list nat) (shs : list shape) : list shape :=
  match shs with
  | [] => []
  | sh :: rest =>
      if existsb (Nat.eqb k) removed then remove_from (S k) removed rest
      else sh :: remove_from (S k) removed rest
  end.

(** The size of a picture inserted without a picture placeholder:
    [if pic.width > max_width: aspect_ratio = pic.height / pic.width;
     pic.width = max_width; pic.height = int(max_width * aspect_ratio)]. *)
Definition fit_width {F} `{Arith F} (max_width pic_width pic_height : Z) : Z * Z :=
  if pic_width >? max_width then
    let aspect_ratio := truediv pic_height pic_width in
    (max_width, int_of (mul_int max_width aspect_ratio))
  else (pic_width, pic_height).

(** The picture of the fallback branch, [None] when [add_picture] raises. *)
Definition fallback_picture {F} `{Arith F} (image : image_file) : option shape :=
  let pic_left := Inches 6.5 in
  let pic_top := Inches 1.5 in
  let max_height := Inches 5 in
  let max_width := Inches 3 in
  match image_width_at image with
  | None => None
  | Some width_at =>
      let pic_width := width_at max_height in
      let '(width, height) := fit_width (F:=F) max_width pic_width max_height in
      Some (Picture pic_left pic_top width height (image_filename image))
  end.

(** Add image if provided. *)
Definition add_image {F} `{Arith F} (image : option image_file) (sl : slide) : slide :=
  match image with
  | None => sl
  | Some img =>
      let '(removed, added) := picture_loop img (slide_placeholders sl) in
      let shs := remove_from 0 removed (shapes sl) in
      match added with
      | Some pic => {| shapes := shs ++ [pic]; background := background sl |}
      | None =>
          match fallback_picture (F:=F) img with
          | Some pic => {| shapes := shs ++ [pic]; background := background sl |}
          | None => {| shapes := shs; background := background sl |}
          end
      end
  end.

(** The steps that fill the new slide, in order. *)
Definition compose {F} `{Arith F} (layout_type title text text2 : string)
  (image : option image_file) (new_slide : slide) : slide :=
  add_image (F:=F) image
    (set_content layout_type text text2 (set_title title (set_background new_slide))).

(** *** Creating the slide *)

(** python-pptx gives a new slide the next id above those in use, from 256
    on (as long as that id is within the 2147483647 that the file format
    allows). *)
Definition next_id (ids : list nat) : nat := S (foldr Nat.max 255%nat ids).

(** The placeholders that python-pptx does not copy to a new slide: date,
    footer and slide number. *)
Definition is_latent (p : placeholder) : bool :=
  match ph_type p with
  | Some DATE | Some FOOTER | Some SLIDE_NUMBER => true
  | _ => false
  end.

Definition clone_placeholder (p : placeholder) : shape :=
  Placeholder
    {| ph_type := ph_type p; ph_idx := ph_idx p; ph_left := ph_left p; ph_top := ph_top p;
       ph_width := ph_width p; ph_height := ph_height p;
       ph_frame := (fun _ => empty_frame) <$> ph_frame p |}.

(** The slide that [prs.slides.add_slide(slide_layout)] makes: it owns
    copies of the layout's placeholders, the latent ones apart, with empty
    text frames. *)
Definition new_slide_from (slide_layout : layout) : slide :=
  {| shapes := clone_placeholder <$>
                 List.filter (fun p => negb (is_latent p)) (placeholders slide_layout);
     background := None |}.

(** [prs.slides.add_slide(slide_layout)]: [None] when it raises
    [ValueError], which it does when the type of a placeholder of the layout
    cannot be read. *)
Definition slides_add_slide (slide_layout : layout) : option slide :=
  if forallb (fun p => truthy (ph_type p)) (placeholders slide_layout)
  then Some (new_slide_from slide_layout)
  else None.

(** [if image:] on an uploaded file is whether it has a file name. *)
Definition supplied (image : option image_file) : option image_file :=
  match image with
  | Some img => if is_empty (image_filename img) then None else Some img
  | None => None
  end.

Definition validate_image (image : option image_file) : checked unit :=
  match image with
  | None => inr tt
  | Some img =>
      do? check (validate_image_format (image_filename img)) 400 InvalidImageFormat in
      check (validate_file_size (image_size img) MAX_IMAGE_SIZE) 400 ImageTooLarge
  end.

(** [add_slide], on a request and on what the calls of the repositioning
    step do, with Python's floats. A [ValueError] of
    [prs.slides.add_slide] is answered by the outer handler with its message
    and status 400. The handlers for failures of the other python-pptx calls
    (background, text boxes, saving) are not exercised: these calls are taken
    to return. *)
Definition add_slide (injected : option fault) (req : request) : response :=
  let served :=
    let? file := required (files_file req) 400 NoPowerPointFileUploaded in
    do? check (negb (is_empty (filename file))) 400 NoFileSelected in
    do? check (endswith (filename file) ".pptx") 400 FileMustBePptx in
    do? check (validate_file_size (file_size file) MAX_FILE_SIZE) 400 FileTooLarge in
    let layout_type := strip (form_layout req) in
    let title := strip (form_title req) in
    let text := strip (form_text req) in
    let text2 := strip (form_text2 req) in
    let image := supplied (files_image req) in
    let? layout_config :=
      required (if is_empty layout_type then None
                else dict_get PREDEFINED_LAYOUTS layout_type) 400 ValidLayoutTypeRequired in
    do? check (negb ((0 <? content_boxes layout_config)%nat && is_empty text))
      400 ContentTextRequired in
    do? check (negb ((content_boxes layout_config =? 2)%nat && is_empty text2))
      400 SecondContentBoxRequired in
    do? validate_image image in
    let? position := required (form_position req) 400 PositionMustBeNumber in
    do? check (negb (position <? 0)) 400 PositionCannotBeNegative in
    let? prs := required (content file) 400 InvalidOrCorruptedFile in
    do? check (negb (length (slide_layouts prs) =? 0)%nat) 400 NoSlideLayouts in
    let? slide_layout :=
      required (find_layout_by_type (slide_layouts prs) layout_type) 400 NoSuitableLayout in
    let total_slides := Z.of_nat (length (sldIdLst prs)) in
    let position :=
      if position <? 0 then 0
      else if position >? total_slides then total_slides else position in
    let? created := required (slides_add_slide slide_layout) 400 ValueErrorMessage in
    let new_id := next_id (sldIdLst prs) in
    let xml_slides := sldIdLst prs ++ [new_id] in
    let '(xml_slides, _) := move_slide injected position total_slides xml_slides in
    let new_slide :=
      compose (F:=float) layout_type title text text2 image created in
    let base_name :=
      match rsplit1 "." (filename file) with
      | Some (base, _) => base
      | None => filename file
      end in
    inr (SendFile
           {| slide_layouts := slide_layouts prs;
              slide_parts := <[new_id := new_slide]> (slide_parts prs);
              sldIdLst := xml_slides |}
           (base_name +:+ "_updated.pptx"))
  in
  match served with
  | inl r => r
  | inr r => r
  end.

(** *** Notions used to state the properties *)

(** The injected fault strikes one of the [appends] calls of
    [xml_slides.append], that is, after [xml_slides.clear()] has emptied the
    list. *)
Definition strikes_rebuild (injected : option fault) (appends : nat) : Prop :=
  exists f, injected = Some f /\ (3 <= fault_at f < 3 + appends)%nat.

(** Two responses with the same composition: the same error, or files with
    the same layouts, the same slide parts (the new slide among them) and the
    same name. *)
Definition same_composition (r r0 : response) : Prop :=
  match r, r0 with
  | Error status message, Error status0 message0 => status = status0 /\ message = message0
  | SendFile out download_name, SendFile out0 download_name0 =>
      slide_layouts out = slide_layouts out0 /\
      slide_parts out = slide_parts out0 /\
      download_name = download_name0
  | _, _ => False
  end.

(** Two responses that differ at most in the order of the slides: the same
    composition, and for files the same slides in the ordering, each as often
    as in the other. *)
Definition same_but_order (r r0 : response) : Prop :=
  same_composition r r0 /\
  match r, r0 with
  | SendFile out _, SendFile out0 _ => sldIdLst out ≡ₚ sldIdLst out0
  | _, _ => True
  end.

(** No call of [xml_slides.append] raises: appending an element to the lxml
    list does not fail. *)
Definition appends_return (injected : option fault) : Prop :=
  forall appends, ~ strikes_rebuild injected appends.

(** The text boxes of a shape tree, and the number of its content
    placeholders. *)
Definition is_text_box (sh : shape) : bool :=
  match sh with TextBox _ _ _ _ _ => true | _ => false end.

Definition is_content_shape (sh : shape) : bool :=
  match sh with Placeholder p => is_content p | _ => false end.

Definition text_boxes (shs : list shape) : list shape := List.filter is_text_box shs.

Definition content_count (shs : list shape) : nat :=
  length (List.filter is_content_shape shs).

(** Example data. *)
Definition two_layouts : list layout := [title_and_content; with_picture].

Definition three_slides : presentation :=
  {| slide_layouts := two_layouts;
     slide_parts := {[ 256%nat := new_slide_from title_and_content;
                       257%nat := new_slide_from title_and_content;
                       258%nat := new_slide_from with_picture ]};
     sldIdLst := [256; 257; 258]%nat |}.

Definition deck : pptx_file :=
  {| filename := "deck.pptx"; file_size := 20000; content := Some three_slides |}.

(** A picture seven units wide for five high. *)
Definition wide : image_file :=
  {| image_filename := "wide.png"; image_size := 1000;
     image_width_at := Some (fun height => height * 7 / 5);
     image_height_at := fun width => width * 5 / 7;
     image_native_size := (17780000, 12700000) |}.

Definition review_request : request :=
  {| files_file := Some deck;
     form_layout := "title_content";
     form_title := "Q3 Review";
     form_text := "Revenue up 12%";
     form_text2 := "";
     form_position := Some 1;
     files_image := None |}.

End SlideComposer.

(** ** The mass-update tool ([config_loader], [ppt_processor]) *)

Module MassUpdate.
Import PyStr PyDict.

(** *** [load_replacements] *)

Definition CR : ascii := ascii_of_nat 13.
Definition LF : ascii := ascii_of_nat 10.

(** [text.replace('\r\n', '\n').replace('\r', '\n')] *)
Fixpoint normalize_newlines (text : string) : string :=
  match text with
  | EmptyString => EmptyString
  | String c rest =>
      if Ascii.eqb c CR then
        match rest with
        | String c' rest' =>
            if Ascii.eqb c' LF then String LF (normalize_newlines rest')
            else String LF (normalize_newlines rest)
        | EmptyString => String LF EmptyString
        end
      else String c (normalize_newlines rest)
  end.

(** [text.split('\n')] *)
Fixpoint split_lines (text : string) : list string :=
  match text with
  | EmptyString => [EmptyString]
  | String c rest =>
      if Ascii.eqb c LF then EmptyString :: split_lines rest
      else match split_lines rest with
           | l :: ls => String c l :: ls
           | [] => [String c EmptyString]
           end
  end.

(** What the loop body makes of one raw line. *)
Inductive line_kind :=
| Comment
| Blank
| Malformed
| Entry (key val : string).

Definition parse_line (raw : string) : line_kind :=
  (* re.match(r'^\s*#', raw) *)
  if String.prefix "#" (lstrip raw) then Comment
  else
    let line := strip raw in
    if is_empty line then Blank
    else if negb (str_in "=" line) then Malformed
    else match split1 "=" line with
         | Some (old, new) =>
             let key := strip old in
             let val := strip new in
             if is_empty key then Malformed else Entry key val
         | None => Malformed
         end.

(** The state of the loop over the lines. *)
Record loader := {
  replacements : list (string * string);
  malformed : list (nat * string);
  duplicates : list (nat * string)
}.

(** One turn of the loop, on line number [idx]. Every item appended to
    [duplicates] comes with a printed warning. *)
Definition load_line (st : loader) (idx : nat) (raw : string) : loader :=
  match parse_line raw with
  | Comment | Blank => st
  | Malformed =>
      {| replacements := replacements st;
         malformed := malformed st ++ [(idx, raw)];
         duplicates := duplicates st |}
  | Entry key val =>
      let warn :=
        match dict_get (replacements st) key with
        | Some v => negb (String.eqb v val)
        | None => false
        end in
      {| replacements := dict_set key val (replacements st);
         malformed := malformed st;
         duplicates := if warn then duplicates st ++ [(idx, key)] else duplicates st |}
  end.

(** [for idx, raw in enumerate(lines, start=idx)] *)
Fixpoint load_lines (st : loader) (idx : nat) (lines : list string) : loader :=
  match lines with
  | [] => st
  | raw :: rest => load_lines (load_line st idx raw) (S idx) rest
  end.

(** The inverse pairs of a mapping, in the order of its items. *)
Definition inverse_pairs (d : list (string * string)) : list (string * string) :=
  filter (fun '(a, b) => dict_get d b = Some a) d.

Inductive load_outcome :=
| Returns (replacements : list (string * string))
| RaisesValueError (inverses : list (string * string)).

(** What a call leaves behind: the duplicate warnings it printed, the
    malformed lines it reported, and its outcome. *)
Record load_report := {
  warned : list (nat * string);
  reported : list (nat * string);
  outcome : load_outcome
}.

Definition initial : loader := {| replacements := []; malformed := []; duplicates := [] |}.

Definition lines_of (text : string) : list string := split_lines (normalize_newlines text).

(** [load_replacements], on the text read from the file. *)
Definition load_replacements (text : string) : load_report :=
  let st := load_lines initial 1 (lines_of text) in
  let inverses := inverse_pairs (replacements st) in
  {| warned := duplicates st;
     reported := malformed st;
     outcome := match inverses with
                | [] => Returns (replacements st)
                | _ :: _ => RaisesValueError inverses
                end |}.

(** *** [update_ppt_text] *)

(** **** [pattern.sub(new, text)]

    [pattern] is [re.compile(re.escape(old))]: it matches [old] as it stands
    and has no group besides the whole match. [new] is a template: a
    backslash in it begins an escape, and a template that [re] cannot read
    makes [pattern.sub] raise, whether [old] occurs in the text or not.
    What follows is the template parser of CPython's [re] for such a
    pattern. *)

Inductive token :=
| Char (c : ascii)
| Escape (c : ascii).

Definition backslash : ascii := ascii_of_nat 92.

(** The tokenizer: a backslash and the character after it make one token; a
    backslash at the end raises. *)
Fixpoint tokens (template : string) : option (list token) :=
  match template with
  | EmptyString => Some []
  | String c rest =>
      if Ascii.eqb c backslash then
        match rest with
        | EmptyString => None
        | String c' rest' => cons (Escape c') <$> tokens rest'
        end
      else cons (Char c) <$> tokens rest
  end.

Definition is_digit (c : ascii) : bool :=
  let n := nat_of_ascii c in (48 <=? n) && (n <=? 57).

Definition is_octal (c : ascii) : bool :=
  let n := nat_of_ascii c in (48 <=? n) && (n <=? 55).

Definition digit (c : ascii) : nat := nat_of_ascii c - 48.

Definition is_ascii_letter (c : ascii) : bool :=
  let n := nat_of_ascii c in
  ((65 <=? n) && (n <=? 90)) || ((97 <=? n) && (n <=? 122)).

(** [ESCAPES]: the escapes that stand for one character. *)
Definition escape (c : ascii) : option ascii :=
  if Ascii.eqb c "a" then Some (ascii_of_nat 7)
  else if Ascii.eqb c "b" then Some (ascii_of_nat 8)
  else if Ascii.eqb c "f" then Some (ascii_of_nat 12)
  else if Ascii.eqb c "n" then Some (ascii_of_nat 10)
  else if Ascii.eqb c "r" then Some (ascii_of_nat 13)
  else if Ascii.eqb c "t" then Some (ascii_of_nat 9)
  else if Ascii.eqb c "v" then Some (ascii_of_nat 11)
  else if Ascii.eqb c backslash then Some backslash
  else None.

(** The name of [\g<name>] stands for group 0, the whole match; any other
    name raises, as the pattern has no other group. From CPython 3.12 on the
    name has to be made of the digit 0; up to 3.11 it is read by [int()],
    which also takes white space around the number, a sign, and single
    underscores between the digits. *)
Fixpoint all_zeros (name : string) : bool :=
  match name with
  | EmptyString => true
  | String c rest => Ascii.eqb c "0" && all_zeros rest
  end.

Fixpoint zeros_with_underscores (after_digit : bool) (name : string) : bool :=
  match name with
  | EmptyString => after_digit
  | String c rest =>
      if Ascii.eqb c "0" then zeros_with_underscores true rest
      else if Ascii.eqb c "_" then after_digit && zeros_with_underscores false rest
      else false
  end.

(** The white space that [int()] skips, on the code points 0..255. *)
Definition is_int_space (c : ascii) : bool :=
  let n := nat_of_ascii c in
  ((9 <=? n) && (n <=? 13)) || (n =? 32) || (n =? 133) || (n =? 160).

Fixpoint int_lstrip (s : string) : string :=
  match s with
  | EmptyString => EmptyString
  | String c s' => if is_int_space c then int_lstrip s' else s
  end.

Fixpoint int_rstrip (s : string) : string :=
  match s with
  | EmptyString => EmptyString
  | String c s' =>
      let r := int_rstrip s' in
      if is_int_space c && is_empty r then EmptyString else String c r
  end.

Definition drop_sign (s : string) : string :=
  match s with
  | EmptyString => EmptyString
  | String c s' => if Ascii.eqb c "+" || Ascii.eqb c "-" then s' else s
  end.

(** **** [run.text = value]

    The setter of a run stores the value in the [a:t] element of the run
    after [_escape]: the tab and the line feed are kept, any other character
    below the space is written out as [_xHHHH_], its code in four hexadecimal
    digits. Reading [run.text] gives the stored text back as it is. *)
Definition is_control (c : ascii) : bool :=
  let n := nat_of_ascii c in (n <=? 8) || ((11 <=? n) && (n <=? 31)).

Definition hex_digit (n : nat) : ascii :=
  if n <? 10 then ascii_of_nat (48 + n) else ascii_of_nat (55 + n).

Fixpoint _escape (s : string) : string :=
  match s with
  | EmptyString => EmptyString
  | String c rest =>
      if is_control c then
        let n := nat_of_ascii c in
        "_x00" +:+ String (hex_digit (n / 16))
                     (String (hex_digit (n mod 16)) (String "_" (_escape rest)))
      else String c (_escape rest)
  end.

Section Regex.
(** [ascii_group_numbers]: CPython 3.12 or later. *)
Variable ascii_group_numbers : bool.

Definition names_group_zero (name : string) : bool :=
  if ascii_group_numbers then negb (is_empty name) && all_zeros name
  else zeros_with_underscores false (drop_sign (int_lstrip (int_rstrip name))).

(** A parsed template: literal text and references to the whole match. *)
Inductive piece :=
| Text (s : string)
| Match.

Definition chr (n : nat) : string := String (ascii_of_nat n) EmptyString.

(** [parse_template]; [name] holds the characters read so far of the name
    of a [\g<name>] that is open. [None] stands for the exception raised. *)
Fixpoint parse (name : option string) (ts : list token) : option (list piece) :=
  match name with
  | Some name =>
      match ts with
      | [] => None
      | Char c :: rest =>
          if Ascii.eqb c ">" then
            if names_group_zero name then cons Match <$> parse None rest else None
          else parse (Some (name +:+ String c EmptyString)) rest
      | Escape c :: rest =>
          parse (Some (name +:+ String backslash (String c EmptyString))) rest
      end
  | None =>
      match ts with
      | [] => Some []
      | Char c :: rest => cons (Text (String c EmptyString)) <$> parse None rest
      | Escape c :: rest =>
          if Ascii.eqb c "g" then
            match rest with
            | Char c' :: rest' => if Ascii.eqb c' "<" then parse (Some EmptyString) rest' else None
            | _ => None
            end
          else if Ascii.eqb c "0" then
            (* an octal escape of up to three digits *)
            match rest with
            | Char d1 :: rest1 =>
                if is_octal d1 then
                  match rest1 with
                  | Char d2 :: rest2 =>
                      if is_octal d2
                      then cons (Text (chr (8 * digit d1 + digit d2))) <$> parse None rest2
                      else cons (Text (chr (digit d1))) <$> parse None rest1
                  | _ => cons (Text (chr (digit d1))) <$> parse None rest1
                  end
                else cons (Text (chr 0)) <$> parse None rest
            | _ => cons (Text (chr 0)) <$> parse None rest
            end
          else if is_digit c then
            (* three octal digits are a character; anything else is a
               reference to a group that the pattern does not have *)
            match rest with
            | Char d2 :: Char d3 :: rest3 =>
                if is_octal c && is_octal d2 && is_octal d3 then
                  let code := (64 * digit c + 8 * digit d2 + digit d3)%nat in
                  if (code <=? 255)%nat then cons (Text (chr code)) <$> parse None rest3
                  else None
                else None
            | _ => None
            end
          else
            match escape c with
            | Some e => cons (Text (String e EmptyString)) <$> parse None rest
            | None =>
                if is_ascii_letter c then None
                else cons (Text (String backslash (String c EmptyString))) <$> parse None rest
            end
      end
  end.

(** The text that replaces a match of [old]. *)
Definition expand (new old : string) : option string :=
  match tokens new with
  | None => None
  | Some ts =>
      match parse None ts with
      | None => None
      | Some pieces =>
          Some (foldr (fun p acc => match p with
                                    | Text s => s +:+ acc
                                    | Match => old +:+ acc
                                    end) EmptyString pieces)
      end
  end.

(** The scan of [pattern.sub]: every occurrence of [old], leftmost first and
    not overlapping, is replaced; [skip] characters of a match remain to be
    passed over. The empty [old] matches before every character and at the
    end. *)
Fixpoint sub_from (old replacement : string) (skip : nat) (s : string) : string :=
  match s with
  | EmptyString => if is_empty old then replacement else EmptyString
  | String c s' =>
      match skip with
      | S k => sub_from old replacement k s'
      | O =>
          if String.prefix old s then
            if is_empty old then String.append replacement (String c (sub_from old replacement 0 s'))
            else String.append replacement (sub_from old replacement (String.length old - 1) s')
          else String c (sub_from old replacement 0 s')
      end
  end.

(** [re.compile(re.escape(old)).sub(new, s)], [None] when it raises. *)
Definition sub (old new s : string) : option string :=
  match expand new old with
  | None => None
  | Some replacement => Some (sub_from old replacement 0 s)
  end.

(** A run: its text and its character formatting. *)
Record run := {
  run_text : string;
  run_font : nat
}.

(** [run.text = text] *)
Definition set_run_text (text : string) (r : run) : run :=
  {| run_text := _escape text; run_font := run_font r |}.

(** ["".join(run.text for run in paragraph.runs)] *)
Definition joined (runs : list run) : string :=
  foldr (fun r acc => String.append (run_text r) acc) EmptyString runs.

(** [for pattern, new in patterns: new_text = pattern.sub(new, new_text)],
    [None] when one of the calls raises. *)
Fixpoint replace_all (replacements : list (string * string)) (text : string)
  : option string :=
  match replacements with
  | [] => Some text
  | (old, new) :: rest =>
      match sub old new text with
      | None => None
      | Some new_text => replace_all rest new_text
      end
  end.

(** [any(k in original_text for k in keys)] *)
Definition any_key_in (replacements : list (string * string)) (text : string) : bool :=
  existsb (fun '(k, _) => str_in k text) replacements.

(** [process_paragraph], on the runs of the paragraph and the flag [updated]
    of the enclosing call: the runs as it leaves them and the flag, [None]
    when it raises. *)
Definition process_paragraph (replacements : list (string * string))
  (runs : list run) (updated : bool) : list run * option bool :=
  match runs with
  | [] => (runs, Some updated)
  | first :: others =>
      let original_text := joined runs in
      if negb (any_key_in replacements original_text) then (runs, Some updated)
      else
        match replace_all replacements original_text with
        | None => (runs, None)
        | Some new_text =>
            if negb (String.eqb new_text original_text)
            then (set_run_text new_text first :: (set_run_text "" <$> others), Some true)
            else (runs, Some updated)
        end
  end.

(** The text-bearing part of a presentation. A shape may have a text frame,
    which is the list of its paragraphs, a paragraph being the list of its
    runs. [getattr(shape, "table", None)] is [None] for a shape without that
    attribute, raises [ValueError] for a graphic frame that holds no table
    (a chart), and else gives the table, whose cells have text frames. *)
Record cell := { cell_text_frame : option (list (list run)) }.

Inductive table_attribute :=
| NoTableAttribute
| TableRaises
| HasTable (rows : list (list cell)).

Record shape := {
  text_frame : option (list (list run));
  table : table_attribute
}.

Definition slide : Type := list shape.
Definition presentation : Type := list slide.

(** A loop over a list that threads the flag [updated]; an exception leaves
    the loop, and the rest of the list as it is. *)
Fixpoint for_each {A} (body : A -> bool -> A * option bool) (xs : list A) (updated : bool)
  : list A * option bool :=
  match xs with
  | [] => ([], Some updated)
  | x :: xs' =>
      match body x updated with
      | (x', Some updated) =>
          let '(xs'', result) := for_each body xs' updated in (x' :: xs'', result)
      | (x', None) => (x' :: xs', None)
      end
  end.

Definition for_some {A} (body : A -> bool -> A * option bool) (o : option A) (updated : bool)
  : option A * option bool :=
  match o with
  | Some x => let '(x', result) := body x updated in (Some x', result)
  | None => (None, Some updated)
  end.

Definition process_frame (replacements : list (string * string))
  : list (list run) -> bool -> list (list run) * option bool :=
  for_each (process_paragraph replacements).

Definition process_cell (replacements : list (string * string)) (c : cell) (updated : bool)
  : cell * option bool :=
  let '(tf, result) := for_some (process_frame replacements) (cell_text_frame c) updated in
  ({| cell_text_frame := tf |}, result).

Definition process_shape (replacements : list (string * string)) (sh : shape) (updated : bool)
  : shape * option bool :=
  match for_some (process_frame replacements) (text_frame sh) updated with
  | (tf, None) => ({| text_frame := tf; table := table sh |}, None)
  | (tf, Some updated) =>
      match table sh with
      | NoTableAttribute => ({| text_frame := tf; table := NoTableAttribute |}, Some updated)
      | TableRaises => ({| text_frame := tf; table := TableRaises |}, None)
      | HasTable rows =>
          let '(rows, result) :=
            for_each (for_each (process_cell replacements)) rows updated in
          ({| text_frame := tf; table := HasTable rows |}, result)
      end
  end.

(** [update_ppt_text], on the loaded presentation: the presentation object
    as the loops leave it, and the value returned, [None] when the call
    raises. The file is saved when that value is [True]; it is as it was
    when the value is [False] or the call raises. *)
Definition update_ppt_text (prs : presentation) (replacements : list (string * string))
  : presentation * option bool :=
  for_each (for_each (process_shape replacements)) prs false.

End Regex.

(** *** Notions used to state the properties *)

(** The paragraphs the loops of [update_ppt_text] visit, in the order of the
    visit. *)
Definition cell_paragraphs (c : cell) : list (list run) :=
  default [] (cell_text_frame c).

Definition shape_paragraphs (sh : shape) : list (list run) :=
  default [] (text_frame sh) ++
  match table sh with
  | HasTable rows => concat (concat (fmap (M:=list) (fmap (M:=list) cell_paragraphs) rows))
  | _ => []
  end.

Definition paragraphs_of (prs : presentation) : list (list run) :=
  concat (concat (fmap (M:=list) (fmap (M:=list) shape_paragraphs) prs)).

(** The mapping after the loop over the given lines. *)
Definition mapping_after (lines : list string) : list (string * string) :=
  replacements (load_lines initial 1 lines).

(** Every line that sets a key already set by an earlier line is warned
    about. *)
Definition warns_each_duplicate (text : string) : Prop :=
  forall pre raw post key val,
    lines_of text = pre ++ raw :: post ->
    parse_line raw = Entry key val ->
    is_Some (dict_get (mapping_after pre) key) ->
    (S (length pre), key) ∈ warned (load_replacements text).

(** The texts and the formatting of the runs of a paragraph. *)
Definition texts (runs : list run) : list string := run_text <$> runs.
Definition fonts (runs : list run) : list nat := run_font <$> runs.

(** The text has a character that a run does not store as it is. *)
Fixpoint has_control (s : string) : bool :=
  match s with
  | EmptyString => false
  | String c rest => is_control c || has_control rest
  end.

(** What [process_paragraph] is to have done with the runs [before] of a
    paragraph it has gone through, [after] being the runs it leaves: the runs
    keep their number and their formatting; a paragraph whose text has no key
    in it is as it was; and when applying the patterns gives a text, a text
    that differs is in the first run, the other runs being empty, and a text
    that does not differ leaves the paragraph as it was. The first run holds
    the text as a run stores it: the text itself, unless it has control
    characters, which are written out. *)
Definition paragraph_processed (ascii_group_numbers : bool)
  (replacements : list (string * string)) (before after : list run) : Prop :=
  length after = length before /\
  fonts after = fonts before /\
  (any_key_in replacements (joined before) = false -> after = before) /\
  (forall new_text,
     replace_all ascii_group_numbers replacements (joined before) = Some new_text ->
     (new_text = joined before -> after = before) /\
     (new_text <> joined before ->
      match before with
      | [] => after = []
      | _ :: others =>
          texts after = _escape new_text :: ((fun _ => EmptyString) <$> others) /\
          (has_control new_text = false ->
           texts after = new_text :: ((fun _ => EmptyString) <$> others))
      end)) /\
  (before <> [] -> any_key_in replacements (joined before) = true ->
   is_Some (replace_all ascii_group_numbers replacements (joined before))).

(** The first paragraphs of [before], as many as were gone through, are in
    [after] as [R] has them; the others are as they were. *)
Definition processed_until {X} (R : X -> X -> Prop) (before after : list X) : Prop :=
  exists n, Forall2 R (take n before) (take n after) /\ drop n after = drop n before.

(** Example data. *)
Definition repeated_line : string := "k=v" +:+ String LF "k=v".
Definition swapped_pair : string := "old=new" +:+ String LF "new=old".

Definition hello_world : list run :=
  [ {| run_text := "Hello "; run_font := 1 |}; {| run_text := "World"; run_font := 2 |} ].

Definition one_slide : presentation :=
  [ [ {| text_frame := Some [hello_world]; table := NoTableAttribute |};
      {| text_frame := None;
         table := HasTable [ [ {| cell_text_frame :=
                                    Some [ [ {| run_text := "Foo"; run_font := 3 |};
                                             {| run_text := "Bar"; run_font := 4 |} ] ] |} ] ] |} ] ].

(** A deck with a chart after its first shape. *)
Definition with_chart : presentation :=
  [ [ {| text_frame := Some [hello_world]; table := NoTableAttribute |};
      {| text_frame := None; table := TableRaises |};
      {| text_frame := Some [hello_world]; table := NoTableAttribute |} ] ].

(** An inverse pair: two keys, each mapped to the other. *)
Definition has_inverse_pair (d : list (string * string)) : Prop :=
  exists a b, dict_get d a = Some b /\ dict_get d b = Some a.

End MassUpdate.

(** ** Further notions, for the properties beyond the layout choice *)

Module MatcherNotions.
Import PyStr PyDict Pptx LayoutMatcher.

(** Kinds of slots, as the scans of [find_layout_by_type] tell them apart. *)
Definition is_title_slot (p : placeholder) : bool :=
  match ph_type p with Some TITLE => true | _ => false end.

Definition is_body_slot (p : placeholder) : bool :=
  match ph_type p with Some BODY | Some OBJECT => true | _ => false end.

Definition is_picture_slot (p : placeholder) : bool :=
  match ph_type p with Some PICTURE => true | _ => false end.

(** The layout has a title slot and a body-like slot. *)
Definition has_title_and_body (l : layout) : bool :=
  existsb is_title_slot (placeholders l) && existsb is_body_slot (placeholders l).

(** The keyword score of a layout for a layout type. *)
Definition layout_keyword_score (cfg : layout_config) (l : layout) : Z :=
  keyword_score (keywords cfg) (lower (name l)).

(** A slot whose kind cannot be read, read as [OTHER]. *)
Definition as_other (p : placeholder) : placeholder :=
  {| ph_type := Some (default OTHER (ph_type p)); ph_idx := ph_idx p;
     ph_left := ph_left p; ph_top := ph_top p; ph_width := ph_width p;
     ph_height := ph_height p; ph_frame := ph_frame p |}.

Definition tolerant (l : layout) : layout :=
  {| name := name l; placeholders := as_other <$> placeholders l |}.

(** Example layouts. *)
Definition picture_with_caption : layout :=
  {| name := "Picture with Caption"; placeholders := [slot TITLE; slot PICTURE; slot BODY] |}.
Definition big_picture : layout :=
  {| name := "Big Picture"; placeholders := [slot TITLE; slot PICTURE] |}.
Definition thank_you : layout :=
  {| name := "Thank You"; placeholders := [slot TITLE] |}.
Definition section_divider : layout :=
  {| name := "Section Divider"; placeholders := [slot TITLE; slot OBJECT] |}.

End MatcherNotions.

Module ComposerNotions.
Import PyStr PyDict PyFloat Pptx LayoutMatcher SlideComposer.
Open Scope Z_scope.

Definition is_picture_placeholder (sh : shape) : bool :=
  match sh with
  | Placeholder p => match ph_type p with Some PICTURE => true | _ => false end
  | _ => false
  end.

(** A content placeholder that has a text frame. *)
Definition is_writable_content (sh : shape) : bool :=
  match sh with
  | Placeholder p => is_content p && truthy (ph_frame p)
  | _ => false
  end.

Definition is_title_placeholder (sh : shape) : bool :=
  match sh with
  | Placeholder p => (ph_idx p =? 0)%nat
  | _ => false
  end.

(** The order in which [slide.placeholders] yields two placeholders, each
    given with its place in the shape tree: by [idx], and by place among
    placeholders of the same [idx]. *)
Definition comes_before (x y : nat * placeholder) : Prop :=
  (ph_idx x.2 < ph_idx y.2)%nat \/ (ph_idx x.2 = ph_idx y.2 /\ (x.1 < y.1)%nat).

Fixpoint in_order (phs : list (nat * placeholder)) : Prop :=
  match phs with
  | [] => True
  | x :: rest => (forall y, y ∈ rest -> comes_before x y) /\ in_order rest
  end.

(** The text frame that the single-content branch leaves in a placeholder,
    and the one of its text box. *)
Definition filled_frame (text : string) : text_frame :=
  {| tf_text := text; tf_alignment := Some LEFT; tf_level := 0;
     tf_margin_left := Some (Inches 0.1); tf_margin_top := Some (Inches 0.1);
     tf_word_wrap := Some true |}.

Definition fallback_text_box (text : string) : shape :=
  TextBox (Inches 0.5) (Inches 1.8) (Inches 9) (Inches 5)
    {| tf_text := text; tf_alignment := Some LEFT; tf_level := 0;
       tf_margin_left := Some (Inches 0); tf_margin_top := Some (Inches 0);
       tf_word_wrap := Some true |}.

Definition retitled (title : string) (tf : text_frame) : text_frame :=
  {| tf_text := title; tf_alignment := tf_alignment tf; tf_level := tf_level tf;
     tf_margin_left := tf_margin_left tf; tf_margin_top := tf_margin_top tf;
     tf_word_wrap := tf_word_wrap tf |}.

(** The response is the error for a layout that could not be found. *)
Definition lacks_layout (r : response) : bool :=
  match r with
  | Error _ NoSuitableLayout => true
  | _ => false
  end.

(** The conditions on a request that [add_slide] checks before it builds
    the slide. *)
Definition acceptable (req : request) : Prop :=
  exists file cfg position prs,
    files_file req = Some file /\
    endswith (filename file) ".pptx" = true /\
    file_size file <= MAX_FILE_SIZE /\
    dict_get PREDEFINED_LAYOUTS (strip (form_layout req)) = Some cfg /\
    ((0 < content_boxes cfg)%nat -> strip (form_text req) <> "") /\
    (content_boxes cfg = 2%nat -> strip (form_text2 req) <> "") /\
    (forall img, supplied (files_image req) = Some img ->
       validate_image_format (image_filename img) = true /\
       image_size img <= MAX_IMAGE_SIZE) /\
    form_position req = Some position /\ 0 <= position /\
    content file = Some prs /\
    slide_layouts prs <> [].

(** Example data. *)
Definition framed_picture : placeholder :=
  {| ph_type := Some PICTURE; ph_idx := 13; ph_left := 5000000; ph_top := 1200000;
     ph_width := 3600000; ph_height := 2700000; ph_frame := None |}.

Definition picture_slide : slide :=
  {| shapes := [Placeholder (slot TITLE); Placeholder framed_picture; Placeholder (slot BODY)];
     background := None |}.

(** A slide whose placeholders are not in the order of their [idx]: the
    title, a body with [idx] 5, a text box, a body with [idx] 2, and two
    picture placeholders with [idx] 13 and 14, the second one first. *)
Definition high_body : placeholder :=
  {| ph_type := Some BODY; ph_idx := 5; ph_left := 0; ph_top := 0; ph_width := 0;
     ph_height := 0; ph_frame := Some empty_frame |}.

Definition low_body : placeholder :=
  {| ph_type := Some BODY; ph_idx := 2; ph_left := 0; ph_top := 0; ph_width := 0;
     ph_height := 0; ph_frame := Some empty_frame |}.

Definition late_picture : placeholder :=
  {| ph_type := Some PICTURE; ph_idx := 14; ph_left := 100; ph_top := 100; ph_width := 14;
     ph_height := 14; ph_frame := None |}.

Definition shuffled_slide : slide :=
  {| shapes := [Placeholder (slot TITLE); Placeholder high_body;
                TextBox 0 0 10 10 empty_frame; Placeholder low_body;
                Placeholder late_picture; Placeholder framed_picture];
     background := None |}.

Definition unreadable_image : image_file :=
  {| image_filename := "broken.png"; image_size := 10; image_width_at := None;
     image_height_at := fun _ => 0; image_native_size := (0, 0) |}.


End ComposerNotions.

Module UpdateNotions.
Import PyStr PyDict MassUpdate.

(** What the loop of [load_replacements] makes of a raw line. *)
Definition is_entry (raw : string) : bool :=
  match parse_line raw with Entry _ _ => true | _ => false end.

Definition is_malformed (raw : string) : bool :=
  match parse_line raw with Malformed => true | _ => false end.

(** [list(enumerate(lines, start=idx))] *)
Fixpoint enumerate (idx : nat) (lines : list string) : list (nat * string) :=
  match lines with
  | [] => []
  | raw :: rest => (idx, raw) :: enumerate (S idx) rest
  end.

(** [sep.join(lines)] *)
Fixpoint join (sep : string) (lines : list string) : string :=
  match lines with
  | [] => EmptyString
  | [line] => line
  | line :: rest => line +:+ sep +:+ join sep rest
  end.

(** The line has a carriage return or a line feed in it. *)
Definition has_break (line : string) : bool :=
  str_in (String CR EmptyString) line || str_in (String LF EmptyString) line.

(** The replacements change the text of the paragraph. *)
Definition alters (ascii_group_numbers : bool) (replacements : list (string * string))
  (runs : list run) : bool :=
  match runs with
  | [] => false
  | _ :: _ =>
      match replace_all ascii_group_numbers replacements (joined runs) with
      | Some new_text => negb (String.eqb new_text (joined runs))
      | None => false
      end
  end.

(** The text a paragraph is to have after an update that returns: the text
    it had, or the text that the patterns make of it, as a run stores it. A
    paragraph without runs is not looked at. *)
Definition expected_text (ascii_group_numbers : bool)
  (replacements : list (string * string)) (runs : list run) : string :=
  match runs with
  | [] => EmptyString
  | _ :: _ =>
      match replace_all ascii_group_numbers replacements (joined runs) with
      | Some new_text =>
          if String.eqb new_text (joined runs) then joined runs else _escape new_text
      | None => joined runs
      end
  end.

(** No paragraph of the presentation gets a text with control characters. *)
Definition plain_results (ascii_group_numbers : bool)
  (replacements : list (string * string)) (paragraphs : list (list run)) : Prop :=
  forall runs new_text,
    runs ∈ paragraphs ->
    replace_all ascii_group_numbers replacements (joined runs) = Some new_text ->
    has_control new_text = false.

(** The paragraphs gone through are as [R] has them, up to where the loop
    was left. *)
Inductive upto {X : Type} (R : X -> X -> Prop) : list X -> list X -> Prop :=
| upto_stop l : upto R l l
| upto_step x x' l l' : R x x' -> upto R l l' -> upto R (x :: l) (x' :: l').

(** What a loop body does with the paragraphs [P a] it visits: when it
    returns, all of them are as [R] has them and the flag is the flag it was
    given, or [true] when [h] holds of one of them; when it raises, they are
    as [R] has them up to some point. *)
Definition visits {A X : Type} (body : A -> bool -> A * option bool) (P : A -> list X)
  (R : X -> X -> Prop) (h : X -> bool) : Prop :=
  forall a updated,
    match body a updated with
    | (a', Some updated') =>
        Forall2 R (P a) (P a') /\ updated' = updated || existsb h (P a)
    | (a', None) => upto R (P a) (P a')
    end.

(** A body that returns leaves its argument as it is and hands the flag on,
    or sets the flag. *)
Definition honest {A : Type} (body : A -> bool -> A * option bool) : Prop :=
  forall a updated,
    match body a updated with
    | (a', Some updated') => (a' = a /\ updated' = updated) \/ updated' = true
    | (_, None) => True
    end.

(** Example data. *)
Definition three_lines : list string := ["# colours"; "colour = color"; "grey=gray"].

Definition settings : string :=
  "# names" +:+ String LF ("Acme = Apex" +:+ String LF ("nonsense" +:+ String LF "k=a=b")).

End UpdateNotions.

(** * Properties *)

(** ** The layout matcher *)

Section LayoutMatcherProps.
Import PyStr PyDict Pptx LayoutMatcher.
Open Scope Z_scope.
#[local] Arguments any_in : simpl never.
#[local] Arguments excluded : simpl never.

Lemma keyword_loop_best kws layouts bm bs :
  keyword_loop kws layouts bm bs =
  best_loop (fun l => keyword_score kws (lower (name l))) layouts bm bs.
Proof.
  revert bm bs. induction layouts as [|l rest IH]; intros bm bs; simpl; [done|].
  unfold excluded. destruct (any_in exclude_patterns (lower (name l))); [apply IH|].
  destruct (_ >? _); apply IH.
Qed.

Lemma structure_loop_best ty layouts bm bs :
  structure_loop ty layouts bm bs =
  best_loop (fun l => structure_score ty (scan l)) layouts bm bs.
Proof.
  revert bm bs. induction layouts as [|l rest IH]; intros bm bs; simpl; [done|].
  unfold excluded. destruct (any_in exclude_patterns (lower (name l))); [apply IH|].
  destruct (_ >? _); apply IH.
Qed.

Section BestLoop.
Variable score : layout -> Z.

Lemma best_loop_low layouts bm bs :
  (forall z, z ∈ layouts -> excluded z = false -> score z <= bs) ->
  best_loop score layouts bm bs = (bm, bs).
Proof.
  induction layouts as [|l rest IH]; intros Hlow; simpl; [done|].
  destruct (excluded l) eqn:Hex.
  - apply IH. intros z Hz; apply Hlow; by right.
  - assert (score l <= bs) by (apply Hlow; [by left|done]).
    destruct (score l >? bs) eqn:Hgt; [lia|].
    apply IH. intros z Hz; apply Hlow; by right.
Qed.

(** Whatever the loop returns is its starting candidate or a layout of the
    list that is not excluded and beats the starting score. *)
Lemma best_loop_origin layouts bm bs bm' bs' :
  best_loop score layouts bm bs = (bm', bs') ->
  (bm' = bm /\ bs' = bs) \/
  (exists x, x ∈ layouts /\ excluded x = false /\ bm' = Some x /\ bs' = score x /\ score x > bs).
Proof.
  revert bm bs. induction layouts as [|l rest IH]; intros bm bs; simpl.
  - intros [= <- <-]. by left.
  - destruct (excluded l) eqn:Hex.
    + intros H. destruct (IH _ _ H) as [?|(x & Hx & ?)]; [by left|].
      right. exists x. split; [by right|done].
    + destruct (score l >? bs) eqn:Hgt; intros H.
      * destruct (IH _ _ H) as [[-> ->]|(x & Hx & ? & ? & ? & ?)].
        -- right. exists l. repeat split; [by left|done|lia].
        -- right. exists x. repeat split; [by right|done..|lia].
      * destruct (IH _ _ H) as [?|(x & Hx & ?)]; [by left|].
        right. exists x. split; [by right|done].
Qed.

(** When some admissible layout beats the starting score, the loop returns
    the first layout of highest score. *)
Lemma best_loop_first_max layouts : forall bm bs,
  (exists x, x ∈ layouts /\ excluded x = false /\ score x > bs) ->
  exists pre y post,
    layouts = pre ++ y :: post /\ excluded y = false /\ score y > bs /\
    (forall z, z ∈ pre -> excluded z = false -> score z < score y) /\
    (forall z, z ∈ post -> excluded z = false -> score z <= score y) /\
    best_loop score layouts bm bs = (Some y, score y).
Proof.
  induction layouts as [|l rest IH]; intros bm bs (x & Hx & Hxe & Hxs).
  { by apply elem_of_nil in Hx. }
  simpl. destruct (excluded l) eqn:Hex.
  - assert (x ∈ rest) as Hx' by (apply elem_of_cons in Hx as [->|]; [congruence|done]).
    destruct (IH bm bs) as (pre & y & post & -> & ? & ? & Hpre & Hpost & Hres); [by eauto|].
    exists (l :: pre), y, post. repeat split; try done.
    intros z Hz. apply elem_of_cons in Hz as [->|Hz]; [congruence|by apply Hpre].
  - destruct (score l >? bs) eqn:Hgt.
    + destruct (existsb (fun z => negb (excluded z) && (score z >? score l)) rest) eqn:Hbig.
      * apply existsb_exists in Hbig as (z & Hz & Hzz).
        apply andb_true_iff in Hzz as [Hze Hzs]. apply negb_true_iff in Hze.
        destruct (IH (Some l) (score l)) as (pre & y & post & -> & ? & ? & Hpre & Hpost & Hres).
        { exists z. repeat split; [by apply list_elem_of_In|done|lia]. }
        exists (l :: pre), y, post. repeat split; try done; [lia|].
        intros z' Hz'. apply elem_of_cons in Hz' as [->|Hz']; [lia|by apply Hpre].
      * assert (forall z, z ∈ rest -> excluded z = false -> score z <= score l) as Hlow.
        { intros z Hz Hze. destruct (score z >? score l) eqn:Hzs; [|lia].
          assert (existsb (fun z => negb (excluded z) && (score z >? score l)) rest = true);
            [|congruence].
          apply existsb_exists. exists z. split; [by apply list_elem_of_In|].
          by rewrite Hze, Hzs. }
        exists [], l, rest. repeat split; try done; [lia| |by apply best_loop_low].
        intros z Hz. by apply elem_of_nil in Hz.
    + assert (x ∈ rest) as Hx' by (apply elem_of_cons in Hx as [->|]; [lia|done]).
      destruct (IH bm bs) as (pre & y & post & -> & ? & ? & Hpre & Hpost & Hres); [by eauto|].
      exists (l :: pre), y, post. repeat split; try done.
      intros z Hz. apply elem_of_cons in Hz as [->|Hz]; [lia|by apply Hpre].
Qed.

End BestLoop.

Lemma exact_name_loop_none cfg layouts :
  (forall z, z ∈ layouts -> excluded z = false -> exact_name cfg z = false) ->
  exact_name_loop cfg layouts = None.
Proof.
  induction layouts as [|l rest IH]; intros Hno; simpl; [done|].
  fold (excluded l). destruct (excluded l) eqn:Hex.
  - apply IH. intros z Hz; apply Hno; by right.
  - fold (exact_name cfg l). rewrite (Hno l); [|by left|done].
    apply IH. intros z Hz; apply Hno; by right.
Qed.

Lemma exact_name_loop_first cfg pre l post :
  (forall z, z ∈ pre -> excluded z = false -> exact_name cfg z = false) ->
  excluded l = false -> exact_name cfg l = true ->
  exact_name_loop cfg (pre ++ l :: post) = Some l.
Proof.
  induction pre as [|p pre IH]; intros Hpre Hex Hname; simpl.
  - fold (excluded l) (exact_name cfg l). by rewrite Hex, Hname.
  - fold (excluded p) (exact_name cfg p). destruct (excluded p) eqn:Hp.
    + apply IH; [|done..]. intros z Hz; apply Hpre; by right.
    + rewrite (Hpre p); [|by left|done]. apply IH; [|done..].
      intros z Hz; apply Hpre; by right.
Qed.

(** A list with an element satisfying a test splits at the first one. *)
Lemma split_first {A} (P : A -> bool) (l : list A) :
  (exists x, x ∈ l /\ P x = true) ->
  exists pre y post, l = pre ++ y :: post /\ P y = true /\ forall z, z ∈ pre -> P z = false.
Proof.
  induction l as [|a l IH]; intros (x & Hx & HP); [by apply elem_of_nil in Hx|].
  destruct (P a) eqn:Ha.
  - exists [], a, l. repeat split; [done|]. intros z Hz. by apply elem_of_nil in Hz.
  - destruct IH as (pre & y & post & -> & ? & Hpre).
    { exists x. split; [|done]. apply elem_of_cons in Hx as [->|]; [congruence|done]. }
    exists (a :: pre), y, post. repeat split; [done|].
    intros z Hz. apply elem_of_cons in Hz as [->|]; [done|by apply Hpre].
Qed.

Lemma dict_get_keys {V} (d : list (string * V)) key :
  dict_get d key = None <-> key ∉ d.*1.
Proof.
  induction d as [|[k v] d IH]; simpl.
  - split; [intros _ H; by apply elem_of_nil in H|done].
  - destruct (String.eqb k key) eqn:E.
    + apply String.eqb_eq in E. subst k. split; [done|]. intros H. exfalso. apply H. by left.
    + apply String.eqb_neq in E. rewrite IH, not_elem_of_cons. intuition congruence.
Qed.

Lemma catalog_keys ty cfg :
  dict_get PREDEFINED_LAYOUTS ty = Some cfg ->
  ty = "title_content" \/ ty = "title_two_content" \/
  ty = "title_image_content" \/ ty = "title_image".
Proof.
  unfold PREDEFINED_LAYOUTS. cbn [dict_get].
  destruct (String.eqb "title_content" ty) eqn:E1; [apply String.eqb_eq in E1; auto|].
  destruct (String.eqb "title_two_content" ty) eqn:E2; [apply String.eqb_eq in E2; auto|].
  destruct (String.eqb "title_image_content" ty) eqn:E3; [apply String.eqb_eq in E3; auto|].
  destruct (String.eqb "title_image" ty) eqn:E4; [apply String.eqb_eq in E4; auto|].
  done.
Qed.

Lemma scan_placeholder_count l : placeholder_count (scan l) = total_placeholders l.
Proof.
  unfold scan, total_placeholders.
  set (st0 := {| has_title := false; body_count := 0; has_picture := false;
                 placeholder_count := 0 |}).
  assert (forall phs st, placeholder_count (fold_left scan_step phs st)
                         = placeholder_count st + Z.of_nat (length phs)) as H.
  { induction phs as [|p phs IH]; intros st; simpl; [lia|].
    rewrite IH. unfold scan_step. destruct (ph_type p) as [[]|]; simpl; lia. }
  rewrite H. simpl. lia.
Qed.

Lemma structure_score_qualifier ty cfg l :
  dict_get PREDEFINED_LAYOUTS ty = Some cfg ->
  structurally_qualifies ty l = true ->
  structure_score ty (scan l) = top_score ty - total_placeholders l.
Proof.
  intros Hty. rewrite <- scan_placeholder_count.
  unfold structurally_qualifies, structure_score, top_score.
  destruct (catalog_keys _ _ Hty) as [-> | [-> | [-> | ->]]]; cbn -[scan]; by intros ->.
Qed.

Lemma structure_score_other ty cfg l :
  dict_get PREDEFINED_LAYOUTS ty = Some cfg ->
  structurally_qualifies ty l = false ->
  structure_score ty (scan l) <= consolation ty.
Proof.
  intros Hty. pose proof (scan_placeholder_count l) as Hpc.
  assert (0 <= placeholder_count (scan l)) by (unfold total_placeholders in Hpc; lia).
  unfold structurally_qualifies, structure_score, consolation.
  destruct (catalog_keys _ _ Hty) as [-> | [-> | [-> | ->]]]; cbn -[scan]; intros ->;
    try lia.
  destruct (has_title (scan l) && has_picture (scan l)); lia.
Qed.

(** Reaching the third try: the first two produce nothing. *)
Lemma first_two_tiers_silent ty cfg layouts :
  dict_get PREDEFINED_LAYOUTS ty = Some cfg ->
  no_name_or_keyword_match cfg layouts ->
  find_layout_by_type layouts ty =
    let '(best, _) := structure_loop ty layouts None 0 in
    if truthy best then best
    else match fallback_loop layouts with
         | Some l => Some l
         | None => ultimate_fallback layouts
         end.
Proof.
  intros Hty Hno. unfold find_layout_by_type. rewrite Hty.
  rewrite exact_name_loop_none; [|intros z Hz Hze; by apply Hno].
  rewrite keyword_loop_best, best_loop_low; [done|].
  intros z Hz Hze. destruct (Hno z Hz Hze) as [_ Hk]. unfold keyword_hit in Hk. lia.
Qed.

(** C4. For every layout type of the catalog and every list of layouts with
    at least one admissible layout whose lowercase name equals the type's
    display name lowercased, [find_layout_by_type] returns the first such
    layout in iteration order, whatever the later tiers would have chosen. *)
Theorem exact_name_tier_precedence (ty : string) (cfg : layout_config) (layouts : list layout) :
  dict_get PREDEFINED_LAYOUTS ty = Some cfg ->
  (exists l, l ∈ layouts /\ excluded l = false /\ exact_name cfg l = true) ->
  exists pre l post,
    layouts = pre ++ l :: post /\
    excluded l = false /\ exact_name cfg l = true /\
    (forall z, z ∈ pre -> excluded z = false -> exact_name cfg z = false) /\
    find_layout_by_type layouts ty = Some l.
Proof.
  intros Hty (x & Hx & Hxe & Hxn).
  destruct (split_first (fun l => negb (excluded l) && exact_name cfg l) layouts)
    as (pre & l & post & -> & Hl & Hpre).
  { exists x. by rewrite Hxe, Hxn. }
  apply andb_true_iff in Hl as [Hle Hln]. apply negb_true_iff in Hle.
  assert (forall z, z ∈ pre -> excluded z = false -> exact_name cfg z = false) as Hpre'.
  { intros z Hz Hze. specialize (Hpre z Hz). by rewrite Hze in Hpre. }
  exists pre, l, post. repeat split; try done.
  unfold find_layout_by_type. rewrite Hty.
  by rewrite exact_name_loop_first.
Qed.

Lemma exact_name_tier_precedence_witness :
  exists pre l post,
    [mango_cover; with_picture; title_and_content; plain] = pre ++ l :: post /\
    excluded l = false /\
    exact_name {| cfg_name := "Title and Content";
                  keywords := ["title"; "content"; "body"; "text"; "only"];
                  has_image := false; content_boxes := 1; prefer_simple := false |} l = true /\
    (forall z, z ∈ pre -> excluded z = false ->
       exact_name {| cfg_name := "Title and Content";
                     keywords := ["title"; "content"; "body"; "text"; "only"];
                     has_image := false; content_boxes := 1; prefer_simple := false |} z = false) /\
    find_layout_by_type [mango_cover; with_picture; title_and_content; plain] "title_content"
      = Some l.
Proof.
  apply exact_name_tier_precedence; [reflexivity|].
  exists title_and_content. split; [|split; reflexivity].
  do 2 apply list_elem_of_further. apply list_elem_of_here.
Defined.

(** C10. For every list of layouts, empty or not, a layout type that is not
    a key of the catalog makes [find_layout_by_type] return [None]; the
    result does not depend on the list, so no layout is looked at. *)
Theorem unknown_layout_type_returns_none (layouts : list layout) (ty : string) :
  ty ∉ PREDEFINED_LAYOUTS.*1 ->
  find_layout_by_type layouts ty = None.
Proof.
  intros Hty. apply dict_get_keys in Hty.
  unfold find_layout_by_type. by rewrite Hty.
Qed.

Lemma unknown_layout_type_returns_none_witness :
  find_layout_by_type [title_and_content; plain; with_picture] "title_and_chart" = None.
Proof.
  apply unknown_layout_type_returns_none.
  apply dict_get_keys. reflexivity.
Defined.

(** C1. The fallback tier scans all the layouts without the exclusion test:
    for the layout type [title_content], on a template whose only layout
    with a title and a body is the excluded "Mango Cover",
    [find_layout_by_type] returns that excluded layout. *)
Theorem fallback_returns_excluded_layout :
  find_layout_by_type [mango_cover; title_only] "title_content" = Some mango_cover /\
  any_in exclude_patterns (lower (name mango_cover)) = true.
Proof. split; reflexivity. Qed.

(** The first three tiers do apply the exclusion list. *)
Lemma exact_name_loop_admissible cfg layouts l :
  exact_name_loop cfg layouts = Some l -> excluded l = false.
Proof.
  induction layouts as [|x rest IH]; simpl; [done|].
  fold (excluded x). destruct (excluded x) eqn:Hx; [done|].
  destruct (String.eqb _ _); [|done]. by intros [= <-].
Qed.

Lemma best_loop_admissible score layouts l bs :
  best_loop score layouts None 0 = (Some l, bs) -> excluded l = false.
Proof.
  intros H. apply best_loop_origin in H as [[? _]|(x & _ & ? & [= ->] & _)]; done.
Qed.

(** An excluded layout can only come out of the fallback tier. *)
Lemma excluded_only_from_fallback layouts ty l :
  find_layout_by_type layouts ty = Some l -> excluded l = true ->
  fallback_loop layouts = Some l \/
  (fallback_loop layouts = None /\ ultimate_fallback layouts = Some l).
Proof.
  unfold find_layout_by_type. destruct (dict_get PREDEFINED_LAYOUTS ty) as [cfg|]; [|done].
  destruct (exact_name_loop cfg layouts) as [x|] eqn:Hexact.
  { intros [= ->] Hex. apply exact_name_loop_admissible in Hexact. congruence. }
  rewrite keyword_loop_best, structure_loop_best.
  destruct (best_loop (fun l => keyword_score (keywords cfg) (lower (name l))) layouts None 0)
    as [kbest ks] eqn:Hkey.
  destruct (best_loop (fun l => structure_score ty (scan l)) layouts None 0)
    as [sbest ss] eqn:Hstr.
  destruct (truthy kbest && (ks >? 0)) eqn:Hk.
  { intros -> Hex. apply best_loop_admissible in Hkey. congruence. }
  destruct sbest as [t|]; cbn [truthy].
  { intros [= ->] Hex. apply best_loop_admissible in Hstr. congruence. }
  destruct (fallback_loop layouts); intros H _; [by left|by right].
Qed.

(** C2, as stated, fails: a qualifying layout with a hundred placeholders
    scores [100 - 100 = 0], is never selected by the third try, and the
    fallback returns an earlier layout that does not qualify. *)
Lemma structural_tier_counterexample :
  no_name_or_keyword_match
    {| cfg_name := "Title and Content";
       keywords := ["title"; "content"; "body"; "text"; "only"];
       has_image := false; content_boxes := 1; prefer_simple := false |}
    [with_picture; crowded] /\
  (exists q, q ∈ [with_picture; crowded] /\ excluded q = false /\
             structurally_qualifies "title_content" q = true) /\
  find_layout_by_type [with_picture; crowded] "title_content" = Some with_picture /\
  structurally_qualifies "title_content" with_picture = false /\
  ~ returns_simplest_qualifier "title_content" [with_picture; crowded].
Proof.
  assert (find_layout_by_type [with_picture; crowded] "title_content" = Some with_picture)
    as Hres by (vm_compute; reflexivity).
  split; [|split; [|split; [|split]]].
  - intros l Hl _.
    apply elem_of_cons in Hl as [-> | Hl]; [split; reflexivity|].
    apply elem_of_cons in Hl as [-> | Hl]; [split; reflexivity|].
    by apply elem_of_nil in Hl.
  - exists crowded. split; [apply list_elem_of_further, list_elem_of_here|].
    split; vm_compute; reflexivity.
  - exact Hres.
  - reflexivity.
  - intros (pre & l & post & _ & Hl & _ & Hq & _).
    rewrite Hres in Hl. injection Hl as <-. vm_compute in Hq. discriminate.
Qed.

(** C2, amended. For every layout type of the catalog and every list of
    layouts in which no admissible layout matches by exact name or by keyword,
    and in which at least one admissible layout with fewer than 100
    placeholders has the structural composition the type asks for,
    [find_layout_by_type] returns the admissible qualifying layout with the
    fewest placeholders, the first of them in iteration order. *)
Theorem structural_tier_fewest_placeholders
  (ty : string) (cfg : layout_config) (layouts : list layout) :
  dict_get PREDEFINED_LAYOUTS ty = Some cfg ->
  no_name_or_keyword_match cfg layouts ->
  (exists q, q ∈ layouts /\ excluded q = false /\
             structurally_qualifies ty q = true /\ total_placeholders q < 100) ->
  returns_simplest_qualifier ty layouts.
Proof.
  intros Hty Hno (q & Hq & Hqe & Hqq & Hqn).
  pose proof (structure_score_qualifier _ _ _ Hty Hqq) as Hqs.
  assert (consolation ty < top_score ty - 100 + 1) as Hgap.
  { unfold consolation, top_score. destruct (String.eqb ty "title_image"); lia. }
  assert (0 <= consolation ty) as Hcons.
  { unfold consolation. destruct (String.eqb ty "title_image"); lia. }
  destruct (best_loop_first_max (fun l => structure_score ty (scan l)) layouts None 0)
    as (pre & y & post & -> & Hye & Hy0 & Hpre & Hpost & Hres).
  { exists q. repeat split; [done..|]. lia. }
  assert (structure_score ty (scan q) <= structure_score ty (scan y)) as Hqy.
  { apply elem_of_app in Hq as [Hq|Hq]; [specialize (Hpre q Hq Hqe); lia|].
    apply elem_of_cons in Hq as [->|Hq]; [lia|]. by apply Hpost. }
  assert (structurally_qualifies ty y = true) as Hyq.
  { destruct (structurally_qualifies ty y) eqn:E; [done|].
    pose proof (structure_score_other _ _ _ Hty E). lia. }
  pose proof (structure_score_qualifier _ _ _ Hty Hyq) as Hys.
  exists pre, y, post. repeat split; try done.
  - rewrite (first_two_tiers_silent _ _ _ Hty Hno).
    by rewrite structure_loop_best, Hres.
  - intros z Hz Hze Hzq. specialize (Hpre z Hz Hze).
    rewrite (structure_score_qualifier _ _ _ Hty Hzq) in Hpre. lia.
  - intros z Hz Hze Hzq. specialize (Hpost z Hz Hze).
    rewrite (structure_score_qualifier _ _ _ Hty Hzq) in Hpost. lia.
Qed.

Lemma structural_tier_fewest_placeholders_witness :
  returns_simplest_qualifier "title_content" [mango_cover; plain; with_picture; plainer].
Proof.
  apply (structural_tier_fewest_placeholders "title_content"
           {| cfg_name := "Title and Content";
              keywords := ["title"; "content"; "body"; "text"; "only"];
              has_image := false; content_boxes := 1; prefer_simple := false |}).
  - reflexivity.
  - intros l Hl.
    apply elem_of_cons in Hl as [->|Hl]; [intros [=]|].
    apply elem_of_cons in Hl as [->|Hl]; [intros _; split; reflexivity|].
    apply elem_of_cons in Hl as [->|Hl]; [intros _; split; reflexivity|].
    apply elem_of_cons in Hl as [->|Hl]; [intros _; split; reflexivity|].
    by apply elem_of_nil in Hl.
  - exists plain. split; [apply list_elem_of_further, list_elem_of_here|].
    repeat split; reflexivity.
Defined.

End LayoutMatcherProps.

(** ** The add-slide request *)

Section SlideComposerProps.
Import PyStr PyDict PyFloat Pptx LayoutMatcher SlideComposer.
Open Scope Z_scope.

Lemma pop_snoc {A} (l : list A) (x : A) : pop (l ++ [x]) = Some (l, x).
Proof. unfold pop. by rewrite reverse_snoc, reverse_involutive. Qed.

Lemma length_list_insert {A} (i : Z) (x : A) (l : list A) :
  length (list_insert i x l) = S (length l).
Proof.
  unfold list_insert. rewrite length_app. simpl.
  rewrite Nat.add_succ_r, <- length_app, take_drop. done.
Qed.

(** The appends rebuild the list when none of them raises. *)
Lemma for_each_append injected (xs : list nat) : forall (l : list nat) (n : nat),
  (forall k, (n <= k < n + length xs)%nat -> raises_at injected k = None) ->
  for_each xs (fun slide => xml_call injected (fun l => (tt, l ++ [slide]))) (l, n)
  = (inr tt, (l ++ xs, (n + length xs)%nat)).
Proof.
  induction xs as [|x xs IH]; intros l n Hok; simpl.
  - unfold ret. by rewrite app_nil_r, Nat.add_0_r.
  - unfold bind at 1. unfold xml_call at 1.
    rewrite Hok by (simpl; lia).
    rewrite IH.
    + by rewrite <- app_assoc, Nat.add_succ_r.
    + intros k Hk. apply Hok. simpl. lia.
Qed.

(** Without a fault in reach, the step moves the slide. *)
Lemma move_slide_completes injected position total (old : list nat) new_id :
  (forall k, (k < 4 + length old)%nat -> raises_at injected k = None) ->
  position < total ->
  move_slide injected position total (old ++ [new_id])
  = (list_insert (Z.min position (Z.of_nat (length old))) new_id old,
     Some (SlideInsertedAt (Z.min position (Z.of_nat (length old))))).
Proof.
  intros Hok Hpos. unfold move_slide.
  apply Z.ltb_lt in Hpos. rewrite Hpos.
  unfold reposition_body, bind at 1 2, xml_call at 1 2.
  rewrite !Hok by lia. rewrite pop_snoc.
  unfold bind at 1, xml_call at 1. rewrite Hok by lia.
  unfold bind at 1. rewrite for_each_append.
  - done.
  - intros k Hk. apply Hok. rewrite length_list_insert in Hk. lia.
Qed.

(** A fault before the list is emptied leaves it as it was. *)
Lemma move_slide_early_fault f position total (old : list nat) new_id :
  (fault_at f < 3)%nat ->
  fst (move_slide (Some f) position total (old ++ [new_id])) = old ++ [new_id].
Proof.
  intros Hf. unfold move_slide. destruct (position <? total); [|done].
  destruct f as [n e].
  assert (n = 0 \/ n = 1 \/ n = 2)%nat as [-> | [-> | ->]] by (simpl in Hf; lia).
  - unfold reposition_body, bind at 1, xml_call at 1. simpl. by destruct e.
  - unfold reposition_body, bind at 1 2, xml_call at 1 2. simpl. by destruct e.
  - unfold reposition_body, bind at 1 2, xml_call at 1 2. simpl.
    rewrite pop_snoc. unfold bind at 1, xml_call at 1. simpl. by destruct e.
Qed.

Lemma next_id_fresh (ids : list nat) : next_id ids ∉ ids.
Proof.
  assert (forall x, x ∈ ids -> (x <= foldr Nat.max 255 ids)%nat) as Hmax.
  { induction ids as [|a ids IH]; intros x Hx; [by apply elem_of_nil in Hx|].
    simpl. apply elem_of_cons in Hx as [-> | Hx]; [lia|]. specialize (IH x Hx). lia. }
  intros Hin. apply Hmax in Hin. unfold next_id in Hin. lia.
Qed.

Lemma validate_image_error image r :
  validate_image image = inl r -> exists status message, r = Error status message.
Proof.
  unfold validate_image. destruct image as [img|]; [|done].
  destruct (validate_image_format _); cbn [check and_then]; [|intros [= <-]; eauto].
  destruct (validate_file_size _ _); cbn [check]; [done|intros [= <-]; eauto].
Qed.

(** What a served request went through. *)
Lemma add_slide_sends injected req out download_name :
  add_slide injected req = SendFile out download_name ->
  exists file prs position slide_layout new_slide,
    files_file req = Some file /\ content file = Some prs /\
    form_position req = Some position /\ 0 <= position /\
    find_layout_by_type (slide_layouts prs) (strip (form_layout req)) = Some slide_layout /\
    out = {| slide_layouts := slide_layouts prs;
             slide_parts := <[next_id (sldIdLst prs) := new_slide]> (slide_parts prs);
             sldIdLst :=
               fst (move_slide injected
                      (if position >? Z.of_nat (length (sldIdLst prs))
                       then Z.of_nat (length (sldIdLst prs)) else position)
                      (Z.of_nat (length (sldIdLst prs)))
                      (sldIdLst prs ++ [next_id (sldIdLst prs)])) |}.
Proof.
  unfold add_slide.
  destruct (files_file req) as [file|]; [|done]. cbn [required and_then].
  repeat match goal with
         | |- context [and_then (check ?b ?st ?m) _] =>
             destruct b eqn:?; cbn [check and_then]; [|done]
         end.
  destruct (if is_empty (strip (form_layout req)) then None
            else dict_get PREDEFINED_LAYOUTS (strip (form_layout req))) as [cfg|];
    [|done]. cbn [required and_then].
  repeat match goal with
         | |- context [and_then (check ?b ?st ?m) _] =>
             destruct b eqn:?; cbn [check and_then]; [|done]
         end.
  destruct (validate_image _) as [r|] eqn:Hv;
    [apply validate_image_error in Hv as (st & m & ->); done|]. cbn [and_then].
  destruct (form_position req) as [position|]; [|done]. cbn [required and_then].
  destruct (negb (position <? 0)) eqn:Hpos; cbn [check and_then]; [|done].
  destruct (content file) as [prs|] eqn:Hcontent; [|done]. cbn [required and_then].
  destruct (negb (length (slide_layouts prs) =? 0)%nat) eqn:Hlay;
    cbn [check and_then]; [|done].
  destruct (find_layout_by_type _ _) as [slide_layout|] eqn:Hfind; [|done].
  cbn [required and_then].
  destruct (slides_add_slide slide_layout) as [created|] eqn:Hcreated; [|done].
  cbn [required and_then].
  apply negb_true_iff, Z.ltb_ge in Hpos.
  destruct (position <? 0) eqn:Hneg; [apply Z.ltb_lt in Hneg; lia|].
  destruct (move_slide _ _ _ _) as [xs lg] eqn:Hmove.
  intros [= <- <-].
  eexists file, prs, position, slide_layout, _. repeat split; try done.
  by rewrite Hmove.
Qed.

(** The composition does not depend on what happens in the repositioning
    step. *)
Lemma add_slide_goes_on injected req :
  same_composition (add_slide injected req) (add_slide None req).
Proof.
  unfold add_slide.
  destruct (files_file req) as [file|]; [|done]. cbn [required and_then].
  repeat match goal with
         | |- context [and_then (check ?b ?st ?m) _] =>
             destruct b eqn:?; cbn [check and_then]; [|done]
         end.
  destruct (if is_empty (strip (form_layout req)) then None
            else dict_get PREDEFINED_LAYOUTS (strip (form_layout req))) as [cfg|];
    [|done]. cbn [required and_then].
  repeat match goal with
         | |- context [and_then (check ?b ?st ?m) _] =>
             destruct b eqn:?; cbn [check and_then]; [|done]
         end.
  destruct (validate_image _) as [r|] eqn:Hv;
    [apply validate_image_error in Hv as (st & m & ->); done|]. cbn [and_then].
  destruct (form_position req) as [position|]; [|done]. cbn [required and_then].
  destruct (negb (position <? 0)) eqn:Hpos; cbn [check and_then]; [|done].
  destruct (content file) as [prs|] eqn:Hcontent; [|done]. cbn [required and_then].
  destruct (negb (length (slide_layouts prs) =? 0)%nat) eqn:Hlay;
    cbn [check and_then]; [|done].
  destruct (find_layout_by_type _ _) as [slide_layout|] eqn:Hfind; [|done].
  cbn [required and_then].
  destruct (slides_add_slide slide_layout) as [created|] eqn:Hcreated; [|done].
  cbn [required and_then].
  destruct (move_slide injected _ _ _) as [xs lg].
  destruct (move_slide None _ _ _) as [xs0 lg0].
  done.
Qed.

Lemma list_insert_permutation {A} (i : Z) (x : A) (l : list A) :
  list_insert i x l ≡ₚ l ++ [x].
Proof.
  unfold list_insert. rewrite <- Permutation_middle, <- Permutation_cons_append.
  by rewrite take_drop.
Qed.

(** When no call of [xml_slides.append] raises, the step moves the new slide
    or leaves the list as it was. *)
Lemma move_slide_all_or_nothing injected position (old : list nat) new_id :
  0 <= position ->
  ~ strikes_rebuild injected (S (length old)) ->
  let result :=
    fst (move_slide injected position (Z.of_nat (length old)) (old ++ [new_id])) in
  (result = list_insert (Z.min position (Z.of_nat (length old))) new_id old \/
   result = old ++ [new_id]) /\
  (injected = None ->
   result = list_insert (Z.min position (Z.of_nat (length old))) new_id old).
Proof.
  intros Hpos Hsafe result. subst result.
  destruct (Z.ltb_spec position (Z.of_nat (length old))) as [Hlt|Hge].
  - assert ((forall k, (k < 4 + length old)%nat -> raises_at injected k = None) \/
            exists f, injected = Some f /\ (fault_at f < 3)%nat) as [Hok|(f & -> & Hf)].
    { destruct injected as [f|]; [|by left].
      destruct (decide (fault_at f < 3)%nat); [right; eauto|].
      left. intros k Hk. unfold raises_at.
      destruct (fault_at f =? k)%nat eqn:E; [|done].
      apply Nat.eqb_eq in E. exfalso. apply Hsafe. exists f. split; [done|lia]. }
    + rewrite move_slide_completes by done. split; [by left|done].
    + split; [right; by apply move_slide_early_fault|done].
  - assert (fst (move_slide injected position (Z.of_nat (length old)) (old ++ [new_id]))
            = old ++ [new_id]) as ->.
    { unfold move_slide.
      destruct (position <? Z.of_nat (length old)) eqn:E; [apply Z.ltb_lt in E; lia|done]. }
    split; [by right|]. intros _.
    unfold list_insert. rewrite Z.min_r by lia. rewrite Nat2Z.id.
    by rewrite take_ge, drop_ge by lia.
Qed.

Lemma add_slide_same_slides injected req out download_name out0 download_name0 :
  appends_return injected ->
  add_slide injected req = SendFile out download_name ->
  add_slide None req = SendFile out0 download_name0 ->
  sldIdLst out ≡ₚ sldIdLst out0.
Proof.
  intros Hsafe Hrun Hrun0.
  apply add_slide_sends in Hrun
    as (file & prs & position & l & created & Hfile & Hcontent & Hposition & Hpos & _ & ->).
  apply add_slide_sends in Hrun0
    as (file0 & prs0 & position0 & l0 & created0 & Hfile0 & Hcontent0 & Hposition0 & _ & _ & ->).
  rewrite Hfile in Hfile0. injection Hfile0 as <-.
  rewrite Hcontent in Hcontent0. injection Hcontent0 as <-.
  rewrite Hposition in Hposition0. injection Hposition0 as <-.
  cbn [sldIdLst].
  set (clamped := if position >? Z.of_nat (length (sldIdLst prs))
                  then Z.of_nat (length (sldIdLst prs)) else position).
  assert (0 <= clamped) as Hclamped.
  { subst clamped. destruct (position >? _); lia. }
  assert (forall inj, appends_return inj ->
            fst (move_slide inj clamped (Z.of_nat (length (sldIdLst prs)))
                   (sldIdLst prs ++ [next_id (sldIdLst prs)]))
            ≡ₚ sldIdLst prs ++ [next_id (sldIdLst prs)]) as Hperm.
  { intros inj Hinj.
    destruct (move_slide_all_or_nothing inj clamped (sldIdLst prs) (next_id (sldIdLst prs))
                Hclamped (Hinj _)) as [[-> | ->] _]; [apply list_insert_permutation|done]. }
  rewrite (Hperm injected Hsafe).
  rewrite (Hperm None); [done|]. intros appends (f & [=] & _).
Qed.

(** C3. The repositioning step is all or nothing. For every requested
    position it leaves the new slide at [min(position, length)] with the
    other slides in their order (which it does whenever no call raises) or
    at the end with no slide lost; and a failure of the step, whatever call
    raises and whichever exception, is caught and does not abort the
    remaining steps: the slide is composed and the response sent as in a run
    without failure, for the same slides in the ordering. The ordering is
    stated for the calls of [xml_slides.append] taken to return, as
    appending an element to an lxml list does. *)
Theorem reposition_all_or_nothing (injected : option fault) :
  (forall req, same_composition (add_slide injected req) (add_slide None req)) /\
  (forall (position : Z) (old : list nat) (new_id : nat),
     0 <= position ->
     ~ strikes_rebuild injected (S (length old)) ->
     let result :=
       fst (move_slide injected position (Z.of_nat (length old)) (old ++ [new_id])) in
     (result = list_insert (Z.min position (Z.of_nat (length old))) new_id old \/
      result = old ++ [new_id]) /\
     (injected = None ->
      result = list_insert (Z.min position (Z.of_nat (length old))) new_id old)) /\
  (appends_return injected ->
   forall req, same_but_order (add_slide injected req) (add_slide None req)).
Proof.
  split; [apply add_slide_goes_on|]. split; [apply move_slide_all_or_nothing|].
  intros Hsafe req. split; [apply add_slide_goes_on|].
  pose proof (add_slide_goes_on injected req) as Hsame.
  destruct (add_slide injected req) as [|out download_name] eqn:Hrun; [done|].
  destruct (add_slide None req) as [|out0 download_name0] eqn:Hrun0; [done|].
  by apply (add_slide_same_slides injected req out download_name out0 download_name0).
Qed.

Lemma reposition_all_or_nothing_witness :
  same_but_order
    (add_slide (Some {| fault_at := 0; raised := AttributeError |}) review_request)
    (add_slide None review_request) /\
  fst (move_slide (Some {| fault_at := 0; raised := AttributeError |}) 1
         (Z.of_nat (length [256; 257; 258]%nat)) ([256; 257; 258] ++ [259])%nat)
  = ([256; 257; 258] ++ [259])%nat /\
  fst (move_slide None 1
         (Z.of_nat (length [256; 257; 258]%nat)) ([256; 257; 258] ++ [259])%nat)
  = list_insert (Z.min 1 (Z.of_nat (length [256; 257; 258]%nat))) 259%nat [256; 257; 258]%nat.
Proof.
  assert (appends_return (Some {| fault_at := 0; raised := AttributeError |})) as Hsafe.
  { intros appends (f & [= <-] & Hf). simpl in Hf. lia. }
  destruct (reposition_all_or_nothing
              (Some {| fault_at := 0; raised := AttributeError |})) as (_ & _ & Hsame).
  split; [exact (Hsame Hsafe review_request)|].
  split; [reflexivity|].
  destruct (reposition_all_or_nothing None) as (_ & Hatomic & _).
  refine (proj2 (Hatomic 1 [256; 257; 258]%nat 259%nat _ _) eq_refl); [lia|].
  intros (f & [=] & _).
Defined.

(** C5. For every request that is served from a loaded presentation, when
    no call of the repositioning step raises, the document sent back has
    exactly one slide more than the loaded one, and the new slide stands at
    the requested position clamped to [0, previous slide count], the other
    slides keeping their order. *)
Theorem add_slide_at_clamped_position
  (req : request) (file : pptx_file) (prs : presentation) (position : Z)
  (out : presentation) (download_name : string) :
  files_file req = Some file ->
  content file = Some prs ->
  form_position req = Some position ->
  add_slide None req = SendFile out download_name ->
  let old := sldIdLst prs in
  let clamped := Z.to_nat (Z.max 0 (Z.min position (Z.of_nat (length old)))) in
  length (sldIdLst out) = S (length old) /\
  (clamped <= length old)%nat /\
  sldIdLst out = take clamped old ++ next_id old :: drop clamped old /\
  sldIdLst out !! clamped = Some (next_id old) /\
  (next_id old ∉ old) /\
  is_Some (slide_parts out !! next_id old).
Proof.
  intros Hfile Hcontent Hposition Hsend old clamped.
  apply add_slide_sends in Hsend
    as (file' & prs' & position' & slide_layout & new_slide & Hf & Hc & Hp & Hpos & _ & ->).
  rewrite Hfile in Hf. injection Hf as <-.
  rewrite Hcontent in Hc. injection Hc as <-.
  rewrite Hposition in Hp. injection Hp as <-.
  cbn [sldIdLst slide_parts]. fold old.
  assert (fst (move_slide None
                 (if position >? Z.of_nat (length old) then Z.of_nat (length old) else position)
                 (Z.of_nat (length old)) (old ++ [next_id old]))
          = take clamped old ++ next_id old :: drop clamped old) as ->.
  { subst clamped. destruct (Z.gtb_spec position (Z.of_nat (length old))) as [Hgt|Hle].
    - unfold move_slide. rewrite Z.ltb_irrefl. cbn [fst].
      rewrite Z.min_r, Z.max_r, Nat2Z.id by lia.
      by rewrite take_ge, drop_ge by lia.
    - destruct (Z.eq_dec position (Z.of_nat (length old))) as [->|Hne].
      + unfold move_slide. rewrite Z.ltb_irrefl. cbn [fst].
        rewrite Z.min_r, Z.max_r, Nat2Z.id by lia.
        by rewrite take_ge, drop_ge by lia.
      + rewrite move_slide_completes by (done || lia). cbn [fst].
        unfold list_insert. by rewrite Z.max_r by lia. }
  assert (clamped <= length old)%nat as Hcl by (subst clamped; lia).
  repeat split.
  - rewrite length_app. simpl. rewrite Nat.add_succ_r, <- length_app, take_drop. done.
  - done.
  - rewrite lookup_app_r by (rewrite length_take; lia).
    rewrite length_take, Nat.min_l by lia. by rewrite Nat.sub_diag.
  - apply next_id_fresh.
  - rewrite lookup_insert_eq. eauto.
Qed.

Lemma add_slide_at_clamped_position_witness :
  length (sldIdLst (match add_slide None review_request with
                    | SendFile out _ => out
                    | Error _ _ => three_slides
                    end)) = 4%nat /\
  sldIdLst (match add_slide None review_request with
            | SendFile out _ => out
            | Error _ _ => three_slides
            end) = [256; 259; 257; 258]%nat.
Proof.
  destruct (add_slide None review_request) as [|out download_name] eqn:Hrun;
    [vm_compute in Hrun; discriminate|].
  destruct (add_slide_at_clamped_position review_request deck three_slides 1
              out download_name eq_refl eq_refl eq_refl Hrun) as (Hlen & _ & Horder & _).
  split; [exact Hlen|exact Horder].
Defined.

(** What the steps around the content step leave alone: the text boxes and
    the content placeholders. *)
Lemma is_content_with_frame p tf : is_content (with_frame p tf) = is_content p.
Proof. done. Qed.

Lemma set_title_shape_keeps title shs :
  text_boxes (set_title_shape title shs) = text_boxes shs /\
  content_count (set_title_shape title shs) = content_count shs.
Proof.
  unfold text_boxes, content_count.
  induction shs as [|sh shs [IHb IHc]]; [done|].
  destruct sh as [p| |]; simpl.
  - destruct (ph_idx p =? 0)%nat.
    + destruct (ph_frame p); simpl; [|done].
      rewrite is_content_with_frame. by destruct (is_content p).
    + simpl. rewrite IHb. destruct (is_content p); simpl; by rewrite ?IHc.
  - by rewrite IHb, IHc.
  - by rewrite IHb, IHc.
Qed.

Lemma set_title_keeps title sl :
  text_boxes (shapes (set_title title sl)) = text_boxes (shapes sl) /\
  content_count (shapes (set_title title sl)) = content_count (shapes sl).
Proof.
  unfold set_title. destruct (is_empty title); [done|]. apply set_title_shape_keeps.
Qed.

(** The placeholders of the iteration are the placeholder shapes of the
    tree, each once, at their places. *)
Lemma placeholders_from_lookup k shs i p :
  (i, p) ∈ placeholders_from k shs <->
  (k <= i)%nat /\ shs !! (i - k)%nat = Some (Placeholder p).
Proof.
  revert k. induction shs as [|sh shs IH]; intros k.
  - cbn. split; [intros H; by apply elem_of_nil in H|intros [_ H]; done].
  - assert ((i, p) ∈ placeholders_from (S k) shs <->
            (k < i)%nat /\ (sh :: shs) !! (i - k)%nat = Some (Placeholder p)) as Hrest.
    { rewrite IH. split; intros [Hle Hl]; (split; [lia|]).
      - replace (i - k)%nat with (S (i - S k)) by lia. exact Hl.
      - replace (i - k)%nat with (S (i - S k)) in Hl by lia. exact Hl. }
    assert (forall q, ((i, p) = (k, q) \/ (i, p) ∈ placeholders_from (S k) shs) <->
                      ((k <= i)%nat /\
                       (Placeholder q :: shs) !! (i - k)%nat = Some (Placeholder p))) as Hhere.
    { intros q. split.
      - intros [[= -> ->]|H]; [rewrite Nat.sub_diag; done|].
        apply IH in H as [Hle Hl]. split; [lia|].
        replace (i - k)%nat with (S (i - S k)) by lia. exact Hl.
      - intros [Hle Hl]. destruct (decide (i = k)) as [->|Hne].
        + rewrite Nat.sub_diag in Hl. injection Hl as ->. by left.
        + right. apply IH. split; [lia|].
          replace (i - k)%nat with (S (i - S k)) in Hl by lia. exact Hl. }
    destruct sh as [q| |]; cbn [placeholders_from].
    + rewrite elem_of_cons. apply Hhere.
    + rewrite Hrest. split; intros [Hle Hl]; (split; [lia|exact Hl]) || idtac.
      destruct (decide (i = k)) as [->|Hne]; [rewrite Nat.sub_diag in Hl; done|].
      split; [lia|exact Hl].
    + rewrite Hrest. split; intros [Hle Hl]; (split; [lia|exact Hl]) || idtac.
      destruct (decide (i = k)) as [->|Hne]; [rewrite Nat.sub_diag in Hl; done|].
      split; [lia|exact Hl].
Qed.

Lemma insert_by_idx_permutation x l : insert_by_idx x l ≡ₚ x :: l.
Proof.
  induction l as [|y l IH]; [done|]. cbn [insert_by_idx].
  destruct (ph_idx y.2 <? ph_idx x.2)%nat; [|done].
  rewrite IH. apply Permutation_swap.
Qed.

Lemma sorted_by_idx_permutation l : sorted_by_idx l ≡ₚ l.
Proof.
  induction l as [|x l IH]; [done|]. cbn [sorted_by_idx foldr].
  rewrite insert_by_idx_permutation. by constructor.
Qed.

Lemma slide_placeholders_lookup sl i p :
  (i, p) ∈ slide_placeholders sl <-> shapes sl !! i = Some (Placeholder p).
Proof.
  unfold slide_placeholders. rewrite sorted_by_idx_permutation, placeholders_from_lookup.
  rewrite Nat.sub_0_r. split; [by intros [_ H]|intros H; split; [lia|done]].
Qed.

Lemma filter_length_permutation {A} (f : A -> bool) (l k : list A) :
  l ≡ₚ k -> length (List.filter f l) = length (List.filter f k).
Proof.
  induction 1 as [|x l k _ IH|x y l|l k m _ IH1 _ IH2]; cbn [List.filter].
  - done.
  - destruct (f x); cbn [length]; by rewrite IH.
  - by destruct (f x), (f y).
  - by rewrite IH1.
Qed.

Lemma content_placeholders_count sl :
  length (content_placeholders sl) = content_count (shapes sl).
Proof.
  unfold content_placeholders, slide_placeholders, content_count.
  rewrite (filter_length_permutation _ _ _ (sorted_by_idx_permutation _)).
  generalize 0%nat. induction (shapes sl) as [|sh shs IH]; intros k; [done|].
  destruct sh as [p| |]; cbn [placeholders_from List.filter is_content_shape snd];
    [|apply IH..].
  destruct (is_content p); cbn [length]; by rewrite IH.
Qed.

(** Writing into a placeholder of the tree leaves the text boxes and the
    number of content placeholders as they are. *)
Lemma insert_placeholder_keeps shs i p q :
  shs !! i = Some (Placeholder p) -> is_content q = is_content p ->
  text_boxes (<[i := Placeholder q]> shs) = text_boxes shs /\
  content_count (<[i := Placeholder q]> shs) = content_count shs.
Proof.
  unfold text_boxes, content_count.
  revert i. induction shs as [|sh shs IH]; intros i Hi Hq; [done|].
  destruct i as [|i].
  - injection Hi as ->. cbn. rewrite Hq. by destruct (is_content p).
  - destruct (IH i Hi Hq) as [IHb IHc]. cbn [list_insert].
    change (<[S i := Placeholder q]> (sh :: shs)) with (sh :: <[i := Placeholder q]> shs).
    cbn [List.filter]. destruct (is_text_box sh), (is_content_shape sh);
      cbn [length]; by rewrite ?IHb, ?IHc.
Qed.

(** Removing shapes on which [f] is false leaves the shapes on which [f] is
    true as they are. *)
Lemma remove_from_filter (f : shape -> bool) removed shs : forall k,
  (forall j sh, shs !! j = Some sh -> existsb (Nat.eqb (k + j)) removed = true ->
                f sh = false) ->
  List.filter f (remove_from k removed shs) = List.filter f shs.
Proof.
  induction shs as [|sh shs IH]; intros k Hrem; [done|].
  assert (List.filter f (remove_from (S k) removed shs) = List.filter f shs) as Hrest.
  { apply IH. intros j sh' Hj Hin. apply (Hrem (S j) sh' Hj).
    by rewrite Nat.add_succ_r. }
  cbn [remove_from List.filter].
  destruct (existsb (Nat.eqb k) removed) eqn:Hk.
  - rewrite (Hrem 0%nat sh eq_refl) by (by rewrite Nat.add_0_r). exact Hrest.
  - cbn [List.filter]. by rewrite Hrest.
Qed.

Lemma remove_from_nothing shs k : remove_from k [] shs = shs.
Proof. revert k. induction shs as [|sh shs IH]; intros k; [done|]. cbn. by rewrite IH. Qed.

Lemma existsb_eqb_elem (i : nat) (l : list nat) : existsb (Nat.eqb i) l = true <-> i ∈ l.
Proof.
  rewrite existsb_exists. split.
  - intros (x & Hin & Hx). apply Nat.eqb_eq in Hx. subst. by apply list_elem_of_In.
  - intros Hin. exists i. split; [by apply list_elem_of_In|apply Nat.eqb_refl].
Qed.

(** The places that the loop of the image step removes hold picture
    placeholders. *)
Lemma picture_loop_removed img phs i :
  i ∈ (picture_loop img phs).1 -> exists p, (i, p) ∈ phs /\ ph_type p = Some PICTURE.
Proof.
  induction phs as [|[j q] phs IH]; cbn [picture_loop].
  - intros H. by apply elem_of_nil in H.
  - assert (i ∈ (picture_loop img phs).1 ->
            exists p, (i, p) ∈ (j, q) :: phs /\ ph_type p = Some PICTURE) as Hrest.
    { intros H. destruct (IH H) as (p & Hp & Hty). exists p. split; [by right|done]. }
    destruct (ph_type q) as [[]|] eqn:Hty; try exact Hrest.
    destruct (scale img (ph_width q) (ph_height q)) as [[w h]|].
    + cbn [fst]. intros H. apply list_elem_of_singleton in H. subst.
      exists q. split; [by left|done].
    + destruct (picture_loop img phs) as [removed pic]. cbn [fst] in *.
      intros H. apply elem_of_cons in H as [->|H]; [|by apply Hrest].
      exists q. split; [by left|done].
Qed.

Lemma picture_loop_added img phs pic :
  (picture_loop img phs).2 = Some pic -> exists l t w h, pic = Picture l t w h (image_filename img).
Proof.
  induction phs as [|[j q] phs IH]; cbn [picture_loop]; [done|].
  destruct (ph_type q) as [[]|]; try exact IH.
  destruct (scale img (ph_width q) (ph_height q)) as [[w h]|].
  - cbn [snd]. intros [= <-]. eauto.
  - destruct (picture_loop img phs) as [removed added]. exact IH.
Qed.

Lemma snoc_picture_keeps shs l t w h image :
  text_boxes (shs ++ [Picture l t w h image]) = text_boxes shs /\
  content_count (shs ++ [Picture l t w h image]) = content_count shs.
Proof.
  unfold text_boxes, content_count. rewrite List.filter_app, List.filter_app. simpl.
  by rewrite !app_nil_r.
Qed.

Lemma removed_pictures_keep img sl (f : shape -> bool) :
  (forall p, ph_type p = Some PICTURE -> f (Placeholder p) = false) ->
  List.filter f (remove_from 0 (picture_loop img (slide_placeholders sl)).1 (shapes sl))
  = List.filter f (shapes sl).
Proof.
  intros Hf. apply remove_from_filter. intros j sh Hj Hin.
  apply existsb_eqb_elem, picture_loop_removed in Hin as (p & Hp & Hty).
  apply slide_placeholders_lookup in Hp. cbn in Hp. rewrite Hj in Hp.
  injection Hp as ->. by apply Hf.
Qed.

Lemma add_image_keeps {F} `{Arith F} image sl :
  text_boxes (shapes (add_image (F:=F) image sl)) = text_boxes (shapes sl) /\
  content_count (shapes (add_image (F:=F) image sl)) = content_count (shapes sl).
Proof.
  unfold add_image. destruct image as [img|]; [|done].
  pose proof (removed_pictures_keep img sl is_text_box (fun _ _ => eq_refl)) as Hb.
  assert (List.filter is_content_shape
            (remove_from 0 (picture_loop img (slide_placeholders sl)).1 (shapes sl))
          = List.filter is_content_shape (shapes sl)) as Hc.
  { apply removed_pictures_keep. intros p Hty. cbn. unfold is_content. by rewrite Hty. }
  pose proof (picture_loop_added img (slide_placeholders sl)) as Hadded.
  destruct (picture_loop img (slide_placeholders sl)) as [removed [pic|]]; cbn [fst snd] in *.
  - destruct (Hadded pic eq_refl) as (l & t & w & h & ->). cbn [shapes].
    destruct (snoc_picture_keeps (remove_from 0 removed (shapes sl)) l t w h
                (image_filename img)) as [-> ->].
    unfold text_boxes, content_count. by rewrite Hb, Hc.
  - unfold fallback_picture. destruct (image_width_at img) as [width_at|].
    + destruct (fit_width _ _ _) as [w h]. cbn [shapes].
      destruct (snoc_picture_keeps (remove_from 0 removed (shapes sl))
                  (Inches 6.5) (Inches 1.5) w h (image_filename img)) as [-> ->].
      unfold text_boxes, content_count. by rewrite Hb, Hc.
    + cbn [shapes]. unfold text_boxes, content_count. by rewrite Hb, Hc.
Qed.

Lemma is_empty_false s : s <> EmptyString -> is_empty s = false.
Proof. by destruct s. Qed.

(** C6. For a [title_two_content] request with both body texts present,
    when the new slide has zero or one BODY/OBJECT placeholder, the
    composition adds exactly two text boxes to the slide, the first with body
    text 1 and the second with body text 2; the first lies wholly to the left
    of the second, so they do not overlap; and the number of content
    placeholders of the slide is unchanged. *)
Theorem two_content_synthesizes_text_boxes
  (title text text2 : string) (image : option image_file) (new_slide : slide) :
  text <> EmptyString -> text2 <> EmptyString ->
  (content_count (shapes new_slide) <= 1)%nat ->
  let composed := compose (F:=float) "title_two_content" title text text2 image new_slide in
  exists left1 top1 width1 height1 tf1 left2 top2 width2 height2 tf2,
    text_boxes (shapes composed)
    = text_boxes (shapes new_slide) ++
      [TextBox left1 top1 width1 height1 tf1; TextBox left2 top2 width2 height2 tf2] /\
    tf_text tf1 = text /\ tf_text tf2 = text2 /\
    0 < width1 /\ 0 < width2 /\ left1 + width1 <= left2 /\
    content_count (shapes composed) = content_count (shapes new_slide).
Proof.
  intros Htext Htext2 Hfew composed. subst composed. unfold compose.
  set (titled := set_title title (set_background new_slide)).
  assert (text_boxes (shapes titled) = text_boxes (shapes new_slide) /\
          content_count (shapes titled) = content_count (shapes new_slide)) as [Hb Hc].
  { exact (set_title_keeps title (set_background new_slide)). }
  exists (Inches 0.5), (Inches 1.8), (Inches 4.2), (Inches 5),
         (write_text text new_textbox_frame),
         (Inches 5.2), (Inches 1.8), (Inches 4.2), (Inches 5),
         (write_text text2 new_textbox_frame).
  destruct (add_image_keeps (F:=float) image
              (set_content "title_two_content" text text2 titled))
    as [-> ->].
  unfold set_content. rewrite String.eqb_refl, !is_empty_false by done. cbn [andb negb].
  unfold set_two_content.
  pose proof (content_placeholders_count titled) as Hlen.
  destruct (content_placeholders titled) as [|[i1 p1] [|[i2 p2] ps]] eqn:Hcp;
    [| |simpl in Hlen; lia].
  all: cbn [shapes]; unfold text_boxes, content_count in *;
    rewrite !List.filter_app; simpl; rewrite app_nil_r, Hb, Hc;
    repeat split; vm_compute; congruence.
Qed.

Lemma two_content_synthesizes_text_boxes_witness :
  exists left1 top1 width1 height1 tf1 left2 top2 width2 height2 tf2,
    text_boxes (shapes (compose (F:=float) "title_two_content" "Plan" "Left" "Right" None
                          (new_slide_from title_and_content)))
    = text_boxes (shapes (new_slide_from title_and_content)) ++
      [TextBox left1 top1 width1 height1 tf1; TextBox left2 top2 width2 height2 tf2] /\
    tf_text tf1 = "Left" /\ tf_text tf2 = "Right" /\
    0 < width1 /\ 0 < width2 /\ left1 + width1 <= left2 /\
    content_count (shapes (compose (F:=float) "title_two_content" "Plan" "Left" "Right" None
                             (new_slide_from title_and_content)))
    = content_count (shapes (new_slide_from title_and_content)).
Proof.
  apply two_content_synthesizes_text_boxes; [discriminate|discriminate|].
  vm_compute. lia.
Defined.

Lemma Inches_3 : Inches 3 = 2743200. Proof. vm_compute. reflexivity. Qed.
Lemma Inches_5 : Inches 5 = 4572000. Proof. vm_compute. reflexivity. Qed.

Lemma exact_truediv (a b : Z) :
  (0 < a < 2 ^ 53) -> (0 < b < 2 ^ 53) ->
  (inject_Z a / inject_Z b * (1 - u) <= truediv (F:=Q) a b /\
   truediv (F:=Q) a b <= inject_Z a / inject_Z b * (1 + u))%Q.
Proof.
  intros [Ha _] [Hb _]. simpl.
  assert (0 < inject_Z a / inject_Z b)%Q as Hpos.
  { apply Qlt_shift_div_l; [change 0%Q with (inject_Z 0); by rewrite <- Zlt_Qlt|].
    rewrite Qmult_0_l. change 0%Q with (inject_Z 0). by rewrite <- Zlt_Qlt. }
  change u with (1 # 9007199254740992)%Q. split; nra.
Qed.

Lemma exact_mul_int (n : Z) (x : Q) :
  (0 < n < 2 ^ 53) -> (u <= x /\ x <= inject_Z (2 ^ 53))%Q ->
  (inject_Z n * x * (1 - u) <= mul_int n x /\
   mul_int n x <= inject_Z n * x * (1 + u))%Q.
Proof.
  intros [Hn _] [Hx _]. simpl.
  assert (0 < inject_Z n)%Q by (change 0%Q with (inject_Z 0); by rewrite <- Zlt_Qlt).
  change u with (1 # 9007199254740992)%Q in *.
  assert (0 < inject_Z n * x)%Q by nra.
  split; nra.
Qed.

Lemma exact_int_of (x : Q) :
  (0 <= x)%Q -> (inject_Z (int_of x) <= x /\ x < inject_Z (int_of x) + 1)%Q.
Proof.
  intros Hx. simpl.
  assert (Z.quot (Qnum x) (Z.pos (Qden x)) = Qfloor x) as ->.
  { destruct x as [n d]. simpl. apply Z.quot_div_nonneg; [|lia].
    unfold Qle in Hx. simpl in Hx. lia. }
  split; [apply Qfloor_le|].
  pose proof (Qlt_floor x) as H. by rewrite inject_Z_plus in H.
Qed.

Definition exact_accurate : Accurate Q :=
  {| val := fun x => x;
     truediv_accurate := exact_truediv;
     mul_int_accurate := exact_mul_int;
     int_of_truncates := exact_int_of |}.

(** The arithmetic of the scaled branch, on the rational values: [w] is the
    inserted width, [r] the exact ratio, [vx] and [vy] the values of the two
    floats. *)
Lemma ratio_range (w r vx : Q) :
  (2743201 <= w)%Q -> (w <= 9007199254740992)%Q -> (r * w == 4572000)%Q -> (0 < r)%Q ->
  (r * (1 - (1 # 9007199254740992)) <= vx)%Q ->
  (vx <= r * (1 + (1 # 9007199254740992)))%Q ->
  ((1 # 9007199254740992) <= vx /\ vx <= 9007199254740992)%Q.
Proof.
  intros Hw1 Hw2 Hr Hrpos Hx1 Hx2.
  assert (r * 2743201 <= r * w)%Q as Hm1 by (by apply Qmult_le_l).
  assert (r * w <= r * 9007199254740992)%Q as Hm2 by (by apply Qmult_le_l).
  split; lra.
Qed.

Lemma product_range (w r vx vy : Q) :
  (2743201 <= w)%Q -> (r * w == 4572000)%Q -> (0 < r)%Q ->
  (r * (1 - (1 # 9007199254740992)) <= vx)%Q ->
  (vx <= r * (1 + (1 # 9007199254740992)))%Q ->
  (2743200 * vx * (1 - (1 # 9007199254740992)) <= vy)%Q ->
  (vy <= 2743200 * vx * (1 + (1 # 9007199254740992)))%Q ->
  (0 <= vy /\ vy < 4572000 /\
   2743200 * r * (1 - (1 # 9007199254740992)) * (1 - (1 # 9007199254740992)) <= vy /\
   vy <= 2743200 * r * (1 + (1 # 9007199254740992)) * (1 + (1 # 9007199254740992)))%Q.
Proof.
  intros Hw1 Hr Hrpos Hx1 Hx2 Hy1 Hy2.
  assert (r * 2743201 <= r * w)%Q as Hm1 by (by apply Qmult_le_l).
  repeat split; lra.
Qed.

Lemma truncation_range (a b vy h : Q) :
  (a <= vy)%Q -> (vy <= b)%Q -> (h <= vy)%Q -> (vy < h + 1)%Q ->
  (a - 1 < h /\ h <= b)%Q.
Proof. intros. split; lra. Qed.

Lemma inject_Z_pos z : 0 < z -> (0 < inject_Z z)%Q.
Proof. intros. change 0%Q with (inject_Z 0). by rewrite <- Zlt_Qlt. Qed.

Section Fit.
Context {F : Type} `{Accurate F}.

Lemma fit_width_scaled (pic_width : Z) :
  2743200 < pic_width < 2 ^ 53 ->
  let target := (inject_Z 2743200 * inject_Z 4572000 / inject_Z pic_width)%Q in
  let height := int_of (mul_int 2743200 (truediv (F:=F) 4572000 pic_width)) in
  0 <= height <= 4572000 /\
  (target * (1 - u) * (1 - u) - 1 < inject_Z height /\
   inject_Z height <= target * (1 + u) * (1 + u))%Q.
Proof.
  intros [Hlo Hhi] target height.
  set (x := truediv (F:=F) 4572000 pic_width).
  set (y := mul_int 2743200 x).
  set (w := inject_Z pic_width).
  set (r := (inject_Z 4572000 / w)%Q).
  assert (0 < w)%Q as Hw by (apply inject_Z_pos; lia).
  assert (inject_Z 2743201 <= w)%Q as Hw1 by (subst w; rewrite <- Zle_Qle; lia).
  assert (w <= inject_Z (2 ^ 53))%Q as Hw2 by (subst w; rewrite <- Zle_Qle; lia).
  assert (r * w == inject_Z 4572000)%Q as Hr.
  { subst r. field. intros E. rewrite E in Hw. by apply Qlt_irrefl in Hw. }
  assert (0 < r)%Q as Hrpos.
  { subst r. apply Qlt_shift_div_l; [done|]. by rewrite Qmult_0_l. }
  assert (target == inject_Z 2743200 * r)%Q as Htarget.
  { subst target r. fold w. field.
    intros E. rewrite E in Hw. by apply Qlt_irrefl in Hw. }
  destruct (truediv_accurate 4572000 pic_width) as [Hx1 Hx2]; [lia|lia|].
  fold x w r in Hx1, Hx2.
  change u with (1 # 9007199254740992)%Q in *.
  change (inject_Z 2743201) with (2743201 # 1)%Q in Hw1.
  change (inject_Z (2 ^ 53)) with (9007199254740992 # 1)%Q in Hw2.
  change (inject_Z 4572000) with (4572000 # 1)%Q in Hr.
  change (inject_Z 2743200) with (2743200 # 1)%Q in Htarget.
  destruct (ratio_range w r (val x) Hw1 Hw2 Hr Hrpos Hx1 Hx2) as [Hx3 Hx4].
  destruct (mul_int_accurate 2743200 x) as [Hy1 Hy2]; [lia|by split|].
  fold y in Hy1, Hy2.
  change (inject_Z 2743200) with (2743200 # 1)%Q in Hy1, Hy2.
  change u with (1 # 9007199254740992)%Q in *.
  destruct (product_range w r (val x) (val y) Hw1 Hr Hrpos Hx1 Hx2 Hy1 Hy2)
    as (Hy0 & Hy3 & Hy4 & Hy5).
  destruct (int_of_truncates y Hy0) as [Hh1 Hh2]. fold height in Hh1, Hh2.
  assert (inject_Z height < inject_Z 4572000)%Q as Hup.
  { eapply Qle_lt_trans; [exact Hh1|exact Hy3]. }
  assert (inject_Z (-1) < inject_Z height)%Q as Hdown.
  { apply Qplus_lt_l with (z := 1%Q). eapply Qle_lt_trans; [exact Hy0|].
    exact Hh2. }
  rewrite <- Zlt_Qlt in Hup, Hdown.
  split; [lia|]. rewrite Htarget.
  exact (truncation_range _ _ _ _ Hy4 Hy5 Hh1 Hh2).
Qed.

End Fit.

(** Without a picture placeholder the loop of the image step changes
    nothing and finds nothing. *)
Lemma picture_loop_none img phs :
  (forall x, x ∈ phs -> ph_type x.2 <> Some PICTURE) ->
  picture_loop img phs = ([], None).
Proof.
  induction phs as [|[i p] phs IH]; intros Hfree; [done|].
  assert (picture_loop img phs = ([], None)) as Hrest.
  { apply IH. intros x Hx. apply Hfree. by right. }
  cbn [picture_loop]. rewrite Hrest.
  assert (ph_type p <> Some PICTURE) as Hp by (apply (Hfree (i, p)); by left).
  by destruct (ph_type p) as [[]|].
Qed.

Lemma add_image_without_placeholder {F} `{Arith F} img sl :
  (forall p, Placeholder p ∈ shapes sl -> ph_type p <> Some PICTURE) ->
  shapes (add_image (F:=F) (Some img) sl)
  = shapes sl ++ match fallback_picture (F:=F) img with Some pic => [pic] | None => [] end.
Proof.
  intros Hfree. unfold add_image. rewrite picture_loop_none.
  - rewrite remove_from_nothing. destruct (fallback_picture img); [done|].
    cbn. by rewrite app_nil_r.
  - intros [i p] Hx. apply slide_placeholders_lookup in Hx. cbn.
    apply Hfree. by apply list_elem_of_lookup_2 in Hx.
Qed.

(** C7, as stated, fails in its last part: on a slide without a picture
    placeholder, a picture seven wide for five high is inserted 6400800 EMU
    wide and 4572000 high, scaled to the maximum width 2743200, and given the
    height [int(2743200 * (4572000 / 6400800)) = 1959428]; the ratio of
    1959428 to 2743200 is not the ratio of 4572000 to 6400800. *)
Lemma aspect_ratio_not_exact :
  shapes (add_image (F:=float) (Some wide) (new_slide_from title_and_content))
  = shapes (new_slide_from title_and_content) ++
    [Picture 5943600 1371600 2743200 1959428 "wide.png"] /\
  Inches 3 = 2743200 /\ Inches 5 = 4572000 /\
  Inches 5 * 7 / 5 = 6400800 /\
  1959428 * 6400800 <> 2743200 * 4572000.
Proof. repeat split; vm_compute; congruence. Qed.

(** C7, amended. When python-pptx can read the supplied image and the slide
    has no picture placeholder, the picture of the fallback branch is at most
    the maximum width wide and at most the maximum height high. A picture
    inserted wider than the maximum is given the maximum width and the height
    [int(max_width * (height / width))]: the ratio is kept up to the
    truncation to a whole EMU and the rounding of the two float operations.
    This holds for every float arithmetic that meets the standard model, for
    inserted widths below 2^53. *)
Theorem fallback_picture_within_bounds {F : Type} {ops : Arith F} {laws : Accurate F}
  (image : image_file) (width_at : Z -> Z) (new_slide : slide) :
  image_width_at image = Some width_at ->
  width_at (Inches 5) < 2 ^ 53 ->
  (forall p, Placeholder p ∈ shapes new_slide -> ph_type p <> Some PICTURE) ->
  let pic_width := width_at (Inches 5) in
  exists width height,
    shapes (add_image (F:=F) (Some image) new_slide)
    = shapes new_slide ++
      [Picture (Inches 6.5) (Inches 1.5) width height (image_filename image)] /\
    width <= Inches 3 /\ height <= Inches 5 /\
    (pic_width <= Inches 3 -> width = pic_width /\ height = Inches 5) /\
    (Inches 3 < pic_width ->
       width = Inches 3 /\ 0 <= height /\
       let kept := (inject_Z (Inches 3) * inject_Z (Inches 5) / inject_Z pic_width)%Q in
       (kept * (1 - u) * (1 - u) - 1 < inject_Z height /\
        inject_Z height <= kept * (1 + u) * (1 + u))%Q).
Proof.
  intros Himage Hrange Hfree pic_width.
  rewrite add_image_without_placeholder by done.
  unfold fallback_picture. rewrite Himage. fold pic_width.
  assert (pic_width < 2 ^ 53) as Hbelow by exact Hrange.
  clearbody pic_width. clear Hrange.
  unfold fit_width. rewrite Inches_3, Inches_5 in *.
  destruct (Z.gtb_spec pic_width 2743200) as [Hgt|Hle].
  - destruct (fit_width_scaled (F:=F) pic_width) as ([Hh0 Hh1] & Hkept); [lia|].
    eexists _, _. split; [reflexivity|].
    split; [lia|]. split; [exact Hh1|]. split; [lia|].
    intros _. split; [done|]. split; [exact Hh0|exact Hkept].
  - eexists _, _. split; [reflexivity|].
    split; [exact Hle|]. split; [lia|]. split; [done|lia].
Qed.

Lemma fallback_picture_within_bounds_witness :
  exists width height,
    shapes (add_image (F:=Q) (Some wide) (new_slide_from title_and_content))
    = shapes (new_slide_from title_and_content) ++
      [Picture (Inches 6.5) (Inches 1.5) width height (image_filename wide)] /\
    width <= Inches 3 /\ height <= Inches 5 /\
    (Inches 5 * 7 / 5 <= Inches 3 -> width = Inches 5 * 7 / 5 /\ height = Inches 5) /\
    (Inches 3 < Inches 5 * 7 / 5 ->
       width = Inches 3 /\ 0 <= height /\
       let kept := (inject_Z (Inches 3) * inject_Z (Inches 5) / inject_Z (Inches 5 * 7 / 5))%Q in
       (kept * (1 - u) * (1 - u) - 1 < inject_Z height /\
        inject_Z height <= kept * (1 + u) * (1 + u))%Q).
Proof.
  apply (fallback_picture_within_bounds (F:=Q) (laws:=exact_accurate) wide
           (fun height => height * 7 / 5) (new_slide_from title_and_content)).
  - reflexivity.
  - vm_compute. reflexivity.
  - intros p Hp. cbn in Hp.
    apply elem_of_cons in Hp as [[= ->]|Hp]; [discriminate|].
    apply elem_of_cons in Hp as [[= ->]|Hp]; [discriminate|].
    by apply elem_of_nil in Hp.
Defined.

End SlideComposerProps.

(** ** The mass-update tool *)

Section MassUpdateProps.
Import PyStr PyDict MassUpdate UpdateNotions.

(** *** Dictionaries *)

Lemma dict_get_set_eq {V} (d : list (string * V)) key val :
  dict_get (dict_set key val d) key = Some val.
Proof.
  induction d as [|[k v] d IH]; simpl.
  - by rewrite String.eqb_refl.
  - destruct (String.eqb k key) eqn:E; simpl; rewrite E; [done|apply IH].
Qed.

Lemma dict_get_set_ne {V} (d : list (string * V)) key val other :
  key <> other -> dict_get (dict_set key val d) other = dict_get d other.
Proof.
  intros Hne. induction d as [|[k v] d IH]; simpl.
  - apply String.eqb_neq in Hne. by rewrite Hne.
  - destruct (String.eqb k key) eqn:E; simpl.
    + apply String.eqb_eq in E. subst k.
      apply String.eqb_neq in Hne. by rewrite Hne.
    + destruct (String.eqb k other); [done|apply IH].
Qed.

Lemma dict_set_keys {V} (d : list (string * V)) key val :
  (dict_set key val d).*1 = if decide (key ∈ d.*1) then d.*1 else d.*1 ++ [key].
Proof.
  induction d as [|[k v] d IH].
  - cbn [dict_set fmap list_fmap].
    match goal with |- context [decide ?P] => destruct (decide P) as [Hin|_] end;
      [by apply elem_of_nil in Hin|done].
  - cbn [dict_set]. destruct (String.eqb k key) eqn:E.
    + apply String.eqb_eq in E. subst k. cbn [fmap list_fmap fst].
      match goal with |- context [decide ?P] => destruct (decide P) as [_|Hin] end;
        [reflexivity|].
      exfalso. apply Hin. by left.
    + apply String.eqb_neq in E. cbn [fmap list_fmap fst].
      change (list_fmap _ _ fst (dict_set key val d)) with ((dict_set key val d).*1).
      change (list_fmap _ _ fst d) with (d.*1).
      rewrite IH. destruct (decide (key ∈ d.*1)) as [Hin|Hout].
      * match goal with |- context [decide ?P] => destruct (decide P) as [_|Hin'] end;
          [reflexivity|].
        exfalso. apply Hin'. by right.
      * match goal with |- context [decide ?P] => destruct (decide P) as [Hin'|_] end;
          [|reflexivity].
        apply elem_of_cons in Hin' as [?|?]; congruence.
Qed.

Lemma dict_set_nodup {V} (d : list (string * V)) key val :
  NoDup d.*1 -> NoDup (dict_set key val d).*1.
Proof.
  intros Hd. rewrite dict_set_keys. case_decide; [done|].
  apply NoDup_app. split; [done|]. split; [|apply NoDup_singleton].
  intros x Hx Hx'. apply list_elem_of_singleton in Hx'. by subst.
Qed.

Lemma dict_get_elem {V} (d : list (string * V)) key val :
  dict_get d key = Some val -> (key, val) ∈ d.
Proof.
  induction d as [|[k v] d IH]; simpl; [done|].
  destruct (String.eqb k key) eqn:E.
  - apply String.eqb_eq in E. subst k. intros [= ->]. by left.
  - intros H. right. by apply IH.
Qed.

Lemma elem_dict_get {V} (d : list (string * V)) key val :
  NoDup d.*1 -> (key, val) ∈ d -> dict_get d key = Some val.
Proof.
  induction d as [|[k v] d IH]; simpl; intros Hnd Hin; [by apply elem_of_nil in Hin|].
  apply NoDup_cons in Hnd as [Hk Hnd].
  apply elem_of_cons in Hin as [[= <- <-]|Hin].
  - by rewrite String.eqb_refl.
  - destruct (String.eqb k key) eqn:E; [|by apply IH].
    apply String.eqb_eq in E. subst k. exfalso. apply Hk.
    apply list_elem_of_fmap. by exists (key, val).
Qed.

(** *** The loader *)

Lemma load_lines_app st idx l1 l2 :
  load_lines st idx (l1 ++ l2) = load_lines (load_lines st idx l1) (idx + length l1) l2.
Proof.
  revert st idx. induction l1 as [|raw l1 IH]; intros st idx; simpl.
  - by rewrite Nat.add_0_r.
  - rewrite IH. by rewrite Nat.add_succ_r.
Qed.

Lemma load_line_get st idx raw key :
  dict_get (replacements (load_line st idx raw)) key =
  match parse_line raw with
  | Entry k v => if String.eqb k key then Some v else dict_get (replacements st) key
  | _ => dict_get (replacements st) key
  end.
Proof.
  unfold load_line. destruct (parse_line raw) as [| | |k v]; simpl; try done.
  destruct (String.eqb k key) eqn:E.
  - apply String.eqb_eq in E. subst. apply dict_get_set_eq.
  - apply String.eqb_neq in E. by apply dict_get_set_ne.
Qed.

(** Lines that do not set [key] leave its value as it is. *)
Lemma load_lines_untouched st idx lines key :
  (forall raw, raw ∈ lines -> forall val, parse_line raw <> Entry key val) ->
  dict_get (replacements (load_lines st idx lines)) key = dict_get (replacements st) key.
Proof.
  revert st idx. induction lines as [|raw rest IH]; intros st idx Hno; simpl; [done|].
  rewrite IH by (intros raw' Hin; apply Hno; by right).
  rewrite load_line_get.
  destruct (parse_line raw) as [| | |k v] eqn:Hp; try done.
  destruct (String.eqb k key) eqn:E; [|done].
  apply String.eqb_eq in E. subst k. exfalso. by apply (Hno raw (list_elem_of_here _ _) v).
Qed.

Lemma load_lines_last_wins st idx pre raw post key val :
  parse_line raw = Entry key val ->
  (forall raw', raw' ∈ post -> forall val', parse_line raw' <> Entry key val') ->
  dict_get (replacements (load_lines st idx (pre ++ raw :: post))) key = Some val.
Proof.
  intros Hraw Hpost. rewrite load_lines_app. simpl.
  rewrite load_lines_untouched by done.
  rewrite load_line_get, Hraw. by rewrite String.eqb_refl.
Qed.

Lemma load_lines_nodup st idx lines :
  NoDup (replacements st).*1 -> NoDup (replacements (load_lines st idx lines)).*1.
Proof.
  revert st idx. induction lines as [|raw rest IH]; intros st idx Hst; simpl; [done|].
  apply IH. unfold load_line. destruct (parse_line raw); simpl; try done.
  by apply dict_set_nodup.
Qed.

(** When the loop warns. *)
Lemma load_line_warned st idx raw i key :
  (i, key) ∈ duplicates (load_line st idx raw) <->
  (i, key) ∈ duplicates st \/
  (i = idx /\ exists val previous,
     parse_line raw = Entry key val /\
     dict_get (replacements st) key = Some previous /\ previous <> val).
Proof.
  unfold load_line. destruct (parse_line raw) as [| | |k v] eqn:Hp; simpl.
  1-3: split; [by left|intros [?|(_ & ? & ? & ? & _)]; done].
  destruct (dict_get (replacements st) k) as [previous|] eqn:Hget.
  - destruct (String.eqb previous v) eqn:E; simpl.
    + apply String.eqb_eq in E. subst v.
      split; [by left|]. intros [?|(_ & val & previous' & [= <- <-] & Hg & Hne)]; [done|].
      rewrite Hget in Hg. congruence.
    + apply String.eqb_neq in E. rewrite elem_of_app, list_elem_of_singleton.
      split.
      * intros [?|[= -> ->]]; [by left|]. right. split; [done|]. by exists v, previous.
      * intros [?|(-> & val & previous' & [= <- <-] & _)]; [by left|by right].
  - simpl. split; [by left|].
    intros [?|(_ & val & previous' & [= <- <-] & Hg & _)]; [done|].
    rewrite Hget in Hg. congruence.
Qed.

Lemma load_lines_warned lines : forall st idx i key,
  (i, key) ∈ duplicates (load_lines st idx lines) <->
  (i, key) ∈ duplicates st \/
  exists pre raw post val previous,
    lines = pre ++ raw :: post /\ i = (idx + length pre)%nat /\
    parse_line raw = Entry key val /\
    dict_get (replacements (load_lines st idx pre)) key = Some previous /\
    previous <> val.
Proof.
  induction lines as [|raw0 rest IH]; intros st idx i key; simpl.
  - split; [by left|]. intros [?|(pre & raw & post & ? & ? & Hl & _)]; [done|].
    by destruct pre.
  - rewrite IH, load_line_warned. split.
    + intros [[?|(-> & val & previous & Hp & Hg & Hne)]|
              (pre & raw & post & val & previous & -> & -> & Hp & Hg & Hne)].
      * by left.
      * right. exists [], raw0, rest, val, previous. simpl.
        by rewrite Nat.add_0_r.
      * right. exists (raw0 :: pre), raw, post, val, previous. simpl.
        by rewrite Nat.add_succ_r.
    + intros [?|(pre & raw & post & val & previous & Hl & -> & Hp & Hg & Hne)];
        [by left; left|].
      destruct pre as [|raw1 pre]; simpl in *.
      * injection Hl as <- <-. left. right. rewrite Nat.add_0_r.
        split; [done|]. by exists val, previous.
      * injection Hl as <- ->. right.
        exists pre, raw, post, val, previous. by rewrite Nat.add_succ_r.
Qed.

Lemma inverse_pairs_nil d :
  NoDup d.*1 -> (inverse_pairs d = [] <-> ~ has_inverse_pair d).
Proof.
  intros Hnd. unfold inverse_pairs, has_inverse_pair. split.
  - intros Hnil (a & b & Hab & Hba).
    assert ((a, b) ∈ filter (fun '(a, b) => dict_get d b = Some a) d) as Hin.
    { apply list_elem_of_filter. split; [done|by apply dict_get_elem]. }
    rewrite Hnil in Hin. by apply elem_of_nil in Hin.
  - intros Hno. destruct (filter _ d) as [|[a b] l] eqn:Hf; [done|].
    exfalso. apply Hno. exists a, b.
    assert ((a, b) ∈ filter (fun '(a, b) => dict_get d b = Some a) d) as Hin
      by (rewrite Hf; by left).
    apply list_elem_of_filter in Hin as [Hba Hin]. split; [|done].
    by apply elem_dict_get.
Qed.

(** C9, as stated, fails in its warning part: the second of two identical
    lines sets a key that the first has set, and no warning is reported. *)
Lemma duplicate_without_warning :
  lines_of repeated_line = ["k=v"; "k=v"] /\
  warned (load_replacements repeated_line) = [] /\
  ~ warns_each_duplicate repeated_line.
Proof.
  split; [reflexivity|]. split; [reflexivity|].
  intros Hwarn.
  specialize (Hwarn ["k=v"] "k=v" [] "k" "v" eq_refl eq_refl).
  assert (warned (load_replacements repeated_line) = []) as Hnone by reflexivity.
  rewrite Hnone in Hwarn. eapply elem_of_nil, Hwarn. by exists "v".
Qed.

(** C9, amended. For every text of a configuration file, in the mapping
    that [load_replacements] builds the last value set for a key wins, and a
    key that no line sets is absent; a warning is reported for exactly the
    lines that set a key already present with a different value; and the call
    raises, returning no mapping, exactly when the mapping has keys A and B,
    which may be the same key, with A mapped to B and B mapped to A. Otherwise
    it returns the mapping. *)
Theorem load_replacements_last_wins_and_rejects_inverses (text : string) :
  let lines := lines_of text in
  let report := load_replacements text in
  let mapping := mapping_after lines in
  (forall pre raw post key val,
     lines = pre ++ raw :: post ->
     parse_line raw = Entry key val ->
     (forall raw', raw' ∈ post -> forall val', parse_line raw' <> Entry key val') ->
     dict_get mapping key = Some val) /\
  (forall key,
     (forall raw, raw ∈ lines -> forall val, parse_line raw <> Entry key val) ->
     dict_get mapping key = None) /\
  (forall idx key,
     (idx, key) ∈ warned report <->
     exists pre raw post val previous,
       lines = pre ++ raw :: post /\ idx = S (length pre) /\
       parse_line raw = Entry key val /\
       dict_get (mapping_after pre) key = Some previous /\ previous <> val) /\
  (has_inverse_pair mapping -> exists inverses, outcome report = RaisesValueError inverses) /\
  (~ has_inverse_pair mapping -> outcome report = Returns mapping).
Proof.
  intros lines report mapping.
  assert (NoDup mapping.*1) as Hnd by (apply load_lines_nodup; constructor).
  split; [|split; [|split; [|split]]].
  - intros pre raw post key val Hl Hraw Hpost. subst mapping. unfold mapping_after.
    rewrite Hl. by apply load_lines_last_wins.
  - intros key Hno. subst mapping. unfold mapping_after.
    by rewrite load_lines_untouched.
  - intros idx key. subst report. unfold load_replacements. cbn [warned].
    fold lines. rewrite load_lines_warned. split.
    + intros [Hin|Hex]; [by apply elem_of_nil in Hin|exact Hex].
    + intros Hex. right. exact Hex.
  - intros Hinv. subst report. unfold load_replacements. cbn [outcome]. fold lines.
    change (replacements (load_lines initial 1 lines)) with mapping.
    destruct (inverse_pairs mapping) as [|pair l] eqn:Hpairs; [|eauto].
    apply inverse_pairs_nil in Hpairs; done.
  - intros Hinv. subst report. unfold load_replacements. cbn [outcome]. fold lines.
    change (replacements (load_lines initial 1 lines)) with mapping.
    apply inverse_pairs_nil in Hinv; [|done]. by rewrite Hinv.
Qed.

Lemma load_replacements_last_wins_and_rejects_inverses_witness :
  exists inverses, outcome (load_replacements swapped_pair) = RaisesValueError inverses.
Proof.
  destruct (load_replacements_last_wins_and_rejects_inverses swapped_pair)
    as (_ & _ & _ & Hraise & _).
  apply Hraise. exists "old", "new". split; reflexivity.
Defined.

(** *** The replacement *)

(** A key that does not occur is not replaced. *)
Lemma sub_from_absent old replacement s :
  str_in old s = false -> sub_from old replacement 0 s = s.
Proof.
  induction s as [|c s IH]; intros Hin.
  - simpl in *. destruct old; [discriminate|done].
  - cbn [str_in] in Hin. apply orb_false_iff in Hin as [Hpre Hrest].
    cbn [sub_from]. rewrite Hpre. by rewrite IH.
Qed.

Lemma replace_all_absent agn replacements text new_text :
  any_key_in replacements text = false ->
  replace_all agn replacements text = Some new_text -> new_text = text.
Proof.
  unfold any_key_in.
  induction replacements as [|[old new] rest IH]; intros Hno; cbn [replace_all existsb] in *.
  - by intros [= <-].
  - apply orb_false_iff in Hno as [Hold Hrest]. unfold sub.
    destruct (expand agn new old) as [replacement|]; [|done].
    rewrite sub_from_absent by done. by apply IH.
Qed.

(** A text without control characters is stored as it is. *)
Lemma escape_plain (text : string) : has_control text = false -> _escape text = text.
Proof.
  induction text as [|c text IH]; [done|]. cbn [has_control _escape].
  intros H. apply orb_false_iff in H as [-> H]. by rewrite IH.
Qed.

Lemma texts_blank (others : list run) :
  texts (set_run_text EmptyString <$> others) = (fun _ => EmptyString) <$> others.
Proof. unfold texts. induction others as [|r others IH]; [done|]. cbn. by f_equal. Qed.

Lemma fonts_blank text (others : list run) :
  fonts (set_run_text text <$> others) = fonts others.
Proof. unfold fonts. induction others as [|r others IH]; [done|]. cbn. by f_equal. Qed.

Section Paragraph.
Variable agn : bool.
Variable replacements : list (string * string).

(** What [process_paragraph] does when it returns. *)
Lemma process_paragraph_processed runs updated after updated' :
  process_paragraph agn replacements runs updated = (after, Some updated') ->
  paragraph_processed agn replacements runs after /\
  updated' = updated || alters agn replacements runs.
Proof.
  unfold process_paragraph, paragraph_processed, alters.
  destruct runs as [|first others].
  { intros [= <- <-]. rewrite orb_false_r. repeat split; try done. }
  destruct (any_key_in replacements (joined (first :: others))) eqn:Hany; cbn [negb].
  - destruct (replace_all agn replacements (joined (first :: others))) as [nt|] eqn:Hall;
      [|done].
    destruct (String.eqb_spec nt (joined (first :: others))) as [Heq|Hne]; cbn [negb].
    + intros [= <- <-]. rewrite orb_false_r. split; [|done].
      split; [done|]. split; [done|]. split; [done|]. split; [|by eauto].
      intros new_text [= <-]. split; [done|]. intros Hne. by destruct Hne.
    + intros [= <- <-]. rewrite orb_true_r. split; [|done].
      split. { cbn. by rewrite length_fmap. }
      split. { unfold fonts. cbn [fmap list_fmap]. f_equal. apply fonts_blank. }
      split; [done|]. split; [|by eauto].
      assert (texts (set_run_text nt first :: (set_run_text EmptyString <$> others))
              = _escape nt :: ((fun _ => EmptyString) <$> others)) as Htexts.
      { unfold texts. cbn [fmap list_fmap]. f_equal. apply texts_blank. }
      intros new_text [= <-]. split; [intros E; by destruct Hne|]. intros _.
      split; [exact Htexts|]. intros Hplain. by rewrite Htexts, escape_plain.
  - intros [= <- <-].
    assert (forall new_text,
              replace_all agn replacements (joined (first :: others)) = Some new_text ->
              new_text = joined (first :: others)) as Hsame
      by (intros new_text; by apply replace_all_absent).
    split.
    + split; [done|]. split; [done|]. split; [done|]. split; [|done].
      intros new_text Hall. split; [done|]. intros Hne. by destruct Hne, (Hsame _ Hall).
    + destruct (replace_all agn replacements (joined (first :: others))) as [nt|] eqn:Hall;
        [|by rewrite orb_false_r].
      rewrite (Hsame nt eq_refl), String.eqb_refl. by rewrite orb_false_r.
Qed.

(** A call that raises has written nothing. *)
Lemma process_paragraph_raises runs updated after :
  process_paragraph agn replacements runs updated = (after, None) -> after = runs.
Proof.
  unfold process_paragraph. destruct runs as [|first others]; [done|].
  destruct (negb _); [done|].
  destruct (replace_all agn replacements _) as [nt|]; [|by intros [= <-]].
  by destruct (negb _).
Qed.

End Paragraph.

(** *** The loops *)

Section Loops.
Context {A X : Type}.
Variable R : X -> X -> Prop.
Variable h : X -> bool.

Lemma upto_all (l l' : list X) : Forall2 R l l' -> upto R l l'.
Proof. induction 1; constructor; done. Qed.

Lemma upto_app_all (l l' k k' : list X) :
  Forall2 R l l' -> upto R k k' -> upto R (l ++ k) (l' ++ k').
Proof. induction 1; intros Hk; [done|]. cbn. constructor; auto. Qed.

Lemma upto_app_stop (l l' k : list X) : upto R l l' -> upto R (l ++ k) (l' ++ k).
Proof. induction 1; [constructor|]. cbn. by constructor. Qed.

Lemma upto_processed_until (l l' : list X) : upto R l l' -> processed_until R l l'.
Proof.
  induction 1 as [l|x x' l l' Hx _ (n & Hn & Hrest)].
  - exists 0%nat. split; [constructor|done].
  - exists (S n). cbn. split; [by constructor|done].
Qed.

Lemma for_each_visits (body : A -> bool -> A * option bool) (P : A -> list X) :
  visits body P R h -> visits (for_each body) (fun xs => concat (P <$> xs)) R h.
Proof.
  intros Hbody xs. induction xs as [|x xs IH]; intros updated.
  - cbn. split; [constructor|by rewrite orb_false_r].
  - cbn [for_each]. specialize (Hbody x updated).
    change (concat (P <$> x :: xs)) with (P x ++ concat (P <$> xs)).
    destruct (body x updated) as [x' [updated'|]].
    + destruct Hbody as [Hx ->].
      specialize (IH (updated || existsb h (P x))).
      destruct (for_each body xs (updated || existsb h (P x))) as [xs' [updated''|]].
      * destruct IH as [Hxs ->].
        change (concat (P <$> x' :: xs')) with (P x' ++ concat (P <$> xs')).
        split; [by apply Forall2_app|]. by rewrite existsb_app, orb_assoc.
      * change (concat (P <$> x' :: xs')) with (P x' ++ concat (P <$> xs')).
        by apply upto_app_all.
    + change (concat (P <$> x' :: xs)) with (P x' ++ concat (P <$> xs)).
      by apply upto_app_stop.
Qed.

Lemma for_some_visits (body : A -> bool -> A * option bool) (P : A -> list X) :
  visits body P R h ->
  visits (for_some body) (fun o => match o with Some a => P a | None => [] end) R h.
Proof.
  intros Hbody [a|] updated.
  - cbn [for_some]. specialize (Hbody a updated).
    by destruct (body a updated) as [a' [updated'|]].
  - cbn. split; [constructor|by rewrite orb_false_r].
Qed.

Lemma visits_ext (body : A -> bool -> A * option bool) (P P' : A -> list X) :
  (forall a, P' a = P a) -> visits body P R h -> visits body P' R h.
Proof.
  intros HP Hbody a updated. specialize (Hbody a updated).
  destruct (body a updated) as [a' [updated'|]]; by rewrite !HP.
Qed.

End Loops.

Lemma flatten_rows {A X} (f : A -> list X) (rows : list (list A)) :
  concat (concat (fmap (M:=list) (fmap (M:=list) f) rows))
  = concat ((fun row => concat (f <$> row)) <$> rows).
Proof.
  induction rows as [|row rows IH]; [done|].
  change (concat ((f <$> row) ++ concat (fmap (M:=list) (fmap (M:=list) f) rows))
          = concat (f <$> row) ++ concat ((fun row => concat (f <$> row)) <$> rows)).
  by rewrite concat_app, IH.
Qed.

Lemma concat_singletons {B} (l : list B) : concat ((fun x => [x]) <$> l) = l.
Proof. induction l as [|x l IH]; [done|]. cbn. by rewrite IH. Qed.

Section Visit.
Variable agn : bool.
Variable replacements : list (string * string).

#[local] Abbreviation processed := (paragraph_processed agn replacements).
#[local] Abbreviation altered := (alters agn replacements).

Lemma process_paragraph_visits :
  visits (process_paragraph agn replacements) (fun runs => [runs]) processed altered.
Proof.
  intros runs updated.
  destruct (process_paragraph agn replacements runs updated) as [after [updated'|]] eqn:Hrun.
  - apply process_paragraph_processed in Hrun as [Hafter ->].
    cbn [existsb]. rewrite orb_false_r. split; [|done]. constructor; [done|constructor].
  - apply process_paragraph_raises in Hrun as ->. constructor.
Qed.

Lemma process_frame_visits :
  visits (process_frame agn replacements) (fun frame => frame) processed altered.
Proof.
  apply (visits_ext _ _ _ (fun frame => concat ((fun runs => [runs]) <$> frame))).
  - intros frame. by rewrite concat_singletons.
  - apply for_each_visits, process_paragraph_visits.
Qed.

Lemma process_cell_visits :
  visits (process_cell agn replacements) cell_paragraphs processed altered.
Proof.
  intros c updated. unfold process_cell, cell_paragraphs.
  pose proof (for_some_visits _ _ _ _ process_frame_visits (cell_text_frame c) updated) as H.
  destruct (for_some _ _ _) as [tf [updated'|]]; cbn [cell_text_frame];
    by destruct (cell_text_frame c), tf.
Qed.

Lemma process_rows_visits :
  visits (for_each (for_each (process_cell agn replacements)))
    (fun rows => concat (concat (fmap (M:=list) (fmap (M:=list) cell_paragraphs) rows)))
    processed altered.
Proof.
  apply (visits_ext _ _ _ (fun rows => concat ((fun row => concat (cell_paragraphs <$> row))
                                                 <$> rows))).
  - intros rows. apply flatten_rows.
  - apply for_each_visits, for_each_visits, process_cell_visits.
Qed.

Lemma process_shape_visits :
  visits (process_shape agn replacements) shape_paragraphs processed altered.
Proof.
  intros sh updated. unfold process_shape, shape_paragraphs.
  pose proof (for_some_visits _ _ _ _ process_frame_visits (text_frame sh) updated) as Hf.
  assert (forall o : option (list (list run)),
            match o with Some a => a | None => [] end = default [] o) as Hdefault
    by (by intros []).
  cbv beta in Hf.
  destruct (for_some (process_frame agn replacements) (text_frame sh) updated)
    as [tf [updated'|]]; rewrite !Hdefault in Hf; cbn [text_frame table].
  - destruct Hf as [Hf ->]. destruct (table sh) as [| |rows]; cbn [text_frame table].
    + rewrite !app_nil_r. done.
    + rewrite !app_nil_r. by apply upto_all.
    + pose proof (process_rows_visits rows (updated || existsb altered (default [] (text_frame sh))))
        as Ht.
      destruct (for_each (for_each (process_cell agn replacements)) rows _)
        as [rows' [updated''|]]; cbn [text_frame table].
      * destruct Ht as [Ht ->]. split; [by apply Forall2_app|].
        by rewrite existsb_app, orb_assoc.
      * by apply upto_app_all.
  - by apply upto_app_stop.
Qed.

Lemma update_ppt_text_visits prs :
  match update_ppt_text agn prs replacements with
  | (memory, Some updated) =>
      Forall2 processed (paragraphs_of prs) (paragraphs_of memory) /\
      updated = existsb altered (paragraphs_of prs)
  | (memory, None) => upto processed (paragraphs_of prs) (paragraphs_of memory)
  end.
Proof.
  unfold update_ppt_text.
  pose proof (for_each_visits _ _ _ _
                (for_each_visits _ _ _ _ process_shape_visits) prs false) as H.
  cbv beta in H. unfold paragraphs_of. rewrite !flatten_rows.
  destruct (for_each (for_each (process_shape agn replacements)) prs false)
    as [memory [updated|]]; by rewrite ?flatten_rows.
Qed.

End Visit.

(** C8. For every paragraph of every text frame and table cell that
    [update_ppt_text] goes through, the number of runs is unchanged (and so
    is their formatting); when applying all the replacement patterns to the
    concatenation of the texts of the runs gives another text, that text is
    in the first run (as a run stores it: its control characters, if any,
    written out) and every subsequent run is empty; a paragraph whose text
    contains no replacement key is left as it was. A call that returns has
    gone through every paragraph of the presentation; a call that raises has
    gone through the paragraphs up to some point of the visit and left the
    others as they were. *)
Theorem update_ppt_text_rewrites_paragraphs
  (ascii_group_numbers : bool) (prs : presentation) (replacements : list (string * string)) :
  let run := update_ppt_text ascii_group_numbers prs replacements in
  processed_until (paragraph_processed ascii_group_numbers replacements)
    (paragraphs_of prs) (paragraphs_of run.1) /\
  (is_Some run.2 ->
   Forall2 (paragraph_processed ascii_group_numbers replacements)
     (paragraphs_of prs) (paragraphs_of run.1)).
Proof.
  intros run. subst run.
  pose proof (update_ppt_text_visits ascii_group_numbers replacements prs) as H.
  destruct (update_ppt_text ascii_group_numbers prs replacements) as [memory [updated|]];
    cbn [fst snd].
  - destruct H as [H _]. split; [|done]. by apply upto_processed_until, upto_all.
  - split; [by apply upto_processed_until|]. by intros [? [=]].
Qed.

Lemma update_ppt_text_rewrites_paragraphs_witness :
  Forall2 (paragraph_processed true [("Hello World", "Hi All"); ("FooBar", "BazQux")])
    (paragraphs_of one_slide)
    (paragraphs_of (update_ppt_text true one_slide
                      [("Hello World", "Hi All"); ("FooBar", "BazQux")]).1) /\
  processed_until (paragraph_processed true [("Hello World", "Hi All")])
    (paragraphs_of with_chart)
    (paragraphs_of (update_ppt_text true with_chart [("Hello World", "Hi All")]).1).
Proof.
  split.
  - apply (update_ppt_text_rewrites_paragraphs true one_slide
             [("Hello World", "Hi All"); ("FooBar", "BazQux")]).
    cbn. eauto.
  - apply (update_ppt_text_rewrites_paragraphs true with_chart [("Hello World", "Hi All")]).
Defined.

End MassUpdateProps.

(** ** The layout matcher, further *)

Section LayoutMatcherMore.
Import PyStr PyDict Pptx LayoutMatcher MatcherNotions.
Open Scope Z_scope.
#[local] Arguments any_in : simpl never.
#[local] Arguments excluded : simpl never.

Lemma exact_name_loop_member cfg layouts l :
  exact_name_loop cfg layouts = Some l -> l ∈ layouts.
Proof.
  induction layouts as [|x rest IH]; cbn [exact_name_loop]; [done|].
  destruct (any_in _ _); [intros H; right; by apply IH|].
  destruct (String.eqb _ _); [intros [= ->]; by left|intros H; right; by apply IH].
Qed.

Lemma best_loop_member score layouts l bs :
  best_loop score layouts None 0 = (Some l, bs) -> l ∈ layouts.
Proof.
  intros H. apply best_loop_origin in H as [[? _]|(x & Hx & _ & [= ->] & _)]; done.
Qed.

(** The scan of the fallback loop finds a title slot and a body-like slot. *)
Lemma fallback_scan phs : forall t b,
  fold_left fallback_step phs (t, b)
  = (t || existsb is_title_slot phs, b || existsb is_body_slot phs).
Proof.
  induction phs as [|p phs IH]; intros t b; simpl.
  - by rewrite !orb_false_r.
  - unfold fallback_step at 2, is_title_slot at 1, is_body_slot at 1.
    destruct (ph_type p) as [[]|]; simpl; rewrite IH; simpl;
      by rewrite ?orb_true_r, ?orb_false_r, ?orb_assoc.
Qed.

Lemma fallback_loop_find layouts :
  fallback_loop layouts = List.find has_title_and_body layouts.
Proof.
  induction layouts as [|l rest IH]; simpl; [done|].
  rewrite fallback_scan. simpl. unfold has_title_and_body at 1.
  destruct (existsb is_title_slot (placeholders l) && existsb is_body_slot (placeholders l));
    [done|apply IH].
Qed.

Lemma fallback_loop_member layouts l : fallback_loop layouts = Some l -> l ∈ layouts.
Proof.
  rewrite fallback_loop_find. intros H. apply List.find_some in H as [H _].
  by apply list_elem_of_In.
Qed.

Lemma ultimate_fallback_member layouts l : ultimate_fallback layouts = Some l -> l ∈ layouts.
Proof.
  unfold ultimate_fallback. destruct (1 <? length layouts)%nat.
  - intros H. by apply list_elem_of_lookup_2 in H.
  - destruct (0 <? length layouts)%nat; [|done].
    intros H. by apply list_elem_of_lookup_2 in H.
Qed.

(** X1. Whatever [find_layout_by_type] returns is one of the layouts it was
    given. *)
Theorem find_layout_returns_member (layouts : list layout) (ty : string) (l : layout) :
  find_layout_by_type layouts ty = Some l -> l ∈ layouts.
Proof.
  unfold find_layout_by_type. destruct (dict_get PREDEFINED_LAYOUTS ty) as [cfg|]; [|done].
  destruct (exact_name_loop cfg layouts) as [x|] eqn:Hexact.
  { intros [= ->]. by apply exact_name_loop_member in Hexact. }
  rewrite keyword_loop_best, structure_loop_best.
  destruct (best_loop (fun l => keyword_score (keywords cfg) (lower (name l))) layouts None 0)
    as [kbest ks] eqn:Hkey.
  destruct (best_loop (fun l => structure_score ty (scan l)) layouts None 0)
    as [sbest ss] eqn:Hstr.
  destruct (truthy kbest && (ks >? 0)) eqn:Hk.
  { intros ->. by apply best_loop_member in Hkey. }
  destruct sbest as [t|]; cbn [truthy].
  { intros [= ->]. by apply best_loop_member in Hstr. }
  destruct (fallback_loop layouts) as [f|] eqn:Hfall.
  - intros [= ->]. by apply fallback_loop_member.
  - apply ultimate_fallback_member.
Qed.

Lemma find_layout_returns_member_witness : with_picture ∈ [mango_cover; with_picture].
Proof.
  apply (find_layout_returns_member [mango_cover; with_picture] "title_image_content").
  reflexivity.
Defined.

Lemma find_layout_total (layouts : list layout) (ty : string) (cfg : layout_config) :
  dict_get PREDEFINED_LAYOUTS ty = Some cfg -> layouts <> [] ->
  exists l, find_layout_by_type layouts ty = Some l.
Proof.
  intros Hty Hne. unfold find_layout_by_type. rewrite Hty.
  destruct (exact_name_loop cfg layouts); [eauto|].
  destruct (keyword_loop _ _ _ _) as [[k|] ks]; cbn [truthy andb].
  - destruct (ks >? 0); [eauto|].
    destruct (structure_loop _ _ _ _) as [[t|] ts]; cbn [truthy]; [eauto|].
    destruct (fallback_loop layouts); [eauto|].
    destruct layouts as [|a [|b rest]]; [done|eauto..].
  - destruct (structure_loop _ _ _ _) as [[t|] ts]; cbn [truthy]; [eauto|].
    destruct (fallback_loop layouts); [eauto|].
    destruct layouts as [|a [|b rest]]; [done|eauto..].
Qed.

(** X2. [find_layout_by_type] returns [None] exactly when the layout type is
    not a key of the catalog or there is no layout at all: for a known type,
    every template with at least one layout gets a layout. *)
Theorem find_layout_none_iff (layouts : list layout) (ty : string) :
  find_layout_by_type layouts ty = None <->
  dict_get PREDEFINED_LAYOUTS ty = None \/ layouts = [].
Proof.
  unfold find_layout_by_type. destruct (dict_get PREDEFINED_LAYOUTS ty) as [cfg|];
    [|split; [by left|done]].
  split.
  - destruct (exact_name_loop cfg layouts); [done|].
    destruct (keyword_loop _ _ _ _) as [[k|] ks]; cbn [truthy andb].
    + destruct (ks >? 0); [done|].
      destruct (structure_loop _ _ _ _) as [[t|] ts]; cbn [truthy]; [done|].
      destruct (fallback_loop layouts); [done|].
      destruct layouts as [|a [|b rest]]; [by right|done..].
    + destruct (structure_loop _ _ _ _) as [[t|] ts]; cbn [truthy]; [done|].
      destruct (fallback_loop layouts); [done|].
      destruct layouts as [|a [|b rest]]; [by right|done..].
  - intros [?| ->]; done.
Qed.

(** X3. The keyword tier. For a layout type of the catalog, when no
    admissible layout has the exact name and some admissible layout has a
    keyword of the type in its lowercase name, [find_layout_by_type] returns
    the admissible layout whose name contains the most keywords, the first of
    them in iteration order. *)
Theorem keyword_tier_first_best (ty : string) (cfg : layout_config) (layouts : list layout) :
  dict_get PREDEFINED_LAYOUTS ty = Some cfg ->
  (forall l, l ∈ layouts -> excluded l = false -> exact_name cfg l = false) ->
  (exists l, l ∈ layouts /\ excluded l = false /\ keyword_hit cfg l = true) ->
  exists pre l post,
    layouts = pre ++ l :: post /\
    find_layout_by_type layouts ty = Some l /\
    excluded l = false /\ keyword_hit cfg l = true /\
    (forall z, z ∈ pre -> excluded z = false ->
       layout_keyword_score cfg z < layout_keyword_score cfg l) /\
    (forall z, z ∈ post -> excluded z = false ->
       layout_keyword_score cfg z <= layout_keyword_score cfg l).
Proof.
  intros Hty Hexact (x & Hx & Hxe & Hxk).
  destruct (best_loop_first_max (layout_keyword_score cfg) layouts None 0)
    as (pre & y & post & -> & Hye & Hy0 & Hpre & Hpost & Hres).
  { exists x. repeat split; [done..|]. unfold keyword_hit in Hxk.
    unfold layout_keyword_score. lia. }
  exists pre, y, post. repeat split; try done.
  - unfold find_layout_by_type. rewrite Hty.
    rewrite exact_name_loop_none by done.
    rewrite keyword_loop_best.
    change (fun l => keyword_score (keywords cfg) (lower (name l)))
      with (layout_keyword_score cfg).
    rewrite Hres. cbn [truthy andb].
    destruct (layout_keyword_score cfg y >? 0) eqn:E; [done|lia].
  - unfold keyword_hit. unfold layout_keyword_score in Hy0. lia.
Qed.

Lemma keyword_tier_first_best_witness :
  exists pre l post,
    [thank_you; big_picture; picture_with_caption] = pre ++ l :: post /\
    find_layout_by_type [thank_you; big_picture; picture_with_caption] "title_image" = Some l /\
    excluded l = false /\
    keyword_hit {| cfg_name := "Title and Image";
                   keywords := ["picture"; "image"; "photo"; "blank"];
                   has_image := true; content_boxes := 0; prefer_simple := true |} l = true /\
    (forall z, z ∈ pre -> excluded z = false ->
       layout_keyword_score {| cfg_name := "Title and Image";
                               keywords := ["picture"; "image"; "photo"; "blank"];
                               has_image := true; content_boxes := 0;
                               prefer_simple := true |} z
       < layout_keyword_score {| cfg_name := "Title and Image";
                                 keywords := ["picture"; "image"; "photo"; "blank"];
                                 has_image := true; content_boxes := 0;
                                 prefer_simple := true |} l) /\
    (forall z, z ∈ post -> excluded z = false ->
       layout_keyword_score {| cfg_name := "Title and Image";
                               keywords := ["picture"; "image"; "photo"; "blank"];
                               has_image := true; content_boxes := 0;
                               prefer_simple := true |} z
       <= layout_keyword_score {| cfg_name := "Title and Image";
                                  keywords := ["picture"; "image"; "photo"; "blank"];
                                  has_image := true; content_boxes := 0;
                                  prefer_simple := true |} l).
Proof.
  apply keyword_tier_first_best; [reflexivity| |].
  - intros l Hl.
    apply elem_of_cons in Hl as [-> | Hl]; [intros [=]|].
    apply elem_of_cons in Hl as [-> | Hl]; [reflexivity|].
    apply elem_of_cons in Hl as [-> | Hl]; [reflexivity|].
    by apply elem_of_nil in Hl.
  - exists big_picture. split; [apply list_elem_of_further, list_elem_of_here|].
    split; reflexivity.
Defined.

(** X4. A template all of whose layouts are excluded still gets a layout:
    for a layout type of the catalog, [find_layout_by_type] then returns the
    first layout with a title slot and a body-like slot; without such a
    layout, the second layout; with a single layout, that one. *)
Theorem all_excluded_uses_fallback (ty : string) (cfg : layout_config) (layouts : list layout) :
  dict_get PREDEFINED_LAYOUTS ty = Some cfg ->
  (forall l, l ∈ layouts -> excluded l = true) ->
  find_layout_by_type layouts ty =
  match List.find has_title_and_body layouts with
  | Some l => Some l
  | None =>
      match layouts with
      | _ :: second :: _ => Some second
      | [only] => Some only
      | [] => None
      end
  end.
Proof.
  intros Hty Hall. unfold find_layout_by_type. rewrite Hty.
  rewrite exact_name_loop_none by (intros z Hz Hze; rewrite Hall in Hze; done).
  rewrite keyword_loop_best, structure_loop_best.
  rewrite !best_loop_low by (intros z Hz Hze; rewrite Hall in Hze; done).
  cbn [truthy andb]. rewrite fallback_loop_find.
  destruct (List.find has_title_and_body layouts); [done|].
  by destruct layouts as [|a [|b rest]].
Qed.

Lemma all_excluded_uses_fallback_witness :
  find_layout_by_type [thank_you; mango_cover; section_divider] "title_image"
  = Some mango_cover.
Proof.
  rewrite (all_excluded_uses_fallback "title_image"
             {| cfg_name := "Title and Image";
                keywords := ["picture"; "image"; "photo"; "blank"];
                has_image := true; content_boxes := 0; prefer_simple := true |}).
  - reflexivity.
  - reflexivity.
  - intros l Hl.
    apply elem_of_cons in Hl as [-> | Hl]; [reflexivity|].
    apply elem_of_cons in Hl as [-> | Hl]; [reflexivity|].
    apply elem_of_cons in Hl as [-> | Hl]; [reflexivity|].
    by apply elem_of_nil in Hl.
Defined.

(** X5. What the structural scan of a layout computes: whether there is a
    title slot, the number of BODY and OBJECT slots, whether there is a picture
    slot, and the number of all slots. A slot whose kind cannot be read counts
    in the total and nowhere else. *)
Theorem scan_counts (l : layout) :
  scan l =
  {| has_title := existsb is_title_slot (placeholders l);
     body_count := Z.of_nat (length (List.filter is_body_slot (placeholders l)));
     has_picture := existsb is_picture_slot (placeholders l);
     placeholder_count := Z.of_nat (length (placeholders l)) |}.
Proof.
  unfold scan.
  assert (forall phs st,
            fold_left scan_step phs st =
            {| has_title := has_title st || existsb is_title_slot phs;
               body_count := body_count st + Z.of_nat (length (List.filter is_body_slot phs));
               has_picture := has_picture st || existsb is_picture_slot phs;
               placeholder_count := placeholder_count st + Z.of_nat (length phs) |}) as Hfold.
  { induction phs as [|p phs IH]; intros [t b pic n]; cbn [fold_left].
    - cbn. by rewrite !orb_false_r, !Z.add_0_r.
    - rewrite IH. unfold scan_step, is_title_slot, is_body_slot, is_picture_slot.
      cbn [existsb List.filter length].
      destruct (ph_type p) as [[]|]; cbn [has_title body_count has_picture placeholder_count
                                          orb length];
        f_equal; rewrite ?orb_true_r, ?orb_false_r; try done; lia. }
  rewrite Hfold. cbn [has_title body_count has_picture placeholder_count orb]. f_equal.
Qed.

Lemma scan_step_as_other st p : scan_step st (as_other p) = scan_step st p.
Proof. unfold scan_step, as_other. by destruct (ph_type p) as [[]|]. Qed.

Lemma scan_tolerant l : scan (tolerant l) = scan l.
Proof.
  unfold scan, tolerant. cbn [placeholders].
  generalize ({| has_title := false; body_count := 0; has_picture := false;
                 placeholder_count := 0 |}).
  induction (placeholders l) as [|p phs IH]; intros st; [done|].
  cbn [fmap list_fmap fold_left]. rewrite scan_step_as_other. apply IH.
Qed.

Lemma existsb_as_other (f : placeholder -> bool) phs :
  (forall p, f (as_other p) = f p) ->
  existsb f (as_other <$> phs) = existsb f phs.
Proof.
  intros Hf. induction phs as [|p phs IH]; [done|].
  cbn [fmap list_fmap existsb]. by rewrite Hf, IH.
Qed.

Lemma has_title_and_body_tolerant l : has_title_and_body (tolerant l) = has_title_and_body l.
Proof.
  unfold has_title_and_body, tolerant. cbn [placeholders].
  rewrite !existsb_as_other; [done|..];
    intros p; unfold is_title_slot, is_body_slot, as_other; by destruct (ph_type p) as [[]|].
Qed.

Lemma excluded_tolerant l : excluded (tolerant l) = excluded l.
Proof. done. Qed.

Lemma exact_name_loop_tolerant cfg layouts :
  exact_name_loop cfg (tolerant <$> layouts) = tolerant <$> exact_name_loop cfg layouts.
Proof.
  induction layouts as [|l rest IH]; [done|].
  cbn [fmap list_fmap exact_name_loop]. cbn [tolerant name].
  destruct (any_in exclude_patterns (lower (name l))); [exact IH|].
  destruct (String.eqb _ _); [done|exact IH].
Qed.

Lemma best_loop_tolerant (score : layout -> Z) layouts :
  (forall l, score (tolerant l) = score l) ->
  forall best bs,
    best_loop score (tolerant <$> layouts) (tolerant <$> best) bs
    = (tolerant <$> fst (best_loop score layouts best bs),
       snd (best_loop score layouts best bs)).
Proof.
  intros Hscore. induction layouts as [|l rest IH]; intros best bs; [done|].
  cbn [fmap list_fmap best_loop]. rewrite excluded_tolerant, Hscore.
  destruct (excluded l); [apply IH|].
  destruct (score l >? bs); [apply (IH (Some l))|apply IH].
Qed.

Lemma fallback_loop_tolerant layouts :
  fallback_loop (tolerant <$> layouts) = tolerant <$> fallback_loop layouts.
Proof.
  rewrite !fallback_loop_find.
  induction layouts as [|l rest IH]; [done|].
  cbn [fmap list_fmap List.find]. rewrite has_title_and_body_tolerant.
  destruct (has_title_and_body l); [done|exact IH].
Qed.

(** X6. A slot whose kind cannot be read is treated as a slot of another
    kind: reading every such slot as [OTHER] changes nothing in the choice of
    [find_layout_by_type]. *)
Theorem unreadable_slots_are_other (layouts : list layout) (ty : string) :
  find_layout_by_type (tolerant <$> layouts) ty
  = tolerant <$> find_layout_by_type layouts ty.
Proof.
  unfold find_layout_by_type. destruct (dict_get PREDEFINED_LAYOUTS ty) as [cfg|]; [|done].
  rewrite exact_name_loop_tolerant.
  destruct (exact_name_loop cfg layouts) as [x|]; [done|]. cbn [fmap option_fmap option_map].
  rewrite !keyword_loop_best, !structure_loop_best.
  rewrite (best_loop_tolerant (fun l => keyword_score (keywords cfg) (lower (name l)))
             layouts (fun l => eq_refl) None).
  rewrite (best_loop_tolerant (fun l => structure_score ty (scan l)) layouts
             (fun l => f_equal (structure_score ty) (scan_tolerant l)) None).
  destruct (best_loop (fun l => keyword_score (keywords cfg) (lower (name l))) layouts None 0)
    as [kbest ks].
  destruct (best_loop (fun l => structure_score ty (scan l)) layouts None 0) as [sbest ss].
  cbn [fst snd].
  assert (forall o : option layout, truthy (tolerant <$> o) = truthy o) as Htruthy
    by (by intros []).
  rewrite !Htruthy.
  destruct (truthy kbest && (ks >? 0)); [done|].
  destruct (truthy sbest); [done|].
  rewrite fallback_loop_tolerant.
  destruct (fallback_loop layouts); [done|].
  unfold ultimate_fallback. rewrite length_fmap, !list_lookup_fmap.
  destruct (1 <? length layouts)%nat; [done|].
  by destruct (0 <? length layouts)%nat.
Qed.

End LayoutMatcherMore.

(** ** Strings, further *)

Section PyStrMore.
Import PyStr.

Lemma append_cons (x : ascii) (a b : string) :
  String.append (String x a) b = String x (String.append a b).
Proof. reflexivity. Qed.

Lemma append_nil (b : string) : String.append EmptyString b = b.
Proof. reflexivity. Qed.

Lemma append_assoc (a b c : string) :
  String.append (String.append a b) c = String.append a (String.append b c).
Proof.
  induction a as [|x a IH]; [done|]. rewrite !append_cons. by rewrite IH.
Qed.

Lemma append_empty_r (a : string) : String.append a EmptyString = a.
Proof. induction a as [|x a IH]; [done|]. rewrite append_cons. by rewrite IH. Qed.

Lemma rev_cons (x : ascii) (a : string) :
  rev (String x a) = String.append (rev a) (String x EmptyString).
Proof. reflexivity. Qed.

Lemma rev_append (a b : string) :
  rev (String.append a b) = String.append (rev b) (rev a).
Proof.
  induction a as [|x a IH].
  - rewrite append_nil. change (rev EmptyString) with EmptyString.
    by rewrite append_empty_r.
  - rewrite append_cons, !rev_cons, IH. apply append_assoc.
Qed.

Lemma rev_involutive (a : string) : rev (rev a) = a.
Proof.
  induction a as [|x a IH]; [done|].
  rewrite rev_cons, rev_append, IH. reflexivity.
Qed.

Lemma prefix_cons (x y : ascii) (a b : string) :
  String.prefix (String x a) (String y b)
  = if ascii_dec x y then String.prefix a b else false.
Proof. reflexivity. Qed.

Lemma prefix_one (x y : ascii) (b : string) :
  String.prefix (String x EmptyString) (String y b) = Ascii.eqb y x.
Proof.
  rewrite prefix_cons. destruct (ascii_dec x y) as [->|Hne].
  - rewrite Ascii.eqb_refl. by destruct b.
  - symmetry. apply Ascii.eqb_neq. congruence.
Qed.

Lemma prefix_split (a b : string) :
  String.prefix a b = true -> exists c, b = String.append a c.
Proof.
  revert b. induction a as [|x a IH]; intros b.
  - intros _. exists b. reflexivity.
  - destruct b as [|y b]; [discriminate|]. rewrite prefix_cons.
    destruct (ascii_dec x y) as [->|]; [|discriminate].
    intros H. apply IH in H as [c ->]. exists c. reflexivity.
Qed.

(** A string that ends with a suffix is some stem followed by it. *)
Lemma endswith_split (s suffix : string) :
  endswith s suffix = true -> exists stem, s = String.append stem suffix.
Proof.
  unfold endswith. intros H. apply prefix_split in H as [c Hc].
  exists (rev c). rewrite <- (rev_involutive s), Hc, rev_append.
  by rewrite rev_involutive.
Qed.

Lemma rsplit1_absent (sep : ascii) (s : string) :
  str_in (String sep EmptyString) s = false -> rsplit1 sep s = None.
Proof.
  induction s as [|c s IH]; [done|].
  cbn [str_in rsplit1]. rewrite prefix_one.
  intros H. apply orb_false_iff in H as [Hc Hs].
  by rewrite IH, Hc.
Qed.

(** Splitting at the last separator gives back the two parts. *)
Lemma rsplit1_append (sep : ascii) (stem ext : string) :
  str_in (String sep EmptyString) ext = false ->
  rsplit1 sep (String.append stem (String sep ext)) = Some (stem, ext).
Proof.
  intros Hext. induction stem as [|c stem IH].
  - rewrite append_nil. cbn [rsplit1]. rewrite rsplit1_absent by done.
    by rewrite Ascii.eqb_refl.
  - rewrite append_cons. cbn [rsplit1]. by rewrite IH.
Qed.

Lemma str_in_append_sep (sep : ascii) (stem ext : string) :
  str_in (String sep EmptyString) (String.append stem (String sep ext)) = true.
Proof.
  induction stem as [|c stem IH].
  - rewrite append_nil. cbn [str_in]. by rewrite prefix_one, Ascii.eqb_refl.
  - rewrite append_cons. cbn [str_in]. rewrite IH. apply orb_true_r.
Qed.

End PyStrMore.

(** ** The add-slide request, further *)

Section SlideComposerMore.
Import PyStr PyDict PyFloat Pptx LayoutMatcher SlideComposer ComposerNotions.
Open Scope Z_scope.

(** X7. [validate_image_format] accepts a file name exactly when the part
    after its last dot, lowercased, is one of the allowed extensions; a name
    without a dot is refused. *)
Theorem validate_image_format_extension (stem ext : string) :
  str_in "." ext = false ->
  validate_image_format (String.append stem (String "." ext))
  = existsb (String.eqb (lower ext)) ALLOWED_IMAGE_EXTENSIONS /\
  validate_image_format ext = false.
Proof.
  intros Hext. unfold validate_image_format. split.
  - rewrite (str_in_append_sep "." stem ext). cbn [negb].
    by rewrite rsplit1_append.
  - by rewrite Hext.
Qed.

Lemma validate_image_format_extension_witness :
  validate_image_format (String.append "holiday.photo" (String "." "JPeG"))
  = existsb (String.eqb (lower "JPeG")) ALLOWED_IMAGE_EXTENSIONS /\
  validate_image_format "JPeG" = false.
Proof. apply validate_image_format_extension. reflexivity. Defined.

(** *** The validation chain *)

Lemma validate_image_refusal image r :
  validate_image image = inl r ->
  r = Error 400 InvalidImageFormat \/ r = Error 400 ImageTooLarge.
Proof.
  unfold validate_image. destruct image as [img|]; [|done].
  destruct (validate_image_format _); cbn [check and_then]; [|intros [= <-]; by left].
  destruct (validate_file_size _ _); cbn [check]; [done|intros [= <-]; by right].
Qed.

Lemma validate_image_passes image :
  validate_image image = inr tt <->
  (forall img, image = Some img ->
     validate_image_format (image_filename img) = true /\ image_size img <= MAX_IMAGE_SIZE).
Proof.
  unfold validate_image, validate_file_size. destruct image as [img|].
  - destruct (validate_image_format _) eqn:Hfmt; cbn [check and_then].
    + destruct (image_size img >? MAX_IMAGE_SIZE) eqn:Hsize; cbn [negb check].
      * split; [done|]. intros Himg. destruct (Himg img eq_refl) as [_ Hle].
        apply Z.gtb_lt in Hsize. lia.
      * split; [|done]. intros _ ? [= <-]. split; [done|].
        rewrite Z.gtb_ltb in Hsize. apply Z.ltb_ge in Hsize. done.
    + split; [done|]. intros Himg. destruct (Himg img eq_refl) as [Hf _]. congruence.
  - split; [done|]. done.
Qed.

Lemma catalog_has_no_empty_key ty cfg :
  dict_get PREDEFINED_LAYOUTS ty = Some cfg -> is_empty ty = false.
Proof. destruct ty; [vm_compute; discriminate|done]. Qed.

Lemma is_empty_true s : is_empty s = true <-> s = EmptyString.
Proof. by destruct s. Qed.

(** What a served request went through, and what it is answered with. *)
Lemma add_slide_served injected req out download_name :
  add_slide injected req = SendFile out download_name ->
  exists file cfg position prs slide_layout,
    files_file req = Some file /\
    endswith (filename file) ".pptx" = true /\
    file_size file <= MAX_FILE_SIZE /\
    dict_get PREDEFINED_LAYOUTS (strip (form_layout req)) = Some cfg /\
    ((0 < content_boxes cfg)%nat -> strip (form_text req) <> "") /\
    (content_boxes cfg = 2%nat -> strip (form_text2 req) <> "") /\
    validate_image (supplied (files_image req)) = inr tt /\
    form_position req = Some position /\ 0 <= position /\
    content file = Some prs /\ slide_layouts prs <> [] /\
    find_layout_by_type (slide_layouts prs) (strip (form_layout req)) = Some slide_layout /\
    slides_add_slide slide_layout = Some (new_slide_from slide_layout) /\
    slide_layouts out = slide_layouts prs /\
    slide_parts out
    = <[next_id (sldIdLst prs) :=
          compose (F:=float) (strip (form_layout req)) (strip (form_title req))
            (strip (form_text req)) (strip (form_text2 req))
            (supplied (files_image req)) (new_slide_from slide_layout)]> (slide_parts prs) /\
    download_name
    = match rsplit1 "." (filename file) with
      | Some (base, _) => base
      | None => filename file
      end +:+ "_updated.pptx".
Proof.
  unfold add_slide.
  destruct (files_file req) as [file|]; [|done]. cbn [required and_then].
  destruct (negb (is_empty (filename file))) eqn:Hname; cbn [check and_then]; [|done].
  destruct (endswith (filename file) ".pptx") eqn:Hext; cbn [check and_then]; [|done].
  destruct (validate_file_size (file_size file) MAX_FILE_SIZE) eqn:Hsize;
    cbn [check and_then]; [|done].
  destruct (is_empty (strip (form_layout req))) eqn:Hty; [done|].
  destruct (dict_get PREDEFINED_LAYOUTS (strip (form_layout req))) as [cfg|] eqn:Hcfg;
    [|done]. cbn [required and_then].
  destruct (negb ((0 <? content_boxes cfg)%nat && is_empty (strip (form_text req))))
    eqn:Htext; cbn [check and_then]; [|done].
  destruct (negb ((content_boxes cfg =? 2)%nat && is_empty (strip (form_text2 req))))
    eqn:Htext2; cbn [check and_then]; [|done].
  destruct (validate_image _) as [r|[]] eqn:Hv;
    [apply validate_image_error in Hv as (st & m & ->); done|]. cbn [and_then].
  destruct (form_position req) as [position|]; [|done]. cbn [required and_then].
  destruct (negb (position <? 0)) eqn:Hpos; cbn [check and_then]; [|done].
  destruct (content file) as [prs|] eqn:Hcontent; [|done]. cbn [required and_then].
  destruct (negb (length (slide_layouts prs) =? 0)%nat) eqn:Hlay;
    cbn [check and_then]; [|done].
  destruct (find_layout_by_type _ _) as [slide_layout|] eqn:Hfind; [|done].
  cbn [required and_then].
  destruct (slides_add_slide slide_layout) as [created|] eqn:Hcreated; [|done].
  cbn [required and_then].
  destruct (move_slide _ _ _ _) as [xs lg] eqn:Hmove.
  intros [= <- <-].
  exists file, cfg, position, prs, slide_layout.
  split; [done|]. split; [done|].
  split. { unfold validate_file_size in Hsize. apply negb_true_iff in Hsize.
           rewrite Z.gtb_ltb in Hsize. by apply Z.ltb_ge in Hsize. }
  split; [done|].
  split. { intros Hboxes E. rewrite E in Htext.
           apply negb_true_iff, andb_false_iff in Htext as [H|H]; [|done].
           apply Nat.ltb_ge in H. lia. }
  split. { intros Hboxes E. rewrite E in Htext2.
           apply negb_true_iff, andb_false_iff in Htext2 as [H|H]; [|done].
           apply Nat.eqb_neq in H. lia. }
  split; [done|]. split; [done|].
  split. { apply negb_true_iff, Z.ltb_ge in Hpos. done. }
  split; [done|].
  split. { intros E. rewrite E in Hlay. done. }
  split; [done|].
  assert (created = new_slide_from slide_layout) as ->.
  { unfold slides_add_slide in Hcreated. destruct (forallb _ _); congruence. }
  done.
Qed.

(** X8. A request is answered with the updated file only when it meets
    the conditions of the validation chain: a file named [*.pptx] of at most
    50 MB that python-pptx can load and that has a layout, a layout type of
    the catalog, the body texts that the type requires, an image (if one is
    sent) of an allowed format and of at most 10 MB, and a position that is a
    number and not negative. *)
Theorem add_slide_served_only_if_acceptable
  (injected : option fault) (req : request) (out : presentation) (download_name : string) :
  add_slide injected req = SendFile out download_name -> acceptable req.
Proof.
  intros Hrun.
  apply add_slide_served in Hrun
    as (file & cfg & position & prs & slide_layout & Hfile & Hext & Hsize & Hcfg & Htext &
        Htext2 & Himg & Hposition & Hpos & Hcontent & Hlay & _).
  exists file, cfg, position, prs.
  pose proof (proj1 (validate_image_passes _) Himg) as Himage. done.
Qed.

Lemma add_slide_served_only_if_acceptable_witness : acceptable review_request.
Proof.
  destruct (add_slide None review_request) as [|out download_name] eqn:Hrun;
    [vm_compute in Hrun; discriminate|].
  exact (add_slide_served_only_if_acceptable None review_request out download_name Hrun).
Defined.

(** X9. The error for a layout that cannot be found is never returned: a
    request that reaches the search has a layout type of the catalog and a
    template with at least one layout, and the search then finds a layout. *)
Theorem add_slide_never_lacks_layout (injected : option fault) (req : request) :
  lacks_layout (add_slide injected req) = false.
Proof.
  unfold add_slide.
  destruct (files_file req) as [file|]; [|done]. cbn [required and_then].
  repeat match goal with
         | |- context [and_then (check ?b ?st ?m) _] =>
             destruct b eqn:?; cbn [check and_then]; [|done]
         end.
  destruct (is_empty (strip (form_layout req))) eqn:Hty; [done|].
  destruct (dict_get PREDEFINED_LAYOUTS (strip (form_layout req))) as [cfg|] eqn:Hcfg;
    [|done]. cbn [required and_then].
  repeat match goal with
         | |- context [and_then (check ?b ?st ?m) _] =>
             destruct b eqn:?; cbn [check and_then]; [|done]
         end.
  destruct (validate_image _) as [r|] eqn:Hv;
    [apply validate_image_refusal in Hv as [-> | ->]; done|]. cbn [and_then].
  destruct (form_position req) as [position|]; [|done]. cbn [required and_then].
  destruct (negb (position <? 0)) eqn:Hpos; cbn [check and_then]; [|done].
  destruct (content file) as [prs|] eqn:Hcontent; [|done]. cbn [required and_then].
  destruct (negb (length (slide_layouts prs) =? 0)%nat) eqn:Hlay;
    cbn [check and_then]; [|done].
  destruct (find_layout_total (slide_layouts prs) (strip (form_layout req)) cfg Hcfg)
    as [l ->].
  { intros E. rewrite E in Hlay. done. }
  cbn [required and_then].
  destruct (slides_add_slide l) as [created|]; [|done]. cbn [required and_then].
  by destruct (move_slide _ _ _ _).
Qed.

(** X10. The file sent back is named after the uploaded one: for an upload
    [stem.pptx] the download name is [stem_updated.pptx], whatever dots the
    stem has. *)
Theorem download_name_appends_updated
  (injected : option fault) (req : request) (out : presentation) (download_name : string) :
  add_slide injected req = SendFile out download_name ->
  exists file stem,
    files_file req = Some file /\
    filename file = stem +:+ ".pptx" /\
    download_name = stem +:+ "_updated.pptx".
Proof.
  intros Hrun.
  apply add_slide_served in Hrun
    as (file & cfg & position & prs & slide_layout & Hfile & Hext & _ & _ & _ & _ & _ & _ &
        _ & _ & _ & _ & _ & _ & _ & Hname).
  apply endswith_split in Hext as [stem Hstem].
  exists file, stem. split; [done|]. split; [done|].
  rewrite Hname, Hstem.
  change ".pptx" with (String "." "pptx").
  by rewrite (rsplit1_append "." stem "pptx" eq_refl).
Qed.

Lemma download_name_appends_updated_witness :
  exists file stem,
    files_file review_request = Some file /\
    filename file = stem +:+ ".pptx" /\
    "deck_updated.pptx" = stem +:+ "_updated.pptx".
Proof.
  destruct (add_slide None review_request) as [|out download_name] eqn:Hrun;
    [vm_compute in Hrun; discriminate|].
  assert (download_name = "deck_updated.pptx") as Hname
    by (vm_compute in Hrun; congruence).
  rewrite <- Hname.
  exact (download_name_appends_updated None review_request out download_name Hrun).
Defined.

(** *** What the composition keeps *)

Lemma set_content_background layout_type text text2 sl :
  background (set_content layout_type text text2 sl) = background sl.
Proof.
  unfold set_content, set_two_content, set_single_content.
  destruct (String.eqb _ _ && _ && _).
  - destruct (content_placeholders sl) as [|[i1 p1] [|[i2 p2] rest]]; [done..|].
    destruct (ph_frame p1); [|done]. by destruct (ph_frame p2).
  - destruct (negb _); [|done]. by destruct (fill_first_content _ _) as [[i p]|].
Qed.

Lemma add_image_background {F} `{Arith F} image sl :
  background (add_image (F:=F) image sl) = background sl.
Proof.
  unfold add_image. destruct image as [img|]; [|done].
  destruct (picture_loop _ _) as [removed [pic|]]; [done|].
  by destruct (fallback_picture _).
Qed.

Lemma compose_background {F} `{Arith F} layout_type title text text2 image new_slide :
  background (compose (F:=F) layout_type title text text2 image new_slide) = Some white.
Proof.
  unfold compose. rewrite add_image_background, set_content_background.
  unfold set_title. by destruct (is_empty title).
Qed.

(** X11. A served request leaves the template's layouts and every slide of
    the deck as they were: the parts of the slides listed in the deck are
    unchanged, and the new slide is stored under an id that none of them has;
    its background is set to plain white. *)
Theorem add_slide_keeps_existing_slides
  (injected : option fault) (req : request) (file : pptx_file) (prs : presentation)
  (out : presentation) (download_name : string) :
  files_file req = Some file ->
  content file = Some prs ->
  add_slide injected req = SendFile out download_name ->
  slide_layouts out = slide_layouts prs /\
  (forall id, id ∈ sldIdLst prs -> slide_parts out !! id = slide_parts prs !! id) /\
  (next_id (sldIdLst prs) ∉ sldIdLst prs) /\
  exists new_slide,
    slide_parts out !! next_id (sldIdLst prs) = Some new_slide /\
    background new_slide = Some white.
Proof.
  intros Hfile Hcontent Hrun.
  apply add_slide_served in Hrun
    as (file' & cfg & position & prs' & slide_layout & Hfile' & _ & _ & _ & _ & _ & _ & _ &
        _ & Hcontent' & _ & _ & _ & Hlayouts & Hparts & _).
  rewrite Hfile in Hfile'. injection Hfile' as <-.
  rewrite Hcontent in Hcontent'. injection Hcontent' as <-.
  split; [done|]. split; [|split; [apply next_id_fresh|]].
  - intros id Hid. rewrite Hparts. apply lookup_insert_ne.
    intros E. subst id. by apply next_id_fresh in Hid.
  - eexists. rewrite Hparts, lookup_insert_eq. split; [done|]. apply compose_background.
Qed.

Lemma add_slide_keeps_existing_slides_witness :
  exists out download_name,
    add_slide None review_request = SendFile out download_name /\
    slide_layouts out = slide_layouts three_slides /\
    (forall id, id ∈ sldIdLst three_slides ->
       slide_parts out !! id = slide_parts three_slides !! id) /\
    (next_id (sldIdLst three_slides) ∉ sldIdLst three_slides) /\
    exists new_slide,
      slide_parts out !! next_id (sldIdLst three_slides) = Some new_slide /\
      background new_slide = Some white.
Proof.
  destruct (add_slide None review_request) as [|out download_name] eqn:Hrun;
    [vm_compute in Hrun; discriminate|].
  exists out, download_name. split; [reflexivity|].
  exact (add_slide_keeps_existing_slides None review_request deck three_slides
           out download_name eq_refl eq_refl Hrun).
Defined.

(** *** The repositioning step under any fault *)

Lemma pop_inv {A} (l rest : list A) (x : A) : pop l = Some (rest, x) -> l = rest ++ [x].
Proof.
  unfold pop. destruct (reverse l) as [|y r] eqn:E; [done|].
  intros [= <- <-]. rewrite <- (reverse_involutive l), E. by rewrite reverse_cons.
Qed.

Lemma pop_nil {A} (l : list A) : pop l = None -> l = [].
Proof.
  unfold pop. destruct (reverse l) as [|y r] eqn:E; [|done].
  intros _. rewrite <- (reverse_involutive l), E. done.
Qed.

(** The loop of [xml_slides.append] writes a prefix of the list it is given:
    all of it, or what came before the call that raised. *)
Lemma for_each_append_prefix injected (xs : list nat) : forall (l : list nat) (n : nat),
  exists j,
    fst (snd (for_each xs (fun slide => xml_call injected (fun l => (tt, l ++ [slide])))
                (l, n))) = l ++ take j xs.
Proof.
  induction xs as [|x xs IH]; intros l n.
  - exists 0%nat. cbn. by rewrite app_nil_r.
  - cbn [for_each]. unfold bind at 1. unfold xml_call at 1.
    destruct (raises_at injected n) as [e|].
    + exists 0%nat. cbn. by rewrite app_nil_r.
    + destruct (IH (l ++ [x]) (S n)) as [j Hj]. exists (S j).
      rewrite Hj. cbn [take]. by rewrite <- app_assoc.
Qed.

(** What the step can leave in the list: the list as it was, or a prefix of
    the reordered list. *)
Lemma move_slide_outcomes injected position total (xs : list nat) :
  fst (move_slide injected position total xs) = xs \/
  exists rest moved j,
    xs = rest ++ [moved] /\
    fst (move_slide injected position total xs)
    = take j (list_insert (Z.min position (Z.of_nat (length rest))) moved rest).
Proof.
  remember (fst (move_slide injected position total xs)) as r eqn:Hr.
  unfold move_slide in Hr. destruct (position <? total); [|by left].
  unfold reposition_body in Hr. unfold bind at 1 in Hr. unfold xml_call at 1 in Hr.
  destruct (raises_at injected 0) as [[]|]; [left; exact Hr..|].
  unfold bind at 1 in Hr. unfold xml_call at 1 in Hr.
  destruct (raises_at injected 1) as [[]|]; [left; exact Hr..|].
  destruct (pop xs) as [[rest moved]|] eqn:Hpop; [|left; exact Hr].
  apply pop_inv in Hpop.
  unfold bind at 1 in Hr. unfold xml_call at 1 in Hr.
  destruct (raises_at injected 2) as [[]|]; [left; exact Hr..|].
  right. exists rest, moved.
  set (slides := list_insert (Z.min position (Z.of_nat (length rest))) moved rest) in *.
  destruct (for_each_append_prefix injected slides [] 3) as [j Hj].
  exists j. split; [done|].
  unfold bind at 1 in Hr.
  destruct (for_each slides _ ([], 3%nat)) as [[[]|[]] [l n]]; cbn in Hj, Hr; by subst.
Qed.

(** X12. Whatever call of the repositioning step raises, the list of slide
    ids it leaves has no id that was not there and no id more often than
    before; when no call raises the list has the same ids as before. *)
Theorem move_slide_never_invents
  (injected : option fault) (position total : Z) (xml_slides : list nat) :
  0 <= position ->
  fst (move_slide injected position total xml_slides) ⊆+ xml_slides /\
  (injected = None -> fst (move_slide injected position total xml_slides) ≡ₚ xml_slides).
Proof.
  intros _. split.
  - destruct (move_slide_outcomes injected position total xml_slides)
      as [-> | (rest & moved & j & Hxs & ->)]; [done|].
    rewrite Hxs, <- (list_insert_permutation (Z.min position (Z.of_nat (length rest)))).
    apply sublist_submseteq, sublist_take.
  - intros ->. unfold move_slide. destruct (position <? total) eqn:Hlt; [|done].
    destruct (pop xml_slides) as [[rest moved]|] eqn:Hpop.
    + apply pop_inv in Hpop. subst xml_slides.
      pose proof (move_slide_completes None position total rest moved) as Hrun.
      unfold move_slide in Hrun. rewrite Hlt in Hrun.
      rewrite Hrun; [|done|by apply Z.ltb_lt]. cbn [fst].
      apply list_insert_permutation.
    + apply pop_nil in Hpop. by subst.
Qed.

Lemma move_slide_never_invents_witness :
  fst (move_slide (Some {| fault_at := 4; raised := OtherException |}) 0 2
         [256; 257; 258]%nat) ⊆+ [256; 257; 258]%nat /\
  (Some {| fault_at := 4; raised := OtherException |} = None ->
   fst (move_slide (Some {| fault_at := 4; raised := OtherException |}) 0 2
          [256; 257; 258]%nat) ≡ₚ [256; 257; 258]%nat).
Proof. apply move_slide_never_invents. lia. Defined.


(** *** Where the title, the text and the picture go *)

Lemma set_title_shape_first title pre p post :
  existsb is_title_placeholder pre = false -> ph_idx p = 0%nat ->
  set_title_shape title (pre ++ Placeholder p :: post)
  = match ph_frame p with
    | Some tf => pre ++ Placeholder (with_frame p (retitled title tf)) :: post
    | None => pre ++ Placeholder p :: post
    end.
Proof.
  intros Hpre Hp. induction pre as [|sh pre IH].
  - cbn [app set_title_shape]. rewrite Hp. cbn [Nat.eqb]. by destruct (ph_frame p).
  - cbn [existsb] in Hpre. apply orb_false_iff in Hpre as [Hsh Hpre].
    specialize (IH Hpre).
    change ((sh :: pre) ++ Placeholder p :: post) with (sh :: (pre ++ Placeholder p :: post)).
    destruct sh as [q| |]; cbn [set_title_shape].
    + cbn [is_title_placeholder] in Hsh. rewrite Hsh, IH. by destruct (ph_frame p).
    + rewrite IH. by destruct (ph_frame p).
    + rewrite IH. by destruct (ph_frame p).
Qed.

Lemma set_title_shape_absent title shs :
  existsb is_title_placeholder shs = false -> set_title_shape title shs = shs.
Proof.
  induction shs as [|sh shs IH]; [done|].
  cbn [existsb]. intros H. apply orb_false_iff in H as [Hsh Hshs].
  destruct sh as [q| |]; cbn [set_title_shape].
  - cbn [is_title_placeholder] in Hsh. rewrite Hsh. by rewrite IH.
  - by rewrite IH.
  - by rewrite IH.
Qed.

(** X13. The title goes into the first placeholder with idx 0 and nowhere
    else: its text becomes the title and the rest of its text frame and every
    other shape stay as they are. When that placeholder has no text frame, or
    the slide has no placeholder with idx 0, the slide is left as it is and
    the title is dropped. *)
Theorem title_goes_to_first_idx0 (title : string) (sl : slide) :
  title <> EmptyString ->
  (forall pre p post,
     shapes sl = pre ++ Placeholder p :: post ->
     existsb is_title_placeholder pre = false -> ph_idx p = 0%nat ->
     shapes (set_title title sl)
     = match ph_frame p with
       | Some tf => pre ++ Placeholder (with_frame p (retitled title tf)) :: post
       | None => shapes sl
       end) /\
  (existsb is_title_placeholder (shapes sl) = false -> set_title title sl = sl).
Proof.
  intros Htitle. unfold set_title. rewrite (is_empty_false _ Htitle). split.
  - intros pre p post Hsl Hpre Hp. cbn [shapes]. rewrite Hsl.
    rewrite set_title_shape_first by done. by destruct (ph_frame p).
  - intros Hnone. rewrite set_title_shape_absent by done. by destruct sl.
Qed.

Lemma title_goes_to_first_idx0_witness :
  shapes (set_title "Team" (new_slide_from with_picture))
  = [Placeholder (with_frame (slot TITLE) (retitled "Team" empty_frame));
     Placeholder (slot BODY); Placeholder (slot PICTURE)].
Proof.
  destruct (title_goes_to_first_idx0 "Team" (new_slide_from with_picture)) as [Hfirst _];
    [discriminate|].
  exact (Hfirst [] (slot TITLE) [Placeholder (slot BODY); Placeholder (slot PICTURE)]
           eq_refl eq_refl eq_refl).
Defined.

(** *** The order of the iteration over the placeholders *)

Lemma comes_before_trans x y z : comes_before x y -> comes_before y z -> comes_before x z.
Proof. unfold comes_before. lia. Qed.

Lemma comes_before_asym x y : comes_before x y -> comes_before y x -> False.
Proof. unfold comes_before. lia. Qed.

Lemma elem_of_List_filter {A} (f : A -> bool) (l : list A) (x : A) :
  x ∈ List.filter f l <-> x ∈ l /\ f x = true.
Proof. rewrite !list_elem_of_In. apply List.filter_In. Qed.

Lemma insert_by_idx_in_order x l :
  in_order l -> (forall y, y ∈ l -> (x.1 < y.1)%nat) -> in_order (insert_by_idx x l).
Proof.
  induction l as [|z l IH]; intros Hl Hx.
  { cbn. split; [intros y Hy; by apply elem_of_nil in Hy|done]. }
  destruct Hl as [Hz Hl]. cbn [insert_by_idx].
  destruct (ph_idx z.2 <? ph_idx x.2)%nat eqn:E.
  - apply Nat.ltb_lt in E. cbn [in_order]. split.
    + intros y Hy. rewrite insert_by_idx_permutation in Hy.
      apply elem_of_cons in Hy as [->|Hy]; [by left|by apply Hz].
    + apply IH; [done|]. intros y Hy. apply Hx. by right.
  - apply Nat.ltb_ge in E.
    assert (comes_before x z) as Hxz.
    { unfold comes_before. assert (x.1 < z.1)%nat by (apply Hx; by left). lia. }
    cbn [in_order]. split; [|done].
    intros y Hy. apply elem_of_cons in Hy as [->|Hy]; [done|].
    apply (comes_before_trans x z y); [done|by apply Hz].
Qed.

Lemma slide_placeholders_in_order sl : in_order (slide_placeholders sl).
Proof.
  unfold slide_placeholders. generalize 0%nat.
  induction (shapes sl) as [|sh shs IH]; intros k; [done|].
  destruct sh as [p| |]; cbn [placeholders_from]; [|apply IH..].
  cbn [sorted_by_idx foldr]. apply insert_by_idx_in_order; [apply IH|].
  intros [j q] Hy. fold (sorted_by_idx (placeholders_from (S k) shs)) in Hy.
  rewrite sorted_by_idx_permutation in Hy.
  apply placeholders_from_lookup in Hy as [Hle _]. cbn. lia.
Qed.

Lemma filter_in_order (f : nat * placeholder -> bool) l :
  in_order l -> in_order (List.filter f l).
Proof.
  induction l as [|x l IH]; [done|]. intros [Hx Hl]. cbn [List.filter].
  destruct (f x); [|by apply IH]. cbn [in_order]. split; [|by apply IH].
  intros y Hy. apply elem_of_List_filter in Hy as [Hy _]. by apply Hx.
Qed.

(** The first of the iteration is the one that comes before all others. *)
Lemma in_order_first l x :
  in_order l -> x ∈ l -> (forall y, y ∈ l -> y = x \/ comes_before x y) ->
  exists rest, l = x :: rest.
Proof.
  destruct l as [|h rest]; intros Hl Hx Hleast; [by apply elem_of_nil in Hx|].
  destruct Hl as [Hh _]. exists rest. f_equal.
  destruct (Hleast h) as [->|Hxh]; [by left|done|].
  apply elem_of_cons in Hx as [->|Hx]; [done|].
  destruct (comes_before_asym x h Hxh (Hh x Hx)).
Qed.

(** The placeholders of a kind, in the order of the iteration, begin with
    the one of the kind that comes before the others of the kind. *)
Lemma first_of_kind (f : nat * placeholder -> bool) sl i p :
  shapes sl !! i = Some (Placeholder p) -> f (i, p) = true ->
  (forall j q, shapes sl !! j = Some (Placeholder q) -> f (j, q) = true -> j <> i ->
               comes_before (i, p) (j, q)) ->
  exists rest, List.filter f (slide_placeholders sl) = (i, p) :: rest.
Proof.
  intros Hi Hf Hleast. apply in_order_first.
  - apply filter_in_order, slide_placeholders_in_order.
  - apply elem_of_List_filter. split; [by apply slide_placeholders_lookup|done].
  - intros [j q] Hy. apply elem_of_List_filter in Hy as [Hy Hfy].
    apply slide_placeholders_lookup in Hy.
    destruct (decide (j = i)) as [->|Hne]; [left; congruence|right; by apply Hleast].
Qed.

(** *** Where the text and the picture go *)

Lemma fill_first_content_filter text phs :
  fill_first_content text phs
  = match List.filter (fun x => is_writable_content (Placeholder x.2)) phs with
    | (i, p) :: _ => Some (i, with_frame p (filled_frame text))
    | [] => None
    end.
Proof.
  induction phs as [|[i p] phs IH]; [done|].
  cbn [fill_first_content List.filter is_writable_content snd].
  destruct (is_content p); [|exact IH].
  destruct (ph_frame p); [done|exact IH].
Qed.

Lemma no_writable_content sl :
  existsb is_writable_content (shapes sl) = false ->
  List.filter (fun x => is_writable_content (Placeholder x.2)) (slide_placeholders sl) = [].
Proof.
  intros Hnone.
  destruct (List.filter _ (slide_placeholders sl)) as [|[i p] rest] eqn:E; [done|].
  assert ((i, p) ∈ List.filter (fun x => is_writable_content (Placeholder x.2))
                     (slide_placeholders sl)) as Hin by (rewrite E; by left).
  apply elem_of_List_filter in Hin as [Hin Hw].
  apply slide_placeholders_lookup, list_elem_of_lookup_2, list_elem_of_In in Hin.
  assert (existsb is_writable_content (shapes sl) = true) as Hsome
    by (apply existsb_exists; eauto).
  congruence.
Qed.

(** X14. The single-content branch writes the text into one placeholder:
    among the BODY and OBJECT placeholders of the slide that have a text
    frame, the one with the lowest [idx] (the first in the shape tree among
    those of that [idx]); its text frame then holds the text, left-aligned at
    level 0 with margins of 0.1 inch and word wrap, and no other shape is
    touched. When the slide has no such placeholder, a text box of 9 by 5
    inches at (0.5, 1.8) inches with the text is appended instead. *)
Theorem single_content_lowest_idx (text : string) (sl : slide) :
  (forall i p tf,
     shapes sl !! i = Some (Placeholder p) ->
     is_content p = true -> ph_frame p = Some tf ->
     (forall j q, shapes sl !! j = Some (Placeholder q) ->
                  is_writable_content (Placeholder q) = true -> j <> i ->
                  comes_before (i, p) (j, q)) ->
     shapes (set_single_content text sl)
     = <[i := Placeholder (with_frame p (filled_frame text))]> (shapes sl)) /\
  (existsb is_writable_content (shapes sl) = false ->
   shapes (set_single_content text sl) = shapes sl ++ [fallback_text_box text]).
Proof.
  unfold set_single_content. rewrite fill_first_content_filter. split.
  - intros i p tf Hi Hp Htf Hleast.
    destruct (first_of_kind (fun x => is_writable_content (Placeholder x.2)) sl i p)
      as [rest ->]; [done| |done|done].
    cbn. by rewrite Hp, Htf.
  - intros Hnone. by rewrite no_writable_content.
Qed.

Lemma single_content_lowest_idx_witness :
  shapes (set_single_content "Agenda" shuffled_slide)
  = <[3%nat := Placeholder (with_frame low_body (filled_frame "Agenda"))]>
      (shapes shuffled_slide) /\
  shapes (set_single_content "Agenda"
            {| shapes := [Placeholder framed_picture]; background := None |})
  = [Placeholder framed_picture] ++ [fallback_text_box "Agenda"].
Proof.
  split.
  - destruct (single_content_lowest_idx "Agenda" shuffled_slide) as [Hfirst _].
    apply (Hfirst 3%nat low_body empty_frame); [reflexivity..|].
    intros j q Hj Hq Hne.
    do 6 (destruct j as [|j];
          [cbn in Hj; try discriminate; injection Hj as <-;
           first [done | by vm_compute in Hq | left; cbn; lia | right; cbn; lia]|]).
    cbn in Hj. discriminate.
  - destruct (single_content_lowest_idx "Agenda"
                {| shapes := [Placeholder framed_picture]; background := None |})
      as [_ Hnone].
    exact (Hnone eq_refl).
Defined.

(** X15. The two-content branch on a slide with two content placeholders or
    more: of the BODY and OBJECT placeholders, the one that comes first by
    [idx] takes body text 1 and the next one body text 2, left-aligned, and
    no shape is added or moved. When the second has no text frame only the
    first text is written; when the first has none, nothing is written at
    all. *)
Theorem two_content_fills_two_lowest
  (text text2 : string) (sl : slide) (i1 i2 : nat) (p1 p2 : placeholder) :
  shapes sl !! i1 = Some (Placeholder p1) ->
  shapes sl !! i2 = Some (Placeholder p2) ->
  is_content p1 = true -> is_content p2 = true ->
  comes_before (i1, p1) (i2, p2) ->
  (forall j q, shapes sl !! j = Some (Placeholder q) -> is_content q = true ->
               j <> i1 -> j <> i2 -> comes_before (i2, p2) (j, q)) ->
  shapes (set_two_content text text2 sl)
  = match ph_frame p1, ph_frame p2 with
    | Some tf1, Some tf2 =>
        <[i2 := Placeholder (with_frame p2 (write_text text2 tf2))]>
          (<[i1 := Placeholder (with_frame p1 (write_text text tf1))]> (shapes sl))
    | Some tf1, None =>
        <[i1 := Placeholder (with_frame p1 (write_text text tf1))]> (shapes sl)
    | None, _ => shapes sl
    end.
Proof.
  intros H1 H2 Hp1 Hp2 H12 Hrest.
  assert (i1 <> i2) as Hne.
  { intros ->. rewrite H1 in H2. injection H2 as ->.
    exact (comes_before_asym _ _ H12 H12). }
  assert (exists rest, content_placeholders sl = (i1, p1) :: (i2, p2) :: rest)
    as [rest Hcontent].
  { unfold content_placeholders.
    pose proof (filter_in_order (fun x => is_content x.2) _
                  (slide_placeholders_in_order sl)) as Hsorted.
    destruct (first_of_kind (fun x => is_content x.2) sl i1 p1) as [tl Htl]; [done..| |].
    { intros j q Hj Hq Hj1. destruct (decide (j = i2)) as [->|Hj2].
      - rewrite H2 in Hj. by injection Hj as <-.
      - apply (comes_before_trans _ (i2, p2)); [done|by apply Hrest]. }
    rewrite Htl in Hsorted |- *. destruct Hsorted as [Hhead Htail].
    assert (forall y, y ∈ tl -> y ∈ slide_placeholders sl /\ is_content y.2 = true /\
                                y.1 <> i1) as Hin.
    { intros y Hy.
      assert (y ∈ List.filter (fun x => is_content x.2) (slide_placeholders sl)) as Hy'
        by (rewrite Htl; by right).
      apply elem_of_List_filter in Hy' as [Hy1 Hy2]. split; [done|]. split; [done|].
      intros E. destruct y as [j q]. cbn in E. subst j.
      apply slide_placeholders_lookup in Hy1. rewrite H1 in Hy1. injection Hy1 as <-.
      exact (comes_before_asym _ _ (Hhead _ Hy) (Hhead _ Hy)). }
    assert ((i2, p2) ∈ tl) as H2tl.
    { assert ((i2, p2) ∈ List.filter (fun x => is_content x.2) (slide_placeholders sl))
        as Hy by (apply elem_of_List_filter; split;
                  [by apply slide_placeholders_lookup|done]).
      rewrite Htl in Hy. apply elem_of_cons in Hy as [[= E _]|Hy]; [by symmetry in E|done]. }
    assert (forall y, y ∈ tl -> y = (i2, p2) \/ comes_before (i2, p2) y) as Hleast2.
    { intros [j q] Hy. destruct (Hin _ Hy) as (Hy1 & Hy2 & Hy3). cbn in Hy2, Hy3.
      apply slide_placeholders_lookup in Hy1.
      destruct (decide (j = i2)) as [->|Hj2]; [left; congruence|right; by apply Hrest]. }
    destruct (in_order_first tl (i2, p2) Htail H2tl Hleast2) as [rest Hrest2].
    exists rest. by rewrite Hrest2. }
  unfold set_two_content. rewrite Hcontent.
  destruct (ph_frame p1); [|done]. by destruct (ph_frame p2).
Qed.

Lemma two_content_fills_two_lowest_witness :
  shapes (set_two_content "Left" "Right" shuffled_slide)
  = <[1%nat := Placeholder (with_frame high_body (write_text "Right" empty_frame))]>
      (<[3%nat := Placeholder (with_frame low_body (write_text "Left" empty_frame))]>
         (shapes shuffled_slide)).
Proof.
  apply (two_content_fills_two_lowest "Left" "Right" shuffled_slide 3 1 low_body high_body);
    [reflexivity..| |].
  - left. cbn. lia.
  - intros j q Hj Hq Hj1 Hj2.
    do 6 (destruct j as [|j];
          [cbn in Hj; try discriminate; injection Hj as <-;
           first [done | by vm_compute in Hq | left; cbn; lia | right; cbn; lia]|]).
    cbn in Hj. discriminate.
Defined.

Lemma picture_loop_readable img width_at phs :
  image_width_at img = Some width_at ->
  picture_loop img phs
  = match List.filter (fun x => is_picture_placeholder (Placeholder x.2)) phs with
    | (i, p) :: _ =>
        ([i], (fun size => Picture (ph_left p) (ph_top p) size.1 size.2 (image_filename img))
              <$> scale img (ph_width p) (ph_height p))
    | [] => ([], None)
    end.
Proof.
  intros Himg. induction phs as [|[i p] phs IH]; [done|].
  cbn [picture_loop List.filter is_picture_placeholder snd].
  destruct (ph_type p) as [[]|]; try exact IH.
  unfold scale. rewrite Himg. cbn [fmap option_fmap option_map].
  by destruct (if negb (ph_width p =? 0) && negb (ph_height p =? 0) then _ else _).
Qed.

Lemma remove_from_one i shs : forall k,
  (k <= i)%nat -> remove_from k [i] shs = delete (i - k)%nat shs.
Proof.
  induction shs as [|sh shs IH]; intros k Hk; [done|].
  cbn [remove_from existsb]. rewrite orb_false_r.
  destruct (Nat.eqb_spec k i) as [->|Hne].
  - rewrite Nat.sub_diag. cbn [delete list_delete].
    assert (forall l k', (i < k')%nat -> remove_from k' [i] l = l) as Hpast.
    { induction l as [|x l IHl]; intros k' Hk'; [done|].
      cbn [remove_from existsb]. rewrite orb_false_r.
      destruct (Nat.eqb_spec k' i); [lia|]. by rewrite IHl by lia. }
    apply Hpast. lia.
  - rewrite IH by lia. replace (i - k)%nat with (S (i - S k)) by lia. done.
Qed.

(** X16. An image that python-pptx can read takes the place of one picture
    placeholder: the PICTURE placeholder with the lowest [idx] (the first in
    the shape tree among those of that [idx]) is removed and a picture at its
    position is added on top of the other shapes, which stay in their order.
    The picture has the placeholder's width and height when neither is zero;
    when both are zero it has the size of the image. *)
Theorem picture_replaces_lowest_idx_placeholder {F : Type} {ops : Arith F}
  (img : image_file) (width_at : Z -> Z) (sl : slide) (i : nat) (p : placeholder) :
  image_width_at img = Some width_at ->
  shapes sl !! i = Some (Placeholder p) ->
  ph_type p = Some PICTURE ->
  (forall j q, shapes sl !! j = Some (Placeholder q) -> ph_type q = Some PICTURE -> j <> i ->
               comes_before (i, p) (j, q)) ->
  exists width height,
    shapes (add_image (F:=F) (Some img) sl)
    = delete i (shapes sl) ++
      [Picture (ph_left p) (ph_top p) width height (image_filename img)] /\
    (ph_width p <> 0 -> ph_height p <> 0 -> width = ph_width p /\ height = ph_height p) /\
    (ph_width p = 0 -> ph_height p = 0 -> (width, height) = image_native_size img).
Proof.
  intros Himg Hi Hp Hleast. unfold add_image.
  rewrite (picture_loop_readable img width_at) by done.
  destruct (first_of_kind (fun x => is_picture_placeholder (Placeholder x.2)) sl i p)
    as [rest ->]; [done|cbn; by rewrite Hp| |].
  { intros j q Hj Hq Hne. apply Hleast; [done| |done].
    cbn in Hq. by destruct (ph_type q) as [[]|]. }
  unfold scale. rewrite Himg. cbn [fmap option_fmap option_map shapes].
  rewrite remove_from_one, Nat.sub_0_r by lia.
  eexists _, _. split; [reflexivity|]. split.
  - intros Hw Hh. apply Z.eqb_neq in Hw, Hh. by rewrite Hw, Hh.
  - intros Hw Hh. rewrite Hw, Hh. cbn. by destruct (image_native_size img).
Qed.

Lemma picture_replaces_lowest_idx_placeholder_witness :
  exists width height,
    shapes (add_image (F:=float) (Some wide) shuffled_slide)
    = delete 5%nat (shapes shuffled_slide) ++
      [Picture 5000000 1200000 width height "wide.png"] /\
    (3600000 <> 0 -> 2700000 <> 0 -> width = 3600000 /\ height = 2700000) /\
    (3600000 = 0 -> 2700000 = 0 -> (width, height) = image_native_size wide).
Proof.
  apply (picture_replaces_lowest_idx_placeholder (F:=float) wide (fun height => height * 7 / 5)
           shuffled_slide 5%nat framed_picture); [reflexivity..|].
  intros j q Hj Hq Hne.
  do 6 (destruct j as [|j];
        [cbn in Hj; try discriminate; injection Hj as <-;
         first [done | by vm_compute in Hq | left; cbn; lia | right; cbn; lia]|]).
  cbn in Hj. discriminate.
Defined.

Lemma picture_loop_unreadable img phs :
  image_width_at img = None ->
  picture_loop img phs
  = ((List.filter (fun x => is_picture_placeholder (Placeholder x.2)) phs).*1, None).
Proof.
  intros Himg. induction phs as [|[i p] phs IH]; [done|].
  cbn [picture_loop List.filter is_picture_placeholder snd].
  destruct (ph_type p) as [[]|]; try exact IH.
  unfold scale. rewrite Himg, IH. done.
Qed.

Lemma remove_from_kind (f : shape -> bool) removed shs : forall k,
  (forall j sh, shs !! j = Some sh -> existsb (Nat.eqb (k + j)) removed = f sh) ->
  remove_from k removed shs = List.filter (fun sh => negb (f sh)) shs.
Proof.
  induction shs as [|sh shs IH]; intros k Hrem; [done|].
  cbn [remove_from List.filter].
  rewrite <- (Hrem 0%nat sh eq_refl), Nat.add_0_r.
  rewrite (IH (S k)).
  - by destruct (existsb (Nat.eqb k) removed).
  - intros j sh' Hj. rewrite <- (Hrem (S j) sh' Hj). by rewrite Nat.add_succ_r.
Qed.

(** X17. An image that python-pptx cannot read adds no picture, and every
    picture placeholder of the slide is removed on the way; the other shapes
    stay, in their order. *)
Theorem unreadable_image_drops_picture_placeholders {F : Type} {ops : Arith F}
  (img : image_file) (sl : slide) :
  image_width_at img = None ->
  shapes (add_image (F:=F) (Some img) sl)
  = List.filter (fun sh => negb (is_picture_placeholder sh)) (shapes sl).
Proof.
  intros Himg. unfold add_image, fallback_picture.
  rewrite picture_loop_unreadable, Himg by done. cbn [shapes].
  apply remove_from_kind. intros j sh Hj. cbn [Nat.add].
  apply eq_true_iff_eq. rewrite existsb_eqb_elem, list_elem_of_fmap. split.
  - intros ([j' q] & -> & Hin). cbn in Hj.
    apply elem_of_List_filter in Hin as [Hin Hpic].
    apply slide_placeholders_lookup in Hin. cbn [fst] in Hin.
    rewrite Hj in Hin. injection Hin as ->. exact Hpic.
  - intros Hpic. destruct sh as [q| |]; [|done..].
    exists (j, q). split; [done|]. apply elem_of_List_filter.
    split; [by apply slide_placeholders_lookup|done].
Qed.

Lemma unreadable_image_drops_picture_placeholders_witness :
  shapes (add_image (F:=float) (Some unreadable_image) picture_slide)
  = List.filter (fun sh => negb (is_picture_placeholder sh)) (shapes picture_slide).
Proof.
  exact (unreadable_image_drops_picture_placeholders (F:=float) unreadable_image
           picture_slide eq_refl).
Defined.

End SlideComposerMore.

(** ** The mass-update tool, further *)

Section MassUpdateMore.
Import PyStr PyDict MassUpdate UpdateNotions.

(** *** Stripping *)

Lemma lstrip_idem s : lstrip (lstrip s) = lstrip s.
Proof.
  induction s as [|c s IH]; [done|]. cbn [lstrip].
  destruct (is_space c) eqn:E; [done|]. cbn [lstrip]. by rewrite E.
Qed.

Lemma rstrip_idem s : rstrip (rstrip s) = rstrip s.
Proof.
  induction s as [|c s IH]; [done|]. cbn [rstrip].
  destruct (is_space c && is_empty (rstrip s)) eqn:E; [done|].
  cbn [rstrip]. by rewrite IH, E.
Qed.

Lemma rstrip_lstrip s : rstrip s = s -> rstrip (lstrip s) = lstrip s.
Proof.
  induction s as [|c s IH]; [done|]. intros Hs. cbn [lstrip].
  destruct (is_space c) eqn:E; [|done].
  apply IH. cbn [rstrip] in Hs. rewrite E in Hs.
  destruct (is_empty (rstrip s)); [done|]. cbn [andb] in Hs. congruence.
Qed.

Lemma strip_idem s : strip (strip s) = strip s.
Proof.
  unfold strip. rewrite (rstrip_lstrip (rstrip s)) by apply rstrip_idem.
  apply lstrip_idem.
Qed.

(** *** Single characters in strings *)

Lemma char_in_cons c x s :
  str_in (String c EmptyString) (String x s)
  = Ascii.eqb x c || str_in (String c EmptyString) s.
Proof. cbn [str_in]. by rewrite prefix_one. Qed.

Lemma char_in_append c a b :
  str_in (String c EmptyString) (a +:+ b)
  = str_in (String c EmptyString) a || str_in (String c EmptyString) b.
Proof.
  induction a as [|x a IH].
  - rewrite append_nil. by destruct b.
  - rewrite append_cons, !char_in_cons, IH. by rewrite orb_assoc.
Qed.

Lemma char_in_lstrip c s :
  str_in (String c EmptyString) s = false ->
  str_in (String c EmptyString) (lstrip s) = false.
Proof.
  induction s as [|x s IH]; [done|]. intros H. cbn [lstrip].
  destruct (is_space x); [|done].
  rewrite char_in_cons in H. apply orb_false_iff in H as [_ H]. by apply IH.
Qed.

Lemma char_in_rstrip c s :
  str_in (String c EmptyString) s = false ->
  str_in (String c EmptyString) (rstrip s) = false.
Proof.
  induction s as [|x s IH]; [done|]. intros H. cbn [rstrip].
  rewrite char_in_cons in H. apply orb_false_iff in H as [Hx H].
  destruct (is_space x && is_empty (rstrip s)); [done|].
  rewrite char_in_cons, Hx. by apply IH.
Qed.

Lemma char_in_strip c s :
  str_in (String c EmptyString) s = false ->
  str_in (String c EmptyString) (strip s) = false.
Proof. intros H. unfold strip. by apply char_in_lstrip, char_in_rstrip. Qed.

Lemma split1_first sep s a b :
  split1 sep s = Some (a, b) ->
  str_in (String sep EmptyString) a = false /\ s = a +:+ String sep b.
Proof.
  revert a. induction s as [|x s IH]; intros a; [done|]. cbn [split1].
  destruct (Ascii.eqb x sep) eqn:E.
  - intros [= <- <-]. apply Ascii.eqb_eq in E. by subst.
  - destruct (split1 sep s) as [[a' b']|]; [|done]. intros [= <- <-].
    destruct (IH a' eq_refl) as [Ha ->]. split; [|done].
    by rewrite char_in_cons, E, Ha.
Qed.

(** *** The entries of the mapping *)

Lemma parse_line_entry raw key val :
  parse_line raw = Entry key val ->
  key <> EmptyString /\ str_in "=" key = false /\ strip key = key /\ strip val = val.
Proof.
  unfold parse_line. destruct (String.prefix "#" (lstrip raw)); [done|].
  destruct (is_empty (strip raw)); [done|].
  destruct (negb (str_in "=" (strip raw))); [done|].
  destruct (split1 "=" (strip raw)) as [[old new]|] eqn:Hsplit; [|done].
  destruct (is_empty (strip old)) eqn:Hkey; [done|]. intros [= <- <-].
  apply split1_first in Hsplit as [Hold _].
  split. { intros E. rewrite E in Hkey. done. }
  split. { by apply (char_in_strip "="). }
  split; apply strip_idem.
Qed.

Lemma dict_set_elem {V} (d : list (string * V)) key val k v :
  (k, v) ∈ dict_set key val d -> (k, v) = (key, val) \/ (k, v) ∈ d.
Proof.
  induction d as [|[k' v'] d IH]; cbn [dict_set].
  - intros H. apply list_elem_of_singleton in H. by left.
  - destruct (String.eqb k' key) eqn:E.
    + apply String.eqb_eq in E. subst k'.
      intros H. apply elem_of_cons in H as [H|H]; [by left|right; by right].
    + intros H. apply elem_of_cons in H as [H|H]; [right; rewrite H; by left|].
      apply IH in H as [H|H]; [by left|right; by right].
Qed.

Lemma load_lines_entries lines : forall st idx k v,
  (k, v) ∈ replacements (load_lines st idx lines) ->
  (k, v) ∈ replacements st \/ exists raw, raw ∈ lines /\ parse_line raw = Entry k v.
Proof.
  induction lines as [|raw rest IH]; intros st idx k v; cbn [load_lines]; [by left|].
  intros H. apply IH in H as [H|(raw' & Hin & Hp)].
  - unfold load_line in H. destruct (parse_line raw) as [| | |key val] eqn:Hp;
      cbn [replacements] in H; [by left..|].
    apply dict_set_elem in H as [[= -> ->]|H]; [|by left].
    right. exists raw. split; [by left|done].
  - right. exists raw'. split; [by right|done].
Qed.

Lemma returns_mapping text d :
  outcome (load_replacements text) = Returns d ->
  d = mapping_after (lines_of text) /\ inverse_pairs d = [].
Proof.
  unfold load_replacements, mapping_after. cbn [outcome].
  destruct (inverse_pairs _) eqn:E; [|done]. intros [= <-]. done.
Qed.

(** X18. Every item of a mapping that [load_replacements] returns is well
    formed: the key is not empty, has no [=] in it and no white space around
    it, and the value has no white space around it. *)
Theorem loaded_entries_well_formed (text : string) (d : list (string * string))
  (key val : string) :
  outcome (load_replacements text) = Returns d ->
  (key, val) ∈ d ->
  key <> EmptyString /\ str_in "=" key = false /\ strip key = key /\ strip val = val.
Proof.
  intros Hret Hin. apply returns_mapping in Hret as [-> _].
  unfold mapping_after in Hin.
  apply load_lines_entries in Hin as [Hin|(raw & _ & Hp)].
  - by apply elem_of_nil in Hin.
  - by apply parse_line_entry in Hp.
Qed.

Lemma loaded_entries_well_formed_witness :
  "k" <> EmptyString /\ str_in "=" "k" = false /\ strip "k" = "k" /\ strip "a=b" = "a=b".
Proof.
  apply (loaded_entries_well_formed settings [("Acme", "Apex"); ("k", "a=b")]).
  - reflexivity.
  - apply list_elem_of_further, list_elem_of_here.
Defined.

(** X19. A mapping that [load_replacements] returns maps no key to itself:
    a line such as [word=word] counts as an inverse pair and makes the call
    raise. *)
Theorem loaded_mapping_has_no_identity (text : string) (d : list (string * string))
  (key : string) :
  outcome (load_replacements text) = Returns d ->
  dict_get d key <> Some key.
Proof.
  intros Hret Hself. apply returns_mapping in Hret as [-> Hnone].
  apply inverse_pairs_nil in Hnone.
  - apply Hnone. by exists key, key.
  - apply load_lines_nodup. constructor.
Qed.

Lemma loaded_mapping_has_no_identity_witness :
  outcome (load_replacements settings) = Returns [("Acme", "Apex"); ("k", "a=b")] /\
  dict_get [("Acme", "Apex"); ("k", "a=b")] "Acme" <> Some "Acme".
Proof.
  split; [reflexivity|].
  apply (loaded_mapping_has_no_identity settings). reflexivity.
Defined.

(** *** Lines that are not entries *)

Lemma load_line_replacements st st' idx idx' raw :
  replacements st = replacements st' ->
  replacements (load_line st idx raw) = replacements (load_line st' idx' raw).
Proof.
  intros H. unfold load_line. destruct (parse_line raw); cbn [replacements]; by rewrite ?H.
Qed.

Lemma load_lines_entries_only lines : forall st st' idx idx',
  replacements st = replacements st' ->
  replacements (load_lines st idx lines)
  = replacements (load_lines st' idx' (List.filter is_entry lines)).
Proof.
  induction lines as [|raw rest IH]; intros st st' idx idx' H; [done|].
  cbn [load_lines List.filter]. unfold is_entry at 1.
  destruct (parse_line raw) as [| | |key val] eqn:Hp.
  1,2,3: apply IH; rewrite <- H; unfold load_line; rewrite Hp; done.
  cbn [load_lines]. apply IH. by apply load_line_replacements.
Qed.

(** X20. Comment lines, blank lines and malformed lines have no effect on
    the mapping: it is the mapping of the entry lines alone. *)
Theorem non_entry_lines_do_not_matter (lines : list string) :
  mapping_after lines = mapping_after (List.filter is_entry lines).
Proof. unfold mapping_after. by apply load_lines_entries_only. Qed.

Lemma load_lines_malformed lines : forall st idx,
  malformed (load_lines st idx lines)
  = malformed st ++ List.filter (fun item => is_malformed item.2) (enumerate idx lines).
Proof.
  induction lines as [|raw rest IH]; intros st idx.
  - cbn. by rewrite app_nil_r.
  - cbn [load_lines enumerate List.filter snd]. rewrite IH.
    unfold load_line, is_malformed at 2.
    destruct (parse_line raw); cbn [malformed]; try done.
    by rewrite <- app_assoc.
Qed.

(** X21. The malformed lines that [load_replacements] reports are the lines
    that are neither comments, nor blank, nor entries, each with its number
    in the file counted from 1, in the order of the file; they do not stop
    the loading. *)
Theorem malformed_lines_are_reported (text : string) :
  reported (load_replacements text)
  = List.filter (fun item => is_malformed item.2) (enumerate 1 (lines_of text)).
Proof. unfold load_replacements. cbn [reported]. by rewrite load_lines_malformed. Qed.

(** *** Line breaks *)

Lemma split_lines_line l rest :
  str_in (String LF EmptyString) l = false ->
  split_lines (l +:+ String LF rest) = l :: split_lines rest.
Proof.
  induction l as [|x l IH]; intros H.
  - rewrite append_nil. cbn [split_lines]. by rewrite Ascii.eqb_refl.
  - rewrite char_in_cons in H. apply orb_false_iff in H as [Hx H].
    rewrite append_cons. cbn [split_lines]. by rewrite Hx, IH.
Qed.

Lemma split_lines_last l :
  str_in (String LF EmptyString) l = false -> split_lines l = [l].
Proof.
  induction l as [|x l IH]; intros H; [done|].
  rewrite char_in_cons in H. apply orb_false_iff in H as [Hx H].
  cbn [split_lines]. by rewrite Hx, IH.
Qed.

Lemma normalize_line l rest :
  str_in (String CR EmptyString) l = false ->
  normalize_newlines (l +:+ rest) = l +:+ normalize_newlines rest.
Proof.
  induction l as [|x l IH]; intros H; [done|].
  rewrite char_in_cons in H. apply orb_false_iff in H as [Hx H].
  rewrite !append_cons. cbn [normalize_newlines]. by rewrite Hx, IH.
Qed.

Lemma normalize_clean l :
  str_in (String CR EmptyString) l = false -> normalize_newlines l = l.
Proof.
  intros H. rewrite <- (append_empty_r l) at 1. rewrite normalize_line by done.
  apply append_empty_r.
Qed.

Lemma has_break_false l :
  has_break l = false ->
  str_in (String CR EmptyString) l = false /\ str_in (String LF EmptyString) l = false.
Proof. unfold has_break. apply orb_false_iff. Qed.

Lemma join_cons sep l l' rest :
  join sep (l :: l' :: rest) = l +:+ sep +:+ join sep (l' :: rest).
Proof. reflexivity. Qed.

Lemma join_no_line_feed sep lines :
  str_in (String LF EmptyString) sep = false ->
  Forall (fun l => has_break l = false) lines ->
  str_in (String LF EmptyString) (join sep lines) = false.
Proof.
  intros Hsep Hall. induction Hall as [|l rest Hl Hrest IH]; [done|].
  apply has_break_false in Hl as [_ Hl].
  destruct rest as [|l' rest]; [done|].
  rewrite join_cons, !char_in_append, Hl, Hsep. exact IH.
Qed.

Lemma split_join lines :
  lines <> [] -> Forall (fun l => has_break l = false) lines ->
  split_lines (join (String LF EmptyString) lines) = lines.
Proof.
  intros Hne Hall. induction Hall as [|l rest Hl Hrest IH]; [done|].
  apply has_break_false in Hl as [_ Hl].
  destruct rest as [|l' rest]; [by apply split_lines_last|].
  rewrite join_cons. change (String LF EmptyString +:+ join (String LF EmptyString) (l' :: rest))
    with (String LF (join (String LF EmptyString) (l' :: rest))).
  rewrite split_lines_line by done. by rewrite IH.
Qed.

Lemma normalize_join sep lines :
  sep = String LF EmptyString \/ sep = String CR (String LF EmptyString) \/
  sep = String CR EmptyString ->
  Forall (fun l => has_break l = false) lines ->
  normalize_newlines (join sep lines) = join (String LF EmptyString) lines.
Proof.
  intros Hsep Hall. induction Hall as [|l rest Hl Hrest IH]; [done|].
  pose proof Hl as Hbreak. apply has_break_false in Hl as [Hl _].
  destruct rest as [|l' rest]; [by apply normalize_clean|].
  rewrite !join_cons, normalize_line by done. f_equal.
  destruct Hsep as [-> | [-> | ->]].
  - change (String LF EmptyString +:+ ?x) with (String LF x).
    cbn [normalize_newlines]. change (Ascii.eqb LF CR) with false. cbn iota.
    by rewrite IH.
  - change (String CR (String LF EmptyString) +:+ join (String CR (String LF EmptyString))
              (l' :: rest))
      with (String CR (String LF (join (String CR (String LF EmptyString)) (l' :: rest)))).
    cbn [normalize_newlines]. rewrite !Ascii.eqb_refl. by rewrite IH.
  - change (String CR EmptyString +:+ join (String CR EmptyString) (l' :: rest))
      with (String CR (join (String CR EmptyString) (l' :: rest))).
    change (String LF EmptyString +:+ join (String LF EmptyString) (l' :: rest))
      with (String LF (join (String LF EmptyString) (l' :: rest))).
    rewrite <- IH.
    pose proof (join_no_line_feed (String CR EmptyString) (l' :: rest) eq_refl Hrest) as Hlf.
    destruct (join (String CR EmptyString) (l' :: rest)) as [|c rest'] eqn:Hjoin.
    + reflexivity.
    + rewrite char_in_cons in Hlf. apply orb_false_iff in Hlf as [Hc _].
      cbn [normalize_newlines]. rewrite Ascii.eqb_refl. fold normalize_newlines.
      by rewrite Hc.
Qed.

(** X22. The three line-break conventions load alike: lines without line
    breaks in them, written with LF, CR LF or CR between them, are read back
    as these very lines. *)
Theorem line_break_convention_does_not_matter (sep : string) (lines : list string) :
  sep = String LF EmptyString \/ sep = String CR (String LF EmptyString) \/
  sep = String CR EmptyString ->
  lines <> [] ->
  Forall (fun l => has_break l = false) lines ->
  lines_of (join sep lines) = lines.
Proof.
  intros Hsep Hne Hall. unfold lines_of.
  rewrite normalize_join by done. by apply split_join.
Qed.

Lemma line_break_convention_does_not_matter_witness :
  lines_of (join (String CR (String LF EmptyString)) three_lines) = three_lines /\
  lines_of (join (String CR EmptyString) three_lines) = three_lines.
Proof.
  split.
  - apply line_break_convention_does_not_matter; [by right; left|discriminate|].
    repeat constructor.
  - apply line_break_convention_does_not_matter; [by right; right|discriminate|].
    repeat constructor.
Defined.

(** *** The update of a presentation *)

Section Honest.
Context {A : Type}.

Lemma for_each_honest (body : A -> bool -> A * option bool) :
  honest body -> honest (for_each body).
Proof.
  intros Hbody xs. induction xs as [|x xs IH]; intros updated; [by left|].
  cbn [for_each]. specialize (Hbody x updated).
  destruct (body x updated) as [x' [updated'|]]; [|done].
  specialize (IH updated').
  destruct (for_each body xs updated') as [xs' [updated''|]]; [|done].
  destruct IH as [[-> ->] | ->]; [|by right].
  destruct Hbody as [[-> ->] | ->]; [by left|by right].
Qed.

Lemma for_some_honest (body : A -> bool -> A * option bool) :
  honest body -> honest (for_some body).
Proof.
  intros Hbody [a|] updated; [|by left].
  cbn [for_some]. specialize (Hbody a updated).
  destruct (body a updated) as [a' [updated'|]]; [|done].
  destruct Hbody as [[-> ->] | ->]; [by left|by right].
Qed.

End Honest.

Lemma joined_blank (others : list run) :
  foldr (fun (t : string) acc => t +:+ acc) EmptyString ((fun _ : run => EmptyString) <$> others)
  = EmptyString.
Proof. induction others as [|r others IH]; [done|]. cbn. exact IH. Qed.

Lemma joined_texts (runs : list run) :
  joined runs = foldr (fun (t : string) acc => t +:+ acc) EmptyString (texts runs).
Proof.
  unfold joined, texts. induction runs as [|r runs IH]; [done|].
  cbn [foldr fmap list_fmap]. by f_equal.
Qed.

Section Update.
Variable agn : bool.
Variable replacements : list (string * string).

(** What has been gone through and altered is not as it was, when the new
    text is stored as it is. *)
Lemma altered_differs before after :
  paragraph_processed agn replacements before after ->
  (forall new_text,
     replace_all agn replacements (joined before) = Some new_text ->
     has_control new_text = false) ->
  alters agn replacements before = true -> after <> before.
Proof.
  intros (_ & _ & _ & Hnew & _) Hplain Halt E. subst after.
  unfold alters in Halt. destruct before as [|first others]; [done|].
  destruct (replace_all agn replacements (joined (first :: others))) as [nt|] eqn:Hall;
    [|done].
  apply negb_true_iff, String.eqb_neq in Halt.
  destruct (Hnew nt eq_refl) as [_ Htexts].
  destruct (Htexts Halt) as [_ Hstored]. specialize (Hstored (Hplain nt eq_refl)).
  apply Halt. rewrite (joined_texts (first :: others)), Hstored. cbn.
  rewrite joined_blank. symmetry. apply append_empty_r.
Qed.

Lemma unaltered_same before after :
  paragraph_processed agn replacements before after ->
  alters agn replacements before = false -> after = before.
Proof.
  intros (Hlen & _ & Hnokey & Hnew & Hsome) Halt.
  destruct before as [|first others]; [by destruct after|].
  destruct (any_key_in replacements (joined (first :: others))) eqn:Hany; [|by apply Hnokey].
  destruct (Hsome ltac:(done) eq_refl) as [nt Hall].
  unfold alters in Halt. rewrite Hall in Halt.
  apply negb_false_iff, String.eqb_eq in Halt.
  by apply (Hnew nt Hall).
Qed.

Lemma process_paragraph_honest : honest (process_paragraph agn replacements).
Proof.
  intros runs updated.
  destruct (process_paragraph agn replacements runs updated) as [after [updated'|]] eqn:Hrun;
    [|done].
  apply process_paragraph_processed in Hrun as [Hafter ->].
  destruct (alters agn replacements runs) eqn:Halt.
  - right. by rewrite orb_true_r.
  - left. rewrite orb_false_r. split; [by apply unaltered_same|done].
Qed.

Lemma process_cell_honest : honest (process_cell agn replacements).
Proof.
  intros [tf] updated. unfold process_cell. cbn [cell_text_frame].
  pose proof (for_some_honest _ (for_each_honest _ process_paragraph_honest) tf updated) as H.
  fold (process_frame agn replacements) in H.
  destruct (for_some (process_frame agn replacements) tf updated) as [tf' [updated'|]];
    [|done].
  destruct H as [[-> ->] | ->]; [by left|by right].
Qed.

Lemma process_shape_honest : honest (process_shape agn replacements).
Proof.
  intros [tf tbl] updated. unfold process_shape. cbn [text_frame table].
  pose proof (for_some_honest _ (for_each_honest _ process_paragraph_honest) tf updated) as Hf.
  fold (process_frame agn replacements) in Hf.
  destruct (for_some (process_frame agn replacements) tf updated) as [tf' [updated'|]];
    [|done].
  destruct tbl as [| |rows]; [| done |].
  - destruct Hf as [[-> ->] | ->]; [by left|by right].
  - pose proof (for_each_honest _ (for_each_honest _ process_cell_honest) rows updated')
      as Ht.
    destruct (for_each (for_each (process_cell agn replacements)) rows updated')
      as [rows' [updated''|]]; [|done].
    destruct Ht as [[-> ->] | ->]; [|by right].
    destruct Hf as [[-> ->] | ->]; [by left|by right].
Qed.

(** Paragraphs gone through and found as they were have not been altered,
    when the new texts are stored as they are. *)
Lemma unchanged_not_altered (paragraphs : list (list run)) :
  Forall2 (paragraph_processed agn replacements) paragraphs paragraphs ->
  plain_results agn replacements paragraphs ->
  existsb (alters agn replacements) paragraphs = false.
Proof.
  induction paragraphs as [|runs rest IH]; intros Hall Hplain; [done|].
  apply Forall2_cons in Hall as [Hruns Hrest]. cbn [existsb].
  apply orb_false_iff. split.
  - destruct (alters agn replacements runs) eqn:Halt; [|done].
    destruct (altered_differs runs runs Hruns) as []; [|done|done].
    intros new_text. apply Hplain. by left.
  - apply IH; [done|]. intros r t Hr. apply Hplain. by right.
Qed.

End Update.

(** X23. When [update_ppt_text] returns, it returns [True] exactly when
    applying the replacement patterns changes the text of some paragraph
    that has runs, in a text frame of a shape or of a table cell: a
    replacement that leaves every text as it is does not count as an
    update. *)
Theorem update_ppt_text_returns_whether_altered
  (ascii_group_numbers : bool) (prs : presentation) (replacements : list (string * string))
  (updated : bool) :
  (update_ppt_text ascii_group_numbers prs replacements).2 = Some updated ->
  updated = existsb (alters ascii_group_numbers replacements) (paragraphs_of prs).
Proof.
  pose proof (update_ppt_text_visits ascii_group_numbers replacements prs) as H.
  destruct (update_ppt_text ascii_group_numbers prs replacements) as [memory [result|]];
    [|done].
  cbn [snd]. intros [= <-]. by destruct H.
Qed.

Lemma update_ppt_text_returns_whether_altered_witness :
  true = existsb (alters true [("World", "\\o/ \g<0>")]) (paragraphs_of one_slide) /\
  false = existsb (alters true [("Foo", "Foo"); ("Baz", "\q")]) (paragraphs_of [[]]).
Proof.
  split.
  - apply (update_ppt_text_returns_whether_altered true one_slide [("World", "\\o/ \g<0>")]).
    reflexivity.
  - apply (update_ppt_text_returns_whether_altered true [[]] [("Foo", "Foo"); ("Baz", "\q")]).
    reflexivity.
Defined.

(** X24. When [update_ppt_text] returns [False], it has left the
    presentation as it was: a call that returns saves the file whenever
    something has changed. And it saves the file only then, as long as no
    paragraph gets a text with control characters: when it returns [True],
    the presentation is not as it was. *)
Theorem update_ppt_text_false_means_unchanged
  (ascii_group_numbers : bool) (prs : presentation) (replacements : list (string * string))
  (updated : bool) :
  (update_ppt_text ascii_group_numbers prs replacements).2 = Some updated ->
  (updated = false -> (update_ppt_text ascii_group_numbers prs replacements).1 = prs) /\
  (plain_results ascii_group_numbers replacements (paragraphs_of prs) ->
   updated = true -> (update_ppt_text ascii_group_numbers prs replacements).1 <> prs).
Proof.
  pose proof (update_ppt_text_visits ascii_group_numbers replacements prs) as Hvisit.
  unfold update_ppt_text in *.
  pose proof (for_each_honest _
                (for_each_honest _ (process_shape_honest ascii_group_numbers replacements))
                prs false) as H.
  destruct (for_each (for_each (process_shape ascii_group_numbers replacements)) prs false)
    as [memory [result|]]; [|done].
  cbn [fst snd]. intros [= <-]. split.
  - intros ->. by destruct H as [[-> _] | [=]].
  - intros Hplain -> ->. destruct Hvisit as [Hall Hsome].
    by rewrite (unchanged_not_altered _ _ _ Hall Hplain) in Hsome.
Qed.

Lemma update_ppt_text_false_means_unchanged_witness :
  (update_ppt_text true one_slide [("Hello", "Hello")]).1 = one_slide /\
  (update_ppt_text true one_slide [("Hello World", "Hi All")]).1 <> one_slide.
Proof.
  split.
  - apply (update_ppt_text_false_means_unchanged true one_slide [("Hello", "Hello")] false);
      reflexivity.
  - apply (update_ppt_text_false_means_unchanged true one_slide [("Hello World", "Hi All")]
             true); [reflexivity| |reflexivity].
    intros runs new_text Hin. apply list_elem_of_In in Hin.
    destruct Hin as [<-|[<-|[]]]; vm_compute; by intros [= <-].
Defined.

(** The condition is needed: a text that spells out a control character and
    is replaced by that character is stored as it was, and the call returns
    [True]. *)
Lemma spelled_out_character_is_stored_again :
  let prs := [ [ {| text_frame := Some [ [ {| run_text := "_x0007_"; run_font := 1 |} ] ];
                    table := NoTableAttribute |} ] ] in
  update_ppt_text true prs [("_x0007_", "\a")] = (prs, Some true).
Proof. reflexivity. Qed.

Lemma processed_text agn replacements before after :
  paragraph_processed agn replacements before after ->
  joined after = expected_text agn replacements before.
Proof.
  intros Hafter. pose proof Hafter as (Hlen & _ & Hnokey & Hnew & Hsome).
  unfold expected_text. destruct before as [|first others]; [by destruct after|].
  destruct (replace_all agn replacements (joined (first :: others))) as [nt|] eqn:Hall.
  - destruct (Hnew nt eq_refl) as [Hsame Hother].
    destruct (String.eqb_spec nt (joined (first :: others))) as [E|Hne].
    + by rewrite (Hsame E).
    + destruct (Hother Hne) as [Hstored _]. rewrite (joined_texts after), Hstored. cbn.
      rewrite joined_blank. apply append_empty_r.
  - destruct (any_key_in replacements (joined (first :: others))) eqn:Hany.
    + destruct (Hsome ltac:(done) eq_refl) as [nt [=]].
    + by rewrite (Hnokey eq_refl).
Qed.

Lemma upto_fonts agn replacements (l l' : list (list run)) :
  upto (paragraph_processed agn replacements) l l' ->
  Forall2 (fun before after => fonts after = fonts before) l l'.
Proof.
  induction 1 as [l|x x' l l' Hx _ IH].
  - induction l; by constructor.
  - constructor; [|done]. by destruct Hx as (_ & Hfonts & _).
Qed.

(** X25. In every paragraph of the presentation the runs keep their
    formatting, whether [update_ppt_text] returns or raises. When it
    returns, the text of every paragraph, read across its runs, is the result
    of applying the replacement patterns, in the order of the mapping, to the
    text it had, as a run stores it (a control character written out as
    [_xHHHH_]); a paragraph without runs, or with a text that the patterns do
    not change, keeps its text. *)
Theorem update_ppt_text_keeps_fonts
  (ascii_group_numbers : bool) (prs : presentation) (replacements : list (string * string)) :
  let run := update_ppt_text ascii_group_numbers prs replacements in
  Forall2 (fun before after => fonts after = fonts before)
    (paragraphs_of prs) (paragraphs_of run.1) /\
  (is_Some run.2 ->
   Forall2 (fun before after =>
              joined after = expected_text ascii_group_numbers replacements before)
     (paragraphs_of prs) (paragraphs_of run.1)).
Proof.
  intros run. subst run.
  pose proof (update_ppt_text_visits ascii_group_numbers replacements prs) as H.
  destruct (update_ppt_text ascii_group_numbers prs replacements) as [memory [updated|]];
    cbn [fst snd].
  - destruct H as [H _]. split.
    + by apply (upto_fonts ascii_group_numbers replacements), upto_all.
    + intros _. eapply Forall2_impl; [exact H|]. intros before after. apply processed_text.
  - split; [by apply (upto_fonts ascii_group_numbers replacements)|]. by intros [? [=]].
Qed.

Lemma update_ppt_text_keeps_fonts_witness :
  Forall2 (fun before after => joined after = expected_text true [("o W", "\g<0>!")] before)
    (paragraphs_of one_slide)
    (paragraphs_of (update_ppt_text true one_slide [("o W", "\g<0>!")]).1).
Proof.
  apply (update_ppt_text_keeps_fonts true one_slide [("o W", "\g<0>!")]).
  cbn. eauto.
Defined.

End MassUpdateMore.
